(** * npmgoproxy: an npm registry served through the Go module proxy protocol

    A shallow embedding of [internal/npm.go] and [npmgop/server.go], and the
    properties of the translation pipeline: version normalisation and
    ordering, package-name escaping, module identities, request routing,
    tarball verification and staging-directory lifetime.

    Go strings are byte sequences, and so are Rocq's [string]s (a list of
    8-bit [ascii]); Go's [<] on strings is the byte-wise lexical order,
    [String.ltb] here. *)

From Stdlib Require Import Ascii ZArith Lia Sorting.Sorted.
From Stdlib Require String.
From stdpp Require Import base list strings gmap sorting.

Local Open Scope Z_scope.

(** ** The [strings] package *)

Module GoStrings.

(** [strings.HasPrefix(s, prefix)]. *)
Definition HasPrefix (s pre : string) : bool := String.prefix pre s.

(** [s[n:]], the empty string when [n] exceeds the length. *)
Fixpoint drop_bytes (n : nat) (s : string) : string :=
  match n, s with
  | O, _ => s
  | S _, EmptyString => EmptyString
  | S k, String _ s' => drop_bytes k s'
  end.

(** [strings.TrimPrefix(s, prefix)]. *)
Definition TrimPrefix (s pre : string) : string :=
  if HasPrefix s pre then drop_bytes (String.length pre) s else s.

(** [strings.ReplaceAll(s, old, new)] for a non-empty [old]: the
    non-overlapping occurrences of [old] are replaced from left to right.
    [skip] counts the bytes of a match that are still to be passed over.
    (With an empty [old] Go inserts [new] around every rune; no call site
    of the proxy does that, and this model leaves [s] unchanged there.) *)
Fixpoint ReplaceAll_from (skip : nat) (s old new : string) : string :=
  match s with
  | EmptyString => EmptyString
  | String c s' =>
      match skip with
      | S k => ReplaceAll_from k s' old new
      | O =>
          if String.prefix old s
          then new +:+ ReplaceAll_from (String.length old - 1) s' old new
          else String c (ReplaceAll_from 0 s' old new)
      end
  end.

Definition ReplaceAll (s old new : string) : string :=
  match old with
  | EmptyString => s
  | _ => ReplaceAll_from 0 s old new
  end.

(** [strings.Contains(s, sub)]. *)
Fixpoint Contains (s sub : string) : bool :=
  String.prefix sub s ||
  match s with
  | EmptyString => false
  | String _ s' => Contains s' sub
  end.

(** [strings.HasSuffix(s, suffix)]. *)
Definition HasSuffix (s suffix : string) : bool :=
  (String.length suffix <=? String.length s)%nat
  && String.eqb (drop_bytes (String.length s - String.length suffix) s) suffix.

(** [strings.Join(elems, sep)]. *)
Fixpoint Join (elems : list string) (sep : string) : string :=
  match elems with
  | [] => EmptyString
  | [e] => e
  | e :: rest => e +:+ sep +:+ Join rest sep
  end.

End GoStrings.

(** ** The [golang.org/x/mod/semver] package

    The proxy orders versions with [semver.Compare] and takes the major
    component with [semver.Major].  The package is a dependency of the
    repository; its functions are written out here as the package defines
    them, with Go's [int] results [-1], [0], [+1] in [Z]. *)

Module semver.

Record parsed := {
  major : string;
  minor : string;
  patch : string;
  short : string;
  prerelease : string;
  build : string;
}.

Definition is_digit (c : ascii) : bool :=
  let n := N_of_ascii c in (48 <=? n)%N && (n <=? 57)%N.

Definition isIdentChar (c : ascii) : bool :=
  let n := N_of_ascii c in
  ((65 <=? n)%N && (n <=? 90)%N) || ((97 <=? n)%N && (n <=? 122)%N)
  || is_digit c || Ascii.eqb c "-".

(** [v[:i]] and [v[i:]] for [i] the end of the leading run of digits. *)
Fixpoint span_digits (v : string) : string * string :=
  match v with
  | EmptyString => (EmptyString, EmptyString)
  | String c v' =>
      if is_digit c
      then let '(t, rest) := span_digits v' in (String c t, rest)
      else (EmptyString, v)
  end.

Definition parseInt (v : string) : option (string * string) :=
  match v with
  | EmptyString => None
  | String c _ =>
      if negb (is_digit c) then None
      else
        let '(t, rest) := span_digits v in
        if Ascii.eqb c "0" && negb (String.length t =? 1)%nat then None
        else Some (t, rest)
  end.

Definition isNum (v : string) : bool :=
  String.eqb (snd (span_digits v)) "".

Definition isBadNum (v : string) : bool :=
  isNum v && (1 <? String.length v)%nat && String.prefix "0" v.

(** The loop of [parsePrerelease] from index 1: [cur] is [v[start:i]],
    the identifier being read; the result is the consumed text (without
    the leading hyphen) and the rest. *)
Fixpoint parsePrerelease_loop (v cur : string) : option (string * string) :=
  match v with
  | EmptyString =>
      if String.eqb cur "" || isBadNum cur then None
      else Some (EmptyString, EmptyString)
  | String c v' =>
      if Ascii.eqb c "+" then
        if String.eqb cur "" || isBadNum cur then None
        else Some (EmptyString, v)
      else if negb (isIdentChar c) && negb (Ascii.eqb c ".") then None
      else
        let next :=
          if Ascii.eqb c "." then
            if String.eqb cur "" || isBadNum cur then None
            else parsePrerelease_loop v' ""
          else parsePrerelease_loop v' (cur +:+ String c "")
        in
        match next with
        | Some (t, rest) => Some (String c t, rest)
        | None => None
        end
  end.

Definition parsePrerelease (v : string) : option (string * string) :=
  match v with
  | String "-" v' =>
      match parsePrerelease_loop v' "" with
      | Some (t, rest) => Some (String "-" t, rest)
      | None => None
      end
  | _ => None
  end.

Fixpoint parseBuild_loop (v cur : string) : option (string * string) :=
  match v with
  | EmptyString =>
      if String.eqb cur "" then None else Some (EmptyString, EmptyString)
  | String c v' =>
      if negb (isIdentChar c) && negb (Ascii.eqb c ".") then None
      else
        let next :=
          if Ascii.eqb c "." then
            if String.eqb cur "" then None else parseBuild_loop v' ""
          else parseBuild_loop v' (cur +:+ String c "")
        in
        match next with
        | Some (t, rest) => Some (String c t, rest)
        | None => None
        end
  end.

Definition parseBuild (v : string) : option (string * string) :=
  match v with
  | String "+" v' =>
      match parseBuild_loop v' "" with
      | Some (t, rest) => Some (String "+" t, rest)
      | None => None
      end
  | _ => None
  end.

(** The tail of [parse], after the patch number: an optional pre-release,
    an optional build, and nothing else. *)
Definition parse_suffix (maj min pat v : string) : option parsed :=
  let pre :=
    match v with
    | String "-" _ =>
        match parsePrerelease v with
        | Some (t, rest) => Some (t, rest)
        | None => None
        end
    | _ => Some (EmptyString, v)
    end in
  match pre with
  | None => None
  | Some (pr, v) =>
      let bld :=
        match v with
        | String "+" _ =>
            match parseBuild v with
            | Some (t, rest) => Some (t, rest)
            | None => None
            end
        | _ => Some (EmptyString, v)
        end in
      match bld with
      | None => None
      | Some (b, v) =>
          if negb (String.eqb v "") then None
          else Some {| major := maj; minor := min; patch := pat;
                       short := ""; prerelease := pr; build := b |}
      end
  end.

Definition parse (v : string) : option parsed :=
  match v with
  | String "v" v =>
      match parseInt v with
      | None => None
      | Some (maj, v) =>
          match v with
          | EmptyString =>
              Some {| major := maj; minor := "0"; patch := "0";
                      short := ".0.0"; prerelease := ""; build := "" |}
          | String "." v =>
              match parseInt v with
              | None => None
              | Some (min, v) =>
                  match v with
                  | EmptyString =>
                      Some {| major := maj; minor := min; patch := "0";
                              short := ".0"; prerelease := ""; build := "" |}
                  | String "." v =>
                      match parseInt v with
                      | None => None
                      | Some (pat, v) => parse_suffix maj min pat v
                      end
                  | _ => None
                  end
              end
          | _ => None
          end
      end
  | _ => None
  end.

(** [v[:n]]. *)
Fixpoint take_bytes (n : nat) (v : string) : string :=
  match n, v with
  | S k, String c v' => String c (take_bytes k v')
  | _, _ => EmptyString
  end.

Definition Major (v : string) : string :=
  match parse v with
  | None => ""
  | Some pv => take_bytes (1 + String.length (major pv)) v
  end.

Definition compareInt (x y : string) : Z :=
  if String.eqb x y then 0
  else if (String.length x <? String.length y)%nat then -1
  else if (String.length y <? String.length x)%nat then 1
  else if String.ltb x y then -1 else 1.

(** [x[:i]] and [x[i:]] for [i] the index of the first dot. *)
Fixpoint nextIdent (x : string) : string * string :=
  match x with
  | EmptyString => (EmptyString, EmptyString)
  | String c x' =>
      if Ascii.eqb c "." then (EmptyString, x)
      else let '(dx, rest) := nextIdent x' in (String c dx, rest)
  end.

(** The comparison of two different identifiers in [comparePrerelease]. *)
Definition compareIdent (dx dy : string) : Z :=
  let ix := isNum dx in
  let iy := isNum dy in
  if negb (Bool.eqb ix iy) then (if ix then -1 else 1)
  else if ix && (String.length dx <? String.length dy)%nat then -1
  else if ix && (String.length dy <? String.length dx)%nat then 1
  else if String.ltb dx dy then -1 else 1.

(** The loop of [comparePrerelease]; every round drops at least one byte
    of [x], so [String.length x] rounds are enough. *)
Fixpoint comparePrerelease_loop (fuel : nat) (x y : string) : Z :=
  match fuel with
  | O => if String.eqb x "" then -1 else 1
  | S fuel' =>
      if negb (String.eqb x "") && negb (String.eqb y "") then
        let x := GoStrings.drop_bytes 1 x in
        let y := GoStrings.drop_bytes 1 y in
        let '(dx, x) := nextIdent x in
        let '(dy, y) := nextIdent y in
        if negb (String.eqb dx dy) then compareIdent dx dy
        else comparePrerelease_loop fuel' x y
      else if String.eqb x "" then -1 else 1
  end.

Definition comparePrerelease (x y : string) : Z :=
  if String.eqb x y then 0
  else if String.eqb x "" then 1
  else if String.eqb y "" then -1
  else comparePrerelease_loop (String.length x) x y.

Definition Compare (v w : string) : Z :=
  match parse v, parse w with
  | None, None => 0
  | None, Some _ => -1
  | Some _, None => 1
  | Some pv, Some pw =>
      let c := compareInt (major pv) (major pw) in
      if negb (c =? 0) then c else
      let c := compareInt (minor pv) (minor pw) in
      if negb (c =? 0) then c else
      let c := compareInt (patch pv) (patch pw) in
      if negb (c =? 0) then c else
      comparePrerelease (prerelease pv) (prerelease pw)
  end.

End semver.

(** ** The [path] and [path/filepath] packages (Unix)

    [path.Join] builds the module path and [filepath.Join], [filepath.Dir]
    the staging paths.  On Unix both packages clean a path with the same
    algorithm, written out here as the standard library has it. *)

Module GoPath.

(** The backtracking step of [Clean] at a [..] element: [out.w--], then
    further back while [out.w > dotdot] and the byte just dropped is not a
    slash.  [rout] is the output buffer, last byte first. *)
Fixpoint backtrack (rout : string) (dotdot : nat) : string :=
  match rout with
  | EmptyString => EmptyString
  | String c rout' =>
      if (dotdot <? String.length rout')%nat && negb (Ascii.eqb c "/")
      then backtrack rout' dotdot
      else rout'
  end.

(** [r == n || path[r] == '/'] *)
Definition at_elem_end (p : string) : bool :=
  match p with
  | EmptyString => true
  | String c _ => Ascii.eqb c "/"
  end.

(** "real path element. add slash if needed" *)
Definition add_slash (rooted : bool) (rout : string) : string :=
  if (if rooted then negb (String.length rout =? 1)%nat
      else negb (String.length rout =? 0)%nat)
  then String "/" rout else rout.

(** The loop of [Clean] over [path[r:]].  [copying] is set while the bytes
    of a real path element are being copied (the inner [for] of the
    default case). *)
Fixpoint Clean_loop (p : string) (copying rooted : bool)
    (rout : string) (dotdot : nat) : string :=
  match p with
  | EmptyString => rout
  | String c p1 =>
      if Ascii.eqb c "/" then Clean_loop p1 false rooted rout dotdot
      else if copying then Clean_loop p1 true rooted (String c rout) dotdot
      else if Ascii.eqb c "." && at_elem_end p1
      then Clean_loop p1 false rooted rout dotdot
      else
        let element :=
          Clean_loop p1 true rooted (String c (add_slash rooted rout)) dotdot in
        match p1 with
        | EmptyString => element
        | String d p2 =>
            if Ascii.eqb c "." && Ascii.eqb d "." && at_elem_end p2 then
              if (dotdot <? String.length rout)%nat
              then Clean_loop p2 false rooted (backtrack rout dotdot) dotdot
              else if negb rooted then
                let rout :=
                  if (0 <? String.length rout)%nat then String "/" rout
                  else rout in
                let rout := String "." (String "." rout) in
                Clean_loop p2 false rooted rout (String.length rout)
              else Clean_loop p2 false rooted rout dotdot
            else element
        end
  end.

Definition Clean (path : string) : string :=
  match path with
  | EmptyString => "."
  | String c rest =>
      let rout :=
        if Ascii.eqb c "/" then Clean_loop rest false true "/" 1
        else Clean_loop path false false "" 0 in
      if (String.length rout =? 0)%nat then "." else String.rev rout
  end.

(** [path.Join] and, on Unix, [filepath.Join]: the elements from the first
    non-empty one on, joined with slashes and cleaned. *)
Fixpoint Join (elem : list string) : string :=
  match elem with
  | [] => ""
  | e :: rest =>
      if String.eqb e "" then Join rest
      else Clean (GoStrings.Join elem "/")
  end.

(** [path[:i+1]] for [i] the index of the last slash; empty without one. *)
Fixpoint through_last_slash (path : string) : string :=
  match path with
  | EmptyString => EmptyString
  | String c rest =>
      if GoStrings.Contains path "/"
      then String c (through_last_slash rest)
      else EmptyString
  end.

(** [filepath.Dir] *)
Definition Dir (path : string) : string := Clean (through_last_slash path).

End GoPath.

(** ** [internal/npm.go]: names and versions *)

Definition ModPathBase : string := "gohugo.io/npmjs".

(** Make the version Go semver compatible. *)
Definition normalizeSemver (s : string) : string :=
  if negb (GoStrings.HasPrefix s "v") then "v" +:+ s else s.

Definition EscapePackage (p : string) : string :=
  GoStrings.ReplaceAll p "@" "___".

Definition UnEscapePackage (p : string) : string :=
  GoStrings.ReplaceAll p "___" "@".

(** A name survives the escape/unescape round trip exactly when it has no
    run of three underscores and no underscore directly before a scope
    marker. *)
Definition roundtrip_safe (p : string) : bool :=
  negb (GoStrings.Contains p "___") && negb (GoStrings.Contains p "_@").

(** ** Errors

    Go's [error] values.  Every place where the proxy makes an error has a
    constructor of its own, named after its format string; the errors that
    the libraries return (net/http, encoding/json, os, archive/tar, the
    module packages) are [external_error]s, told apart by the package they
    come from and their text. *)

Record external := { origin : string; message : string }.

Inductive error : Type :=
| io_EOF
| external_error (e : external)
| error_version_not_found (version pack : string)
    (* fmt.Errorf("version %q not found for package %q", version, pack) *)
| error_download (cause : error)
    (* fmt.Errorf("failed to download tarball: %s", err) *)
| error_bad_status (status : string)
    (* fmt.Errorf("bad status: %s", resp.Status) *)
| error_shasum_mismatch
    (* errors.New("shasum mismatch") *)
| error_untar (cause : error)
    (* fmt.Errorf("failed to untar: %s", err) *)
| error_fail (what : string) (cause : error).
    (* fmt.Errorf("%s: %s", what, err) *)

Definition is_EOF (e : option error) : bool :=
  match e with Some io_EOF => true | _ => false end.

(** ** [internal/npm.go]: the data model *)

Module Dependency.
Record t := mk { Name : string; VersionRange : string }.
End Dependency.

Definition Dependencies := list Dependency.t.

Module Dist.
Record t := mk { ShaSum : string; Tarball : string }.
Definition zero : t := mk "" "".
End Dist.

Module DistTags.
Record t := mk { Latest : string }.
Definition zero : t := mk "".
End DistTags.

Module Version.
Record t := mk {
  Name : string;
  Version : string;
  Dependencies : Dependencies;
  Dist : Dist.t;
}.
Definition zero : t := mk "" "" [] Dist.zero.
End Version.

Definition Versions := list Version.t.

#[global] Instance Dependency_eq_dec : EqDecision Dependency.t.
Proof. solve_decision. Defined.

#[global] Instance Dist_eq_dec : EqDecision Dist.t.
Proof. solve_decision. Defined.

#[global] Instance Version_eq_dec : EqDecision Version.t.
Proof. solve_decision. Defined.

Module NpmPackage.
Record t := mk {
  Name : string;
  DistTags : DistTags.t;
  Versions : Versions;
}.
Definition zero : t := mk "" DistTags.zero [].
End NpmPackage.

(** A Go [map[string]V] as [range] sees it in one run: its entries, keys
    distinct, in the order of the visit.  The order is not specified by the
    language; two visits of one map are two permutations of its entries. *)
Definition GoMap (V : Type) : Type := list (string * V).

(** [m[k]] on a [map[string]string]: the empty string for a missing key. *)
Fixpoint map_index (m : GoMap string) (k : string) : string :=
  match m with
  | [] => ""
  | (k', v) :: rest => if String.eqb k' k then v else map_index rest k
  end.

(** [func (vs Versions) ByVersion(v string) (ver Version, found bool)]:
    the loop assigns every element it visits to the named result [ver]. *)
Fixpoint ByVersion_loop (ver : Version.t) (vs : Versions) (v : string)
    : Version.t * bool :=
  match vs with
  | [] => (ver, false)
  | x :: rest =>
      if String.eqb (Version.Version x) v then (x, true)
      else ByVersion_loop x rest v
  end.

Definition ByVersion (vs : Versions) (v : string) : Version.t * bool :=
  ByVersion_loop Version.zero vs v.

(** The [less] functions handed to [sort.Slice], on the elements at the two
    indices. *)
Definition Dependencies_less (vi vj : Dependency.t) : bool :=
  String.ltb (Dependency.Name vi) (Dependency.Name vj).

Definition Versions_less (vi vj : Version.t) : bool :=
  let cmp := semver.Compare (Version.Version vi) (Version.Version vj) in
  if negb (cmp =? 0) then cmp <? 0
  else String.ltb (Version.Version vi) (Version.Version vj).

(** The version as the loop of [Versions.UnmarshalJSON] appends it. *)
Definition normalized (version : Version.t) : Version.t :=
  Version.mk (Version.Name version) (normalizeSemver (Version.Version version))
    (Version.Dependencies version) (Version.Dist version).

Section Decoding.

(** [sort.Slice(x, less)], an unstable in-place sort of the standard
    library. *)
Variable sort_Slice : forall A : Type, (A -> A -> bool) -> list A -> list A.

(** The methods take the outcome of their first statement,
    [err := json.Unmarshal(b, &m)], and the receiver; they return the
    receiver as they leave it and the error. *)

Definition Dependencies_UnmarshalJSON (vs : Dependencies)
    (unmarshalled : error + GoMap string) : Dependencies * option error :=
  match unmarshalled with
  | inl err => (vs, Some err)
  | inr m =>
      let vs :=
        fold_left (fun vs '(k, v) => vs ++ [Dependency.mk k v]) m vs in
      (sort_Slice _ Dependencies_less vs, None)
  end.

Definition DistTags_UnmarshalJSON (tags : DistTags.t)
    (unmarshalled : error + GoMap string) : DistTags.t * option error :=
  match unmarshalled with
  | inl err => (tags, Some err)
  | inr m => (DistTags.mk (normalizeSemver (map_index m "latest")), None)
  end.

Definition Versions_UnmarshalJSON (vs : Versions)
    (unmarshalled : error + GoMap Version.t) : Versions * option error :=
  match unmarshalled with
  | inl err => (vs, Some err)
  | inr m =>
      let vs :=
        fold_left (fun vs '(_, version) => vs ++ [normalized version]) m vs in
      (sort_Slice _ Versions_less vs, None)
  end.

End Decoding.

(** ** The outside world

    The registry and the tarball host answer over HTTP; [encoding/json]
    turns a body into Go values, calling the [UnmarshalJSON] methods above;
    the tarball is read through [compress/gzip] and [archive/tar], hashed
    with [crypto/sha1], and packed by [golang.org/x/mod/zip].  What these
    collaborators answer is the [World] a request runs in. *)

Record Request := {
  Method : string;
  URL : string;
  Header : list (string * string);
}.

(** [Body] is what the body reader delivers and [BodyErr] the error it ends
    with, [None] for a clean end of stream. *)
Record Response := {
  StatusCode : Z;
  Status : string;
  Body : string;
  BodyErr : option external;
}.

(** A registry document as [encoding/json] reads it for the types of the
    data model: the members it has a field for, with the two maps in the
    order [range] will visit them; a string member that is absent is the
    empty string, an object member handled by [UnmarshalJSON] that is absent
    is [None] (the method is not called). *)
Record VersionDoc := {
  doc_name : string;
  doc_version : string;
  doc_dependencies : option (GoMap string);
  doc_dist : Dist.t;
}.

Record PackageDoc := {
  doc_package_name : string;
  doc_dist_tags : option (GoMap string);
  doc_versions : option (GoMap VersionDoc);
}.

(** What [tar.Reader.Next] returns, and the file bytes that follow a
    header; a stream that runs out ends with [io.EOF]. *)
Record tar_Header := { tar_Name : string; tar_Typeflag : ascii }.

Inductive tar_next : Type :=
| tar_entry (header : tar_Header) (content : string) (read_err : option external)
| tar_nil_header
| tar_failure (err : external).

Definition tar_TypeReg : ascii := "0".
Definition tar_TypeDir : ascii := "5".

(** [module.Version] *)
Record module_Version := { module_Path : string; module_Version_ : string }.

Inductive node : Type :=
| Dir
| File (content : string).

Record World := {
  (** [http.NewRequest]: the error for a URL that does not parse. *)
  http_NewRequest_err : string -> string -> option external;
  (** [client.Do] and [http.Get]: the exchange, or the transport error. *)
  http_Do : Request -> external + Response;
  (** [encoding/json] on a non-empty body. *)
  json_document : string -> external + PackageDoc;
  (** [hex.EncodeToString(sha1.Sum(...))] *)
  sha1_hex : string -> string;
  (** [gzip.NewReader] followed by the [tar.Reader] over it. *)
  gzip_tar : string -> external + list tar_next;
  (** [zip.CreateFromDir(f, m, dir)]: the bytes written to [f], and the
      error. *)
  zip_CreateFromDir :
    module_Version -> gmap string node -> string -> string * option external;
  (** [ioutil.TempDir("", "npmgop")]: the name of the directory made. *)
  ioutil_TempDir_name : gmap string node -> external + string;
  (** [module.EscapePath] and [module.SplitPathVersion] *)
  module_EscapePath : string -> external + string;
  module_SplitPathVersion : string -> string * string * bool;
}.

(** ** [internal/npm.go]: the registry client *)

Section Registry.

Variable sort_Slice : forall A : Type, (A -> A -> bool) -> list A -> list A.
Variable w : World.

(** [encoding/json] filling a [Version] from an object. *)
Definition decode_Version (d : VersionDoc) : Version.t * option error :=
  let '(deps, err) :=
    match doc_dependencies d with
    | None => ([], None)
    | Some m => Dependencies_UnmarshalJSON sort_Slice [] (inr m)
    end in
  (Version.mk (doc_name d) (doc_version d) deps (doc_dist d), err).

(** [json.Unmarshal(b, &m)] for [m map[string]Version]. *)
Fixpoint decode_Version_map (m : GoMap VersionDoc) : error + GoMap Version.t :=
  match m with
  | [] => inr []
  | (k, d) :: rest =>
      match decode_Version d with
      | (_, Some err) => inl err
      | (v, None) =>
          match decode_Version_map rest with
          | inl err => inl err
          | inr m' => inr ((k, v) :: m')
          end
      end
  end.

(** [encoding/json] filling an [NpmPackage] from an object. *)
Definition decode_NpmPackage (npmp : NpmPackage.t) (d : PackageDoc)
    : NpmPackage.t * option error :=
  let name := doc_package_name d in
  let '(tags, err) :=
    match doc_dist_tags d with
    | None => (NpmPackage.DistTags npmp, None)
    | Some m => DistTags_UnmarshalJSON (NpmPackage.DistTags npmp) (inr m)
    end in
  match err with
  | Some _ => (NpmPackage.mk name tags (NpmPackage.Versions npmp), err)
  | None =>
      let '(vs, err) :=
        match doc_versions d with
        | None => (NpmPackage.Versions npmp, None)
        | Some m =>
            Versions_UnmarshalJSON sort_Slice (NpmPackage.Versions npmp)
              (decode_Version_map m)
        end in
      (NpmPackage.mk name tags vs, err)
  end.

(** [json.NewDecoder(r.Body).Decode(&npmp)]: [io.EOF] when the stream
    ends before a value starts. *)
Definition Decoder_Decode (r : Response) (npmp : NpmPackage.t)
    : NpmPackage.t * option error :=
  match Body r, BodyErr r with
  | EmptyString, None => (npmp, Some io_EOF)
  | EmptyString, Some err => (npmp, Some (external_error err))
  | body, _ =>
      match json_document w body with
      | inl err => (npmp, Some (external_error err))
      | inr d => decode_NpmPackage npmp d
      end
  end.

Definition FetchPackage (s : string) : NpmPackage.t * option error :=
  let npmp := NpmPackage.zero in
  let url := "https://registry.npmjs.org/" +:+ s in
  match http_NewRequest_err w "GET" url with
  | Some err => (npmp, Some (external_error err))
  | None =>
      let req :=
        {| Method := "GET"; URL := url;
           Header := [("Accept", "application/vnd.npm.install-v1+json")] |} in
      match http_Do w req with
      | inl err => (npmp, Some (external_error err))
      | inr r =>
          let '(npmp, err) := Decoder_Decode r npmp in
          let err := if is_EOF err then None else err in
          (npmp, err)
      end
  end.

Definition FetchPackageVersion (pack version : string)
    : Version.t * option error :=
  let '(npmpkg, err) := FetchPackage pack in
  match err with
  | Some err => (Version.zero, Some err)
  | None =>
      let '(npmv, found) := ByVersion (NpmPackage.Versions npmpkg) version in
      if negb found
      then (npmv, Some (error_version_not_found version pack))
      else (npmv, None)
  end.

End Registry.

(** ** The file system

    Paths to directories and files with their contents.  The functions of
    [os] that the proxy calls, with the errors that depend on the tree
    (a missing parent, a file where a directory is needed); a full disk or
    a permission failure is not modelled. *)

Abbreviation FS := (gmap string node).

Definition os_error (msg : string) : error :=
  external_error {| origin := "os"; message := msg |}.

Definition is_dir (fs : FS) (path : string) : bool :=
  match fs !! path with Some Dir => true | _ => false end.

(** [path] itself or a path below it. *)
Definition under (dir path : string) : bool :=
  String.eqb path dir || String.prefix (dir +:+ "/") path.

(** The directories on the way to [path], shortest first, [path] last. *)
Fixpoint ancestors_from (done_ rest : string) : list string :=
  match rest with
  | EmptyString => [done_]
  | String c rest' =>
      let here := done_ +:+ String c "" in
      if Ascii.eqb c "/" && negb (String.eqb done_ "")
      then done_ :: ancestors_from here rest'
      else ancestors_from here rest'
  end.

Definition ancestors (path : string) : list string := ancestors_from "" path.

Definition os_Stat (path : string) (fs : FS) : error + node :=
  match fs !! path with
  | Some n => inr n
  | None => inl (os_error "no such file or directory")
  end.

Definition os_MkdirAll (path : string) (fs : FS) : error + FS :=
  if String.eqb path "" then inl (os_error "no such file or directory")
  else fold_left
    (fun acc dir =>
       match acc with
       | inl err => inl err
       | inr fs =>
           match fs !! dir with
           | Some (File _) => inl (os_error "not a directory")
           | Some Dir => inr fs
           | None => inr (<[dir := Dir]> fs)
           end
       end)
    (ancestors path) (inr fs).

(** [os.Create]: the file is made, or truncated, in an existing directory. *)
Definition os_Create (path : string) (fs : FS) : error + FS :=
  if is_dir fs path then inl (os_error "is a directory")
  else if negb (is_dir fs (GoPath.Dir path))
  then inl (os_error "no such file or directory")
  else inr (<[path := File ""]> fs).

(** [os.Open], for reading: the bytes of the file. *)
Definition os_Open (path : string) (fs : FS) : error + string :=
  match fs !! path with
  | Some (File content) => inr content
  | Some Dir => inr ""
  | None => inl (os_error "no such file or directory")
  end.

(** The bytes an open file holds after [io.Copy] into it. *)
Definition write_file (path content : string) (fs : FS) : FS :=
  <[path := File content]> fs.

Definition os_RemoveAll (path : string) (fs : FS) : FS :=
  if String.eqb path "" then fs
  else filter (fun kv => under path kv.1 = false) fs.

(** ** [internal/npm.go]: tarball and archive *)

Section Archive.

Variable w : World.

Definition http_Get (url : string) : external + Response :=
  http_Do w {| Method := "GET"; URL := url; Header := [] |}.

Definition downloadTarball (dist : Dist.t) (target : string) (fs : FS)
    : option error * FS :=
  match os_Create target fs with
  | inl err => (Some err, fs)
  | inr fs =>
      match http_Get (Dist.Tarball dist) with
      | inl err => (Some (external_error err), fs)
      | inr resp =>
          if negb (StatusCode resp =? 200)
          then (Some (error_bad_status (Status resp)), fs)
          else
            (* h := sha1.New(); out := io.MultiWriter(f, h);
               _, err = io.Copy(out, resp.Body) *)
            let fs := write_file target (Body resp) fs in
            match BodyErr resp with
            | Some err => (Some (external_error err), fs)
            | None =>
                let shasumFile := sha1_hex w (Body resp) in
                if negb (String.eqb shasumFile (Dist.ShaSum dist))
                then (Some error_shasum_mismatch, fs)
                else (None, fs)
            end
      end
  end.

(** The loop of [untar] over the headers of the archive. *)
Fixpoint untar_loop (dst : string) (stream : list tar_next) (fs : FS)
    : option error * FS :=
  match stream with
  | [] => (None, fs)
  | tar_failure err :: _ => (Some (external_error err), fs)
  | tar_nil_header :: rest => untar_loop dst rest fs
  | tar_entry header content read_err :: rest =>
      let target := GoPath.Join [dst; tar_Name header] in
      if Ascii.eqb (tar_Typeflag header) tar_TypeDir then
        match os_Stat target fs with
        | inr _ => untar_loop dst rest fs
        | inl _ =>
            match os_MkdirAll target fs with
            | inl err => (Some err, fs)
            | inr fs => untar_loop dst rest fs
            end
        end
      else if Ascii.eqb (tar_Typeflag header) tar_TypeReg then
        match os_MkdirAll (GoPath.Dir target) fs with
        | inl err => (Some err, fs)
        | inr fs =>
            match os_Create target fs with
            | inl err => (Some err, fs)
            | inr fs =>
                let fs := write_file target content fs in
                match read_err with
                | Some err => (Some (external_error err), fs)
                | None => untar_loop dst rest fs
                end
            end
        end
      else untar_loop dst rest fs
  end.

Definition untar (dst : string) (r : string) (fs : FS) : option error * FS :=
  match gzip_tar w r with
  | inl err => (Some (external_error err), fs)
  | inr stream => untar_loop dst stream fs
  end.

(** The major-version element of the module path. *)
Definition path_major (version : Version.t) : string :=
  let major := semver.Major (Version.Version version) in
  if String.eqb major "v1" then "" else major.

(** The [module.Version] handed to [zip.CreateFromDir]. *)
Definition module_identity (version : Version.t) : module_Version :=
  {| module_Path :=
       GoPath.Join [ModPathBase; EscapePackage (Version.Name version);
                    path_major version];
     module_Version_ := Version.Version version |}.

(** The result is the open file, by its name, and the error; both can be
    set. *)
Definition repackTarballAsZip (tarFilename : string) (version : Version.t)
    (fs : FS) : (option string * option error) * FS :=
  let tarDir :=
    GoPath.Join [GoPath.Dir tarFilename;
                 Version.Name version +:+ "-" +:+ Version.Version version
                 +:+ "-" +:+ Dist.ShaSum (Version.Dist version)] in
  match os_MkdirAll tarDir fs with
  | inl err => ((None, Some err), fs)
  | inr fs =>
      match os_Open tarFilename fs with
      | inl err => ((None, Some err), fs)
      | inr tf =>
          match untar tarDir tf fs with
          | (Some err, fs) => ((None, Some (error_untar err)), fs)
          | (None, fs) =>
              let zipFilename := tarFilename +:+ ".zip" in
              match os_Create zipFilename fs with
              | inl err => ((None, Some err), fs)
              | inr fs =>
                  let '(written, err) :=
                    zip_CreateFromDir w (module_identity version) fs tarDir in
                  ((Some zipFilename, external_error <$> err),
                   write_file zipFilename written fs)
              end
          end
      end
  end.

Definition CreateZipFromVersion (last : Version.t) (fs : FS)
    : (option string * option error) * FS :=
  match ioutil_TempDir_name w fs with
  | inl err => ((None, Some (external_error err)), fs)
  | inr tempDir =>
      let fs := <[tempDir := Dir]> fs in
      let tarFilename :=
        GoPath.Join [tempDir; GoStrings.ReplaceAll (Version.Name last) "/" "_"] in
      match downloadTarball (Version.Dist last) tarFilename fs with
      | (Some err, fs) => ((None, Some (error_download err)), fs)
      | (None, fs) => repackTarballAsZip tarFilename last fs
      end
  end.

End Archive.

(** ** The [regexp] package, for the route patterns

    The four patterns are anchored at both ends and made of literal bytes,
    the dot, and capture groups holding [.*].  A dot matches any byte but
    the newline; a star is greedy, and of the ways to match the first in
    the order of a backtracking search is taken. *)

Module regexp.

Inductive item : Type :=
| lit (c : ascii)
| dot
| group_dot_star.

Fixpoint lits (s : string) : list item :=
  match s with
  | EmptyString => []
  | String c s' => lit c :: lits s'
  end.

Definition newline : ascii := "010".

(** The captures of the match of [^p$] against all of [s]. *)
Fixpoint captures (p : list item) (s : string) : option (list string) :=
  match p with
  | [] => match s with EmptyString => Some [] | _ => None end
  | lit c :: p' =>
      match s with
      | String d s' => if Ascii.eqb c d then captures p' s' else None
      | EmptyString => None
      end
  | dot :: p' =>
      match s with
      | String d s' => if Ascii.eqb d newline then None else captures p' s'
      | EmptyString => None
      end
  | group_dot_star :: p' =>
      (fix star (s : string) : option (list string) :=
         let stop :=
           match captures p' s with
           | Some caps => Some (EmptyString :: caps)
           | None => None
           end in
         match s with
         | EmptyString => stop
         | String d s' =>
             if Ascii.eqb d newline then stop
             else
               match star s' with
               | Some (g :: caps) => Some (String d g :: caps)
               | _ => stop
               end
         end) s
  end.

(** [re.FindStringSubmatch(s)]: the whole match, then the groups. *)
Definition FindStringSubmatch (p : list item) (s : string)
    : option (list string) :=
  match captures p s with
  | Some caps => Some (s :: caps)
  | None => None
  end.

End regexp.

(** ** [npmgop/server.go] *)

Definition npmjsPrefix : string := ModPathBase +:+ "/".

(** [^/(?P<module>ANY)/@v/list$], where [ANY] stands for the dot and the
    star of the source pattern. *)
Definition apiList : list regexp.item :=
  regexp.lits "/" ++ [regexp.group_dot_star] ++ regexp.lits "/@v/list".

(** [^/(?P<module>ANY)/@v/(?P<version>ANY).info$]; the dot before the suffix
    is not escaped. *)
Definition apiInfo : list regexp.item :=
  regexp.lits "/" ++ [regexp.group_dot_star] ++ regexp.lits "/@v/"
  ++ [regexp.group_dot_star; regexp.dot] ++ regexp.lits "info".

(** [^/(?P<module>ANY)/@v/(?P<version>ANY).mod$]; the dot before the suffix
    is not escaped. *)
Definition apiMod : list regexp.item :=
  regexp.lits "/" ++ [regexp.group_dot_star] ++ regexp.lits "/@v/"
  ++ [regexp.group_dot_star; regexp.dot] ++ regexp.lits "mod".

(** [^/(?P<module>ANY)/@v/(?P<version>ANY).zip$]; the dot before the suffix
    is not escaped. *)
Definition apiZip : list regexp.item :=
  regexp.lits "/" ++ [regexp.group_dot_star] ++ regexp.lits "/@v/"
  ++ [regexp.group_dot_star; regexp.dot] ++ regexp.lits "zip".

(** The shape of the three patterns that take a version. *)
Definition versioned_pattern (suffix : string) : list regexp.item :=
  regexp.lits "/" ++ [regexp.group_dot_star] ++ regexp.lits "/@v/"
  ++ [regexp.group_dot_star; regexp.dot] ++ regexp.lits suffix.

Record moduleContext := {
  NpmPackage_ : string;
  Version_ : string;
  PathMajorVersion : string;
}.

(** What a handler writes to the [http.ResponseWriter]. *)
Inductive reply : Type :=
| StatusMethodNotAllowed
| StatusNotFound
| StatusInternalServerError (err : error)
| Written (body : string)
| Encoded_versionInfo (version : string)
| ServedContent (name content : string)
| Panic.

Definition nl : string := String "010" "".
Definition tab : string := String "009" "".

Section Server.

Variable sort_Slice : forall A : Type, (A -> A -> bool) -> list A -> list A.
Variable w : World.

Definition fail (what : string) (err : error) : reply :=
  StatusInternalServerError (error_fail what err).

Definition Info (mctx : moduleContext) (fs : FS) : reply * FS :=
  match FetchPackageVersion sort_Slice w (NpmPackage_ mctx) (Version_ mctx) with
  | (_, Some err) => (fail "failed to fetch package version" err, fs)
  | (npmv, None) => (Encoded_versionInfo (Version.Version npmv), fs)
  end.

Definition List (mctx : moduleContext) (fs : FS) : reply * FS :=
  match FetchPackage sort_Slice w (NpmPackage_ mctx) with
  | (_, Some err) => (fail "failed to fetch package" err, fs)
  | (npmpkg, None) =>
      let versions :=
        fold_left (fun versions v => versions ++ [Version.Version v])
          (NpmPackage.Versions npmpkg) [] in
      (Written (GoStrings.Join versions nl), fs)
  end.

Definition depLine (dep : Dependency.t) : string :=
  tab +:+ "gohugo.io/npmjs/" +:+ EscapePackage (Dependency.Name dep)
  +:+ "/v3 " +:+ "v3.1.1" +:+ nl.

Definition Mod (mctx : moduleContext) (fs : FS) : reply * FS :=
  match FetchPackageVersion sort_Slice w (NpmPackage_ mctx) (Version_ mctx) with
  | (_, Some err) => (fail "failed to fetch package version" err, fs)
  | (npmv, None) =>
      let requires :=
        if (0 <? length (Version.Dependencies npmv))%nat then
          fold_left (fun requires dep => requires +:+ depLine dep)
            (Version.Dependencies npmv) ("require (" +:+ nl)
          +:+ ")" +:+ nl
        else "" in
      (Written
         (nl +:+ nl +:+ "module gohugo.io/npmjs/"
          +:+ GoPath.Join [NpmPackage_ mctx; PathMajorVersion mctx]
          +:+ nl +:+ nl +:+ requires +:+ nl +:+ nl +:+ "go 1.17" +:+ nl
          +:+ tab +:+ nl +:+ tab +:+ nl), fs)
  end.

(** Returns a zip file containing the contents of a specific version of a
    module.  The deferred function runs when the handler returns after
    the [defer] statement. *)
Definition Zip (mctx : moduleContext) (fs : FS) : reply * FS :=
  match FetchPackageVersion sort_Slice w (NpmPackage_ mctx) (Version_ mctx) with
  | (_, Some err) => (fail "failed to fetch package version" err, fs)
  | (npmv, None) =>
      match CreateZipFromVersion w npmv fs with
      | ((_, Some err), fs) => (fail "failed to create module zip" err, fs)
      | ((None, None), fs) => (Panic, fs)
      | ((Some f, None), fs) =>
          let served :=
            match os_Open f fs with
            | inr content => ServedContent f content
            | inl err => StatusInternalServerError err
            end in
          (* defer: f.Close(); os.RemoveAll(filepath.Dir(f.Name())) *)
          (served, os_RemoveAll (GoPath.Dir f) fs)
      end
  end.

Record route := {
  route_id : string;
  route_regexp : list regexp.item;
  route_handler : moduleContext -> FS -> reply * FS;
}.

Definition routes : list route :=
  [ {| route_id := "list"; route_regexp := apiList; route_handler := List |};
    {| route_id := "info"; route_regexp := apiInfo; route_handler := Info |};
    {| route_id := "npmgomodproxy"; route_regexp := apiMod; route_handler := Mod |};
    {| route_id := "zip"; route_regexp := apiZip; route_handler := Zip |} ].

(** The first route whose pattern matches, with the submatches. *)
Fixpoint find_route (rs : list route) (path : string)
    : option (route * list string) :=
  match rs with
  | [] => None
  | r :: rest =>
      match regexp.FindStringSubmatch (route_regexp r) path with
      | Some m => Some (r, m)
      | None => find_route rest path
      end
  end.

(** The body of the loop of [ServeHTTP] for the route that matched. *)
Definition serve_route (r : route) (m : list string) (fs : FS) : reply * FS :=
  let pathVersion := nth 1 m "" in
  let version := if (2 <? length m)%nat then nth 2 m "" else "" in
  match module_EscapePath w pathVersion with
  | inl err => (fail "failed to escape path" (external_error err), fs)
  | inr pathVersion =>
      if String.eqb pathVersion ModPathBase then (StatusNotFound, fs)
      else
        let '(npmPackage, major, _) := module_SplitPathVersion w pathVersion in
        let npmPackage := GoStrings.TrimPrefix npmPackage npmjsPrefix in
        let mctx :=
          {| NpmPackage_ := UnEscapePackage npmPackage;
             PathMajorVersion := major;
             Version_ := version |} in
        route_handler r mctx fs
  end.

(** [r.Method] and [r.URL.Path] are what the handler reads of a request. *)
Definition ServeHTTP (method path : string) (fs : FS) : reply * FS :=
  if String.eqb method "DELETE" then (StatusMethodNotAllowed, fs)
  else if negb (GoStrings.HasPrefix path ("/" +:+ npmjsPrefix))
  then (StatusNotFound, fs)
  else
    match find_route routes path with
    | Some (r, m) => serve_route r m fs
    | None => (StatusNotFound, fs)
    end.

End Server.

(** ** Orders

    A Go comparison function returns a negative number, zero or a positive
    number.  It is a total order when it is antisymmetric, transitive and
    zero on equal arguments only, and a weak order, in which different
    values can tie, without the last. *)

Definition weak_order_on {A : Type} (D : A -> Prop) (cmp : A -> A -> Z) : Prop :=
  (forall x y, D x -> D y -> cmp y x = - cmp x y)
  /\ (forall x y z, D x -> D y -> D z ->
        cmp x y <= 0 -> cmp y z <= 0 -> cmp x z <= 0).

Definition total_order_on {A : Type} (D : A -> Prop) (cmp : A -> A -> Z) : Prop :=
  weak_order_on D cmp /\ (forall x y, D x -> D y -> cmp x y = 0 -> x = y).

(** The [less] that [sort.Slice] needs: irreflexive and transitive, with a
    transitive "not less". *)
Definition strict_weak_order {A : Type} (less : A -> A -> bool) : Prop :=
  (forall a, less a a = false)
  /\ (forall a b c, less a b = true -> less b c = true -> less a c = true)
  /\ (forall a b c, less a b = false -> less b c = false -> less a c = false).

(** What [sort.Slice] does with such a [less]: it rearranges the slice, and
    afterwards no element is less than one before it.  Which of the
    arrangements with that property it leaves is not specified. *)
Definition sort_Slice_contract
    (sort_Slice : forall A : Type, (A -> A -> bool) -> list A -> list A) : Prop :=
  forall (A : Type) (less : A -> A -> bool) (l : list A),
    strict_weak_order less ->
    sort_Slice A less l ≡ₚ l
    /\ StronglySorted (fun a b => less b a = false) (sort_Slice A less l).

(** The strict orders that [semver.compareInt] and the identifier
    comparison of [semver.comparePrerelease] decide: shorter numbers first,
    numeric identifiers before the others. *)
Definition shortlex_lt (x y : string) : bool :=
  (String.length x <? String.length y)%nat
  || ((String.length x =? String.length y)%nat && String.ltb x y).

Definition ident_lt (x y : string) : bool :=
  if negb (Bool.eqb (semver.isNum x) (semver.isNum y)) then semver.isNum x
  else if semver.isNum x then shortlex_lt x y
  else String.ltb x y.

Definition ident_cmp (x y : string) : Z :=
  if String.eqb x y then 0 else semver.compareIdent x y.

(** The loop of [comparePrerelease] drops the first byte of both strings
    unseen: they are to start with the same separator. *)
Definition aligned (x y : string) : Prop :=
  match x, y with
  | String c _, String d _ => c = d
  | _, _ => True
  end.

(** A pre-release as [parse] stores it: empty, or led by a hyphen. *)
Definition prerelease_form (s : string) : Prop :=
  s = "" \/ exists t, s = String "-" t.

(** The comparison of two parsed versions in [semver.Compare]. *)
Definition parsed_cmp (pv pw : semver.parsed) : Z :=
  let c := semver.compareInt (semver.major pv) (semver.major pw) in
  if negb (c =? 0) then c else
  let c := semver.compareInt (semver.minor pv) (semver.minor pw) in
  if negb (c =? 0) then c else
  let c := semver.compareInt (semver.patch pv) (semver.patch pw) in
  if negb (c =? 0) then c else
  semver.comparePrerelease (semver.prerelease pv) (semver.prerelease pw).

(** The order of [Versions_less] on the version strings themselves. *)
Definition version_string_less (s t : string) : bool :=
  let cmp := semver.Compare s t in
  if negb (cmp =? 0) then cmp <? 0 else String.ltb s t.


(** The elements of a slash-separated name, and the names whose elements
    [path.Clean] keeps as they are: none is empty, ".", or "..". *)
Fixpoint split_slash (s : string) : list string :=
  match s with
  | EmptyString => [EmptyString]
  | String c s' =>
      if Ascii.eqb c "/" then EmptyString :: split_slash s'
      else
        match split_slash s' with
        | e :: rest => String c e :: rest
        | [] => [String c EmptyString]
        end
  end.

Definition normal_element (e : string) : bool :=
  negb (String.eqb e "") && negb (GoStrings.Contains e "/")
  && negb (String.eqb e ".") && negb (String.eqb e "..").

Definition well_formed_name (name : string) : bool :=
  forallb normal_element (split_slash name).

(** What the properties of an archive take of [zip.CreateFromDir], of
    [golang.org/x/mod/zip]: it checks the version of the module before it
    writes, and refuses a version string that is no semantic version. *)
Definition zip_refuses_invalid_version (w : World) : Prop :=
  forall (m : module_Version) (staged : gmap string node) (dir : string),
    semver.parse (module_Version_ m) = None ->
    (zip_CreateFromDir w m staged dir).2 <> None.

(** ** Reference runs

    A sort to run the model with, and worlds for its examples: the registry
    entry of the package of the repository's test, a registry that does not
    know the package, and a tarball host that serves other bytes than the
    registry declared. *)

(** The insertion sort of package [sort], which [sort.Slice] runs on a
    short slice: [rsorted] is the sorted part, last element first. *)
Fixpoint insert_back {A : Type} (less : A -> A -> bool) (x : A)
    (rsorted : list A) : list A :=
  match rsorted with
  | [] => [x]
  | y :: rest =>
      if less x y then y :: insert_back less x rest else x :: rsorted
  end.

Definition insertionSort (A : Type) (less : A -> A -> bool) (l : list A)
    : list A :=
  rev (fold_left (fun rsorted x => insert_back less x rsorted) l []).

Definition alpinejs_shasum : string := "966c94b6847f3d6840c5750e0b14caec82214e56".
Definition alpinejs_tarball : string :=
  "https://registry.npmjs.org/alpinejs/-/alpinejs-3.3.3.tgz".

Definition alpinejs_doc : PackageDoc :=
  {| doc_package_name := "alpinejs";
     doc_dist_tags := Some [("latest", "3.3.3")];
     doc_versions :=
       Some [ ("3.3.3",
               {| doc_name := "alpinejs"; doc_version := "3.3.3";
                  doc_dependencies := Some [("@vue/reactivity", "^3.0.2")];
                  doc_dist := Dist.mk alpinejs_shasum alpinejs_tarball |});
              ("3.10.0",
               {| doc_name := "alpinejs"; doc_version := "3.10.0";
                  doc_dependencies := Some [("@vue/reactivity", "~3.1.1")];
                  doc_dist := Dist.mk "1111111111111111111111111111111111111111"
                    "https://registry.npmjs.org/alpinejs/-/alpinejs-3.10.0.tgz" |});
              ("3.9.0",
               {| doc_name := "alpinejs"; doc_version := "3.9.0";
                  doc_dependencies := None;
                  doc_dist := Dist.mk "2222222222222222222222222222222222222222"
                    "https://registry.npmjs.org/alpinejs/-/alpinejs-3.9.0.tgz" |}) ] |}.

(** The registry's answer for a name it does not know is an object with one
    member, "error"; no field of [NpmPackage] takes it. *)
Definition not_found_doc : PackageDoc :=
  {| doc_package_name := ""; doc_dist_tags := None; doc_versions := None |}.

Definition ok_response (body : string) : Response :=
  {| StatusCode := 200; Status := "200 OK"; Body := body; BodyErr := None |}.

Definition not_found_response : Response :=
  {| StatusCode := 404; Status := "404 Not Found";
     Body := "(the not-found object)"; BodyErr := None |}.

(** [module.SplitPathVersion] for the paths the proxy serves (none is under
    gopkg.in): a final element "vN" with N at least 2 and no leading zero
    is split off as the path major. *)
Fixpoint version_tail (rpath : string) : string * string * bool :=
  match rpath with
  | EmptyString => (EmptyString, EmptyString, false)
  | String c rest =>
      if semver.is_digit c || Ascii.eqb c "." then
        let '(ds, rest', dot) := version_tail rest in
        (String c ds, rest', dot || Ascii.eqb c ".")
      else (EmptyString, rpath, false)
  end.

Definition reference_SplitPathVersion (path : string) : string * string * bool :=
  let '(rdigits, rrest, dot) := version_tail (String.rev path) in
  match rdigits, rrest with
  | String _ _, String "v" (String "/" rprefix) =>
      let pathMajor := "/v" +:+ String.rev rdigits in
      if dot || String.prefix "/v0" pathMajor || String.eqb pathMajor "/v1"
      then (path, "", false)
      else (String.rev rprefix, pathMajor, true)
  | _, _ => (path, "", true)
  end.

(** A world is built from what the two hosts answer; bodies are named, not
    spelled out, and [json_document], [sha1_hex] and [gzip_tar] know them
    by name.  The paths of the examples are in lower case, which
    [module.EscapePath] returns as they are. *)
Definition world_of (answer : string -> external + Response) : World :=
  {| http_NewRequest_err := fun _ _ => None;
     http_Do := fun req => answer (URL req);
     json_document := fun body =>
       if String.eqb body "(the alpinejs document)" then inr alpinejs_doc
       else if String.eqb body "(the not-found object)" then inr not_found_doc
       else inl {| origin := "encoding/json"; message := "invalid character" |};
     sha1_hex := fun bytes =>
       if String.eqb bytes "(the alpinejs-3.3.3 tarball)" then alpinejs_shasum
       else "da39a3ee5e6b4b0d3255bfef95601890afd80709";
     gzip_tar := fun bytes =>
       if String.eqb bytes "(the alpinejs-3.3.3 tarball)" then
         inr [ tar_entry {| tar_Name := "package"; tar_Typeflag := tar_TypeDir |}
                 "" None;
               tar_entry {| tar_Name := "package/package.json";
                            tar_Typeflag := tar_TypeReg |}
                 "(package.json)" None;
               tar_entry {| tar_Name := "package/dist/module.esm.js";
                            tar_Typeflag := tar_TypeReg |}
                 "(module.esm.js)" None ]
       else inl {| origin := "compress/gzip"; message := "invalid header" |};
     zip_CreateFromDir := fun m _ _ =>
       ("(zip of " +:+ module_Path m +:+ "@" +:+ module_Version_ m +:+ ")", None);
     ioutil_TempDir_name := fun _ => inr "/tmp/npmgop123";
     module_EscapePath := fun path => inr path;
     module_SplitPathVersion := reference_SplitPathVersion |}.

(** The registry knows alpinejs and the host serves the declared tarball. *)
Definition world_alpinejs : World :=
  world_of (fun url =>
    if String.eqb url "https://registry.npmjs.org/alpinejs"
    then inr (ok_response "(the alpinejs document)")
    else if String.eqb url alpinejs_tarball
    then inr (ok_response "(the alpinejs-3.3.3 tarball)")
    else inr not_found_response).

(** The registry knows no package. *)
Definition world_unknown : World :=
  world_of (fun _ => inr not_found_response).

(** The host serves other bytes than the registry declared. *)
Definition world_tampered : World :=
  world_of (fun url =>
    if String.eqb url "https://registry.npmjs.org/alpinejs"
    then inr (ok_response "(the alpinejs document)")
    else if String.eqb url alpinejs_tarball
    then inr (ok_response "(other bytes)")
    else inr not_found_response).

(** The registry answers with an empty body. *)
Definition world_silent : World :=
  world_of (fun _ => inr (ok_response "")).

(** The registry cannot be reached. *)
Definition world_offline : World :=
  world_of (fun _ =>
    inl {| origin := "net/http"; message := "dial tcp: connection refused" |}).

Definition fs_start : FS := {[ "/" := Dir; "/tmp" := Dir ]}.

Definition alpinejs_request : moduleContext :=
  {| NpmPackage_ := "alpinejs"; Version_ := "v3.3.3"; PathMajorVersion := "" |}.

Definition reactivity_shasum : string := "3333333333333333333333333333333333333333".
Definition reactivity_tarball : string :=
  "https://registry.npmjs.org/@vue/reactivity/-/reactivity-3.2.47.tgz".

(** A version of a scoped package, and a version whose name has a ".."
    element, with the same tarball. *)
Definition reactivity_version : Version.t :=
  Version.mk "@vue/reactivity" "v3.2.47" []
    (Dist.mk reactivity_shasum reactivity_tarball).

Definition dotdot_version : Version.t :=
  Version.mk "../x" "v3.2.47" [] (Dist.mk reactivity_shasum reactivity_tarball).

(** The host serves the tarball of the scoped package, and the zip library
    refuses what is no semantic version. *)
Definition world_reactivity : World :=
  {| http_NewRequest_err := fun _ _ => None;
     http_Do := fun req =>
       if String.eqb (URL req) reactivity_tarball
       then inr (ok_response "(the reactivity-3.2.47 tarball)")
       else inr not_found_response;
     json_document := json_document world_unknown;
     sha1_hex := fun bytes =>
       if String.eqb bytes "(the reactivity-3.2.47 tarball)" then reactivity_shasum
       else "da39a3ee5e6b4b0d3255bfef95601890afd80709";
     gzip_tar := fun bytes =>
       if String.eqb bytes "(the reactivity-3.2.47 tarball)" then
         inr [ tar_entry {| tar_Name := "package/package.json";
                            tar_Typeflag := tar_TypeReg |}
                 "(package.json)" None;
               tar_entry {| tar_Name := "package/dist/reactivity.esm-bundler.js";
                            tar_Typeflag := tar_TypeReg |}
                 "(reactivity.esm-bundler.js)" None ]
       else inl {| origin := "compress/gzip"; message := "invalid header" |};
     zip_CreateFromDir := fun m staged dir =>
       match semver.parse (module_Version_ m) with
       | Some _ => zip_CreateFromDir world_unknown m staged dir
       | None =>
           ("", Some {| origin := "golang.org/x/mod/zip";
                        message := "version is not canonical" |})
       end;
     ioutil_TempDir_name := ioutil_TempDir_name world_unknown;
     module_EscapePath := module_EscapePath world_unknown;
     module_SplitPathVersion := module_SplitPathVersion world_unknown |}.


Definition version_entry (version shasum : string) : Version.t :=
  Version.mk "pkg" version [] (Dist.mk shasum "https://registry.npmjs.org/pkg.tgz").

Definition three_versions : gmap string Version.t :=
  {[ "1.0.0" := version_entry "1.0.0" "aa";
     "2.0.0" := version_entry "2.0.0" "bb";
     "1.5.0" := version_entry "1.5.0" "cc" ]}.

Definition colliding_versions : gmap string Version.t :=
  {[ "1.0.0" := version_entry "1.0.0" "aa";
     "v1.0.0" := version_entry "v1.0.0" "bb" ]}.

(** What [CreateZipFromVersion] and the functions under it do to the file
    system only adds entries or replaces their contents. *)
Definition grows (fs fs' : FS) : Prop :=
  forall path, is_Some (fs !! path) -> is_Some (fs' !! path).

(** ** Notions for the properties of the handlers and the archive steps *)

(** A "dist-tags" object with two tags. *)
Definition two_tags : gmap string string :=
  {[ "latest" := "3.3.3"; "next" := "4.0.0-rc.1" ]}.

(** The world in which every answered request carries the given status
    line, bodies as before. *)
Definition answer_with_status (code : Z) (status : string) (w : World) : World :=
  {| http_NewRequest_err := http_NewRequest_err w;
     http_Do := fun req =>
       match http_Do w req with
       | inl err => inl err
       | inr r => inr {| StatusCode := code; Status := status;
                         Body := Body r; BodyErr := BodyErr r |}
       end;
     json_document := json_document w;
     sha1_hex := sha1_hex w;
     gzip_tar := gzip_tar w;
     zip_CreateFromDir := zip_CreateFromDir w;
     ioutil_TempDir_name := ioutil_TempDir_name w;
     module_EscapePath := module_EscapePath w;
     module_SplitPathVersion := module_SplitPathVersion w |}.

(** The entries that [untar] acts on: directories, regular files, and a
    failure of the reader. *)
Definition is_extracted (next : tar_next) : bool :=
  match next with
  | tar_entry header _ _ =>
      Ascii.eqb (tar_Typeflag header) tar_TypeDir
      || Ascii.eqb (tar_Typeflag header) tar_TypeReg
  | tar_nil_header => false
  | tar_failure _ => true
  end.

(** The last byte of a path. *)
Fixpoint last_byte (s : string) : option ascii :=
  match s with
  | EmptyString => None
  | String c EmptyString => Some c
  | String _ s' => last_byte s'
  end.

(** A pattern without a newline among its literal bytes. *)
Definition newline_free (p : list regexp.item) : bool :=
  forallb (fun i => match i with
                    | regexp.lit c => negb (Ascii.eqb c regexp.newline)
                    | _ => true
                    end) p.

(** The bytes that a match of a pattern needs at least. *)
Fixpoint min_length (p : list regexp.item) : nat :=
  match p with
  | [] => 0
  | regexp.group_dot_star :: p' => min_length p'
  | _ :: p' => S (min_length p')
  end.

(** An absolute path, from its elements. *)
Definition rooted (elems : list string) : string :=
  "/" +:+ GoStrings.Join elems "/".

(** A tar entry name that stays below the directory it is joined to:
    normal elements, with or without a slash at the end. *)
Definition local_name (name : string) : bool :=
  well_formed_name name
  || (GoStrings.HasSuffix name "/"
      && well_formed_name (semver.take_bytes (String.length name - 1) name)).

(** An entry that [untar] passes over, or unpacks under such a name. *)
Definition local_entry (next : tar_next) : bool :=
  match next with
  | tar_entry header _ _ =>
      negb (is_extracted next) || local_name (tar_Name header)
  | _ => true
  end.

(** The directories on the way to [dst] are there. *)
Definition on_the_way (dst : string) (fs : FS) : Prop :=
  forall a, a ∈ ancestors dst -> fs !! a = Some Dir.

(** A path at [dst] or below it. *)
Definition at_or_below (dst path : string) : Prop :=
  path = dst \/ exists r, path = dst +:+ "/" +:+ r.

(** The names that [CreateZipFromVersion] and [repackTarballAsZip] give, in
    the staging directory, to the file that holds the tarball of a version
    and to the directory it is unpacked to. *)
Definition flat_name (version : Version.t) : string :=
  GoStrings.ReplaceAll (Version.Name version) "/" "_".

Definition unpack_name (version : Version.t) : string :=
  Version.Name version +:+ "-" +:+ Version.Version version +:+ "-"
  +:+ Dist.ShaSum (Version.Dist version).

(** The target of a regular-file entry, [None] for the other entries. *)
Definition written_target (dst : string) (next : tar_next) : option string :=
  match next with
  | tar_entry header _ _ =>
      if Ascii.eqb (tar_Typeflag header) tar_TypeReg
      then Some (GoPath.Join [dst; tar_Name header])
      else None
  | _ => None
  end.

(** The host serves a tarball with an entry that names a path above the
    directory it is unpacked to. *)
Definition world_planted : World :=
  {| http_NewRequest_err := http_NewRequest_err world_alpinejs;
     http_Do := http_Do world_alpinejs;
     json_document := json_document world_alpinejs;
     sha1_hex := sha1_hex world_alpinejs;
     gzip_tar := fun _ =>
       inr [ tar_entry {| tar_Name := "package/index.js"; tar_Typeflag := tar_TypeReg |}
               "(index.js)" None;
             tar_entry {| tar_Name := "../../planted"; tar_Typeflag := tar_TypeReg |}
               "(bytes)" None ];
     zip_CreateFromDir := zip_CreateFromDir world_alpinejs;
     ioutil_TempDir_name := ioutil_TempDir_name world_alpinejs;
     module_EscapePath := module_EscapePath world_alpinejs;
     module_SplitPathVersion := module_SplitPathVersion world_alpinejs |}.

(** * Properties *)

(** ** Names and versions *)

Example normalize_bare : normalizeSemver "3.3.3" = "v3.3.3".
Proof. reflexivity. Qed.

Example normalize_marked : normalizeSemver "v3.3.3" = "v3.3.3".
Proof. reflexivity. Qed.

Example escape_scoped : EscapePackage "@vue/reactivity" = "___vue/reactivity".
Proof. reflexivity. Qed.

Example unescape_scoped : UnEscapePackage "___vue/reactivity" = "@vue/reactivity".
Proof. reflexivity. Qed.

Example unescape_greedy : UnEscapePackage "____" = "@_".
Proof. reflexivity. Qed.

Section StringFacts.

Lemma prefix_empty (s : string) : String.prefix "" s = true.
Proof. by destruct s. Qed.

Lemma prefix_cons (a b : ascii) (p s : string) :
  String.prefix (String a p) (String b s) = Ascii.eqb a b && String.prefix p s.
Proof.
  cbn [String.prefix].
  destruct (ascii_dec a b) as [->|Hab].
  - by rewrite Ascii.eqb_refl.
  - apply Ascii.eqb_neq in Hab. by rewrite Hab.
Qed.

Lemma append_cons (a : ascii) (s t : string) :
  String a s +:+ t = String a (s +:+ t).
Proof. done. Qed.

Lemma append_empty (t : string) : "" +:+ t = t.
Proof. done. Qed.

Lemma HasPrefix_app (pre s : string) : GoStrings.HasPrefix (pre +:+ s) pre = true.
Proof.
  unfold GoStrings.HasPrefix. induction pre as [|a pre IH].
  - apply prefix_empty.
  - by rewrite append_cons, prefix_cons, Ascii.eqb_refl.
Qed.

Lemma prefix_split (p s : string) :
  String.prefix p s = true -> exists r, s = p +:+ r.
Proof.
  revert s. induction p as [|a p IH]; intros s H.
  - by exists s.
  - destruct s as [|b s]; [done|]. rewrite prefix_cons in H.
    apply andb_true_iff in H as [Hab H]. apply Ascii.eqb_eq in Hab as <-.
    destruct (IH _ H) as [r ->]. by exists r.
Qed.

Lemma Contains_cons (c : ascii) (s sub : string) :
  GoStrings.Contains (String c s) sub =
  String.prefix sub (String c s) || GoStrings.Contains s sub.
Proof. done. Qed.

End StringFacts.

(** C6: [normalizeSemver] adds the "v" marker when it is absent, returns a
    string that already carries it unchanged, and is idempotent. *)
Theorem normalizeSemver_idempotent (x : string) :
  normalizeSemver (normalizeSemver x) = normalizeSemver x
  /\ normalizeSemver x = (if GoStrings.HasPrefix x "v" then x else "v" +:+ x)
  /\ GoStrings.HasPrefix (normalizeSemver x) "v" = true.
Proof.
  assert (Hmark : GoStrings.HasPrefix (normalizeSemver x) "v" = true).
  { unfold normalizeSemver.
    destruct (GoStrings.HasPrefix x "v") eqn:Hx; simpl; [done|].
    apply (HasPrefix_app "v" x). }
  split; [|split; [|done]].
  - unfold normalizeSemver at 1. by rewrite Hmark.
  - unfold normalizeSemver. by destruct (GoStrings.HasPrefix x "v").
Qed.

Section EscapeRoundTrip.

Local Abbreviation E := EscapePackage.
Local Abbreviation U := UnEscapePackage.
Local Abbreviation has := GoStrings.Contains.

Local Ltac chars :=
  repeat match goal with
  | |- context [Ascii.eqb ?a ?b] =>
      first [ is_var a | is_var b ];
      destruct (Ascii.eqb_spec a b); subst
  | H : context [Ascii.eqb ?a ?b] |- _ =>
      first [ is_var a | is_var b ];
      destruct (Ascii.eqb_spec a b); subst
  end.

Lemma Escape_cons (c : ascii) (s : string) :
  E (String c s) =
  if Ascii.eqb c "@" then "___" +:+ E s else String c (E s).
Proof.
  unfold E, GoStrings.ReplaceAll. cbn [GoStrings.ReplaceAll_from].
  rewrite prefix_cons, prefix_empty, andb_true_r, Ascii.eqb_sym.
  by destruct (Ascii.eqb c "@").
Qed.

Lemma UnEscape_marker (s : string) : U ("___" +:+ s) = String "@" (U s).
Proof.
  unfold U, GoStrings.ReplaceAll. rewrite !append_cons, append_empty.
  cbn [GoStrings.ReplaceAll_from]. rewrite !prefix_cons, prefix_empty.
  cbn [Ascii.eqb Bool.eqb andb String.length Nat.sub]. done.
Qed.

Lemma UnEscape_other (c : ascii) (s : string) :
  String.prefix "___" (String c s) = false -> U (String c s) = String c (U s).
Proof.
  intros H. unfold U, GoStrings.ReplaceAll.
  cbn [GoStrings.ReplaceAll_from]. by rewrite H.
Qed.

Lemma safe_cons (c : ascii) (s : string) :
  roundtrip_safe (String c s) = true <->
  String.prefix "___" (String c s) = false
  /\ String.prefix "_@" (String c s) = false
  /\ roundtrip_safe s = true.
Proof.
  unfold roundtrip_safe. rewrite !Contains_cons.
  destruct (String.prefix "___" (String c s)),
    (String.prefix "_@" (String c s)), (has s "___"), (has s "_@");
    simpl; intuition congruence.
Qed.

(** Escaping a safe name that starts with an underscore does not complete
    a run of three underscores at its head. *)
Lemma Escape_head_underscore (s : string) :
  roundtrip_safe (String "_" s) = true ->
  String.prefix "___" (String "_" (E s)) = false.
Proof.
  intros H. apply safe_cons in H as (H3 & H2 & Hs).
  rewrite prefix_cons in H3, H2 |- *. rewrite Ascii.eqb_refl in *.
  rewrite andb_true_l in *.
  destruct s as [|d s]; [done|].
  rewrite prefix_cons in H3, H2. rewrite Escape_cons.
  rewrite prefix_empty, andb_true_r, Ascii.eqb_sym in H2. rewrite H2.
  rewrite prefix_cons.
  destruct (Ascii.eqb_spec "_" d) as [<-|]; [|done].
  rewrite andb_true_l in H3 |- *.
  apply safe_cons in Hs as (_ & H2' & _).
  rewrite prefix_cons, Ascii.eqb_refl, andb_true_l in H2'.
  destruct s as [|e s]; [done|].
  rewrite prefix_cons, prefix_empty, andb_true_r in H3.
  rewrite prefix_cons, prefix_empty, andb_true_r, Ascii.eqb_sym in H2'.
  rewrite Escape_cons, H2', prefix_cons, H3. done.
Qed.

Lemma roundtrip_of_safe (x : string) :
  roundtrip_safe x = true -> U (E x) = x.
Proof.
  induction x as [|c x IH]; intros H; [done|].
  pose proof H as Hc. apply safe_cons in Hc as (_ & _ & Hx).
  specialize (IH Hx). rewrite Escape_cons.
  destruct (Ascii.eqb_spec c "@") as [->|Ha].
  - by rewrite UnEscape_marker, IH.
  - rewrite UnEscape_other, IH; [done|].
    destruct (Ascii.eqb_spec c "_") as [->|Hu].
    + by apply Escape_head_underscore.
    + rewrite prefix_cons. rewrite Ascii.eqb_sym.
      destruct (Ascii.eqb_spec c "_"); done.
Qed.

Lemma Escape_no_marker (x : string) : has (E x) "@" = false.
Proof.
  induction x as [|c x IH]; [done|].
  rewrite Escape_cons. destruct (Ascii.eqb_spec c "@") as [->|Hc].
  - rewrite !append_cons, append_empty, !Contains_cons, !prefix_cons, IH. done.
  - rewrite Contains_cons, IH, prefix_cons, Ascii.eqb_sym.
    destruct (Ascii.eqb_spec c "@"); done.
Qed.

Lemma UnEscape_head_marker (y : string) :
  has y "@" = false -> String.prefix "@" (U y) = true ->
  String.prefix "___" y = true.
Proof.
  intros Hy H. destruct y as [|c y]; [done|].
  destruct (String.prefix "___" (String c y)) eqn:Hp; [done|].
  rewrite UnEscape_other in H by done.
  rewrite Contains_cons in Hy. apply orb_false_iff in Hy as [Hy _].
  rewrite prefix_cons in Hy, H. rewrite prefix_empty in *. congruence.
Qed.

Lemma UnEscape_head_underscore (y : string) :
  String.prefix "_" (U y) = true ->
  exists y', y = String "_" y' /\ U y = String "_" (U y')
             /\ String.prefix "__" y' = false.
Proof.
  intros H. destruct y as [|c y]; [done|].
  destruct (String.prefix "___" (String c y)) eqn:Hp.
  - apply prefix_split in Hp as [r Hr]. rewrite Hr, UnEscape_marker in H. done.
  - rewrite UnEscape_other in H |- * by done.
    rewrite prefix_cons in H. apply andb_true_iff in H as [Hc _].
    apply Ascii.eqb_eq in Hc as <-.
    rewrite prefix_cons, Ascii.eqb_refl in Hp. by exists y.
Qed.

Lemma UnEscape_safe_fuel (n : nat) (y : string) :
  (String.length y <= n)%nat -> has y "@" = false -> roundtrip_safe (U y) = true.
Proof.
  revert y. induction n as [|n IH]; intros y Hn Hy.
  { destruct y; [done|simpl in Hn; lia]. }
  destruct y as [|c y]; [done|].
  destruct (String.prefix "___" (String c y)) eqn:Hp.
  - pose proof Hp as Hq. apply prefix_split in Hq as [r Hr].
    rewrite Hr, UnEscape_marker. apply safe_cons. repeat split; try done.
    apply IH.
    + rewrite Hr, !append_cons, append_empty in Hn. cbn in Hn. lia.
    + rewrite Hr, !append_cons, append_empty, !Contains_cons in Hy.
      repeat (apply orb_false_iff in Hy as [_ Hy]). done.
  - rewrite UnEscape_other by done.
    pose proof Hy as Hy'. rewrite Contains_cons in Hy'.
    apply orb_false_iff in Hy' as [_ Hy'].
    apply safe_cons. split; [|split].
    + rewrite prefix_cons. destruct (Ascii.eqb_spec "_" c) as [<-|]; [|done].
      rewrite andb_true_l.
      destruct (String.prefix "__" (U y)) eqn:H2; [|done]. exfalso.
      destruct (UnEscape_head_underscore y) as (y1 & -> & E1 & _).
      { apply prefix_split in H2 as [r ->]. done. }
      rewrite E1, prefix_cons, Ascii.eqb_refl, andb_true_l in H2.
      destruct (UnEscape_head_underscore y1 H2) as (y2 & -> & _ & _).
      by rewrite !prefix_cons, prefix_empty in Hp.
    + rewrite prefix_cons. destruct (Ascii.eqb_spec "_" c) as [<-|]; [|done].
      rewrite andb_true_l.
      destruct (String.prefix "@" (U y)) eqn:H1; [|done]. exfalso.
      apply UnEscape_head_marker in H1; [|done].
      apply prefix_split in H1 as [r ->]. done.
    + apply IH; [simpl in Hn; lia|done].
Qed.

Lemma safe_of_roundtrip (x : string) : U (E x) = x -> roundtrip_safe x = true.
Proof.
  intros H. rewrite <- H.
  apply (UnEscape_safe_fuel (String.length (E x))); [lia|apply Escape_no_marker].
Qed.

End EscapeRoundTrip.

(** C3, as amended: the round trip through [EscapePackage] and
    [UnEscapePackage] returns the name exactly when the name has no run of
    three underscores and no underscore directly before an "@". *)
Theorem EscapePackage_roundtrip_iff (x : string) :
  UnEscapePackage (EscapePackage x) = x <-> roundtrip_safe x = true.
Proof.
  split; [apply safe_of_roundtrip | apply roundtrip_of_safe].
Qed.

(** On the names that survive the round trip escaping is injective, so the
    pair is a bijection between them and their escaped forms. *)
Lemma EscapePackage_inj_safe (x y : string) :
  roundtrip_safe x = true -> roundtrip_safe y = true ->
  EscapePackage x = EscapePackage y -> x = y.
Proof.
  intros Hx Hy Heq.
  rewrite <- (roundtrip_of_safe x Hx), <- (roundtrip_of_safe y Hy).
  by rewrite Heq.
Qed.

(** C3, as stated, fails: a scoped name with three consecutive underscores
    does not come back, and two different names share one escaped form. *)
Lemma EscapePackage_roundtrip_counterexample :
  UnEscapePackage (EscapePackage "@scope/some___pkg") <> "@scope/some___pkg"
  /\ EscapePackage "@a/b___c" = EscapePackage "@a/b@c".
Proof. split; [by vm_compute | reflexivity]. Qed.

Example roundtrip_scoped :
  UnEscapePackage (EscapePackage "@vue/reactivity") = "@vue/reactivity".
Proof. by apply roundtrip_of_safe. Qed.

(** ** Semantic versions *)

Example parse_full :
  semver.parse "v1.2.3-rc.1+build.5" =
  Some {| semver.major := "1"; semver.minor := "2"; semver.patch := "3";
          semver.short := ""; semver.prerelease := "-rc.1";
          semver.build := "+build.5" |}.
Proof. reflexivity. Qed.

Example parse_leading_zero : semver.parse "v01.2.3" = None.
Proof. reflexivity. Qed.

Example parse_bad_prerelease : semver.parse "v1.2.3-01" = None.
Proof. reflexivity. Qed.

Example parse_four_parts : semver.parse "v1.2.3.4" = None.
Proof. reflexivity. Qed.

Example Compare_numeric : semver.Compare "v3.10.0" "v3.9.0" = 1.
Proof. reflexivity. Qed.

Example Compare_prerelease : semver.Compare "v1.0.0-rc.1" "v1.0.0" = -1.
Proof. reflexivity. Qed.

Example Compare_prerelease_ids :
  semver.Compare "v1.0.0-alpha.2" "v1.0.0-alpha.10" = -1
  /\ semver.Compare "v1.0.0-alpha.beta" "v1.0.0-alpha.1" = 1
  /\ semver.Compare "v1.0.0-alpha" "v1.0.0-alpha.1" = -1.
Proof. done. Qed.

Example Compare_build_ignored : semver.Compare "v1.0.0+a" "v1.0.0+b" = 0.
Proof. reflexivity. Qed.

Example Compare_invalid : semver.Compare "vnext" "v0.0.1" = -1.
Proof. reflexivity. Qed.

Example Major_examples :
  semver.Major "v3.3.3" = "v3" /\ semver.Major "v12.0.1-rc" = "v12"
  /\ semver.Major "v1" = "v1" /\ semver.Major "vnext" = "".
Proof. done. Qed.

(** ** Paths *)

Example Clean_examples :
  GoPath.Clean "a/b/../c" = "a/c" /\ GoPath.Clean "a//b/./c/" = "a/b/c"
  /\ GoPath.Clean "../../a" = "../../a" /\ GoPath.Clean "/../a" = "/a"
  /\ GoPath.Clean "a/.." = "." /\ GoPath.Clean "/" = "/"
  /\ GoPath.Clean "a/b/../../../c" = "../c" /\ GoPath.Clean "..a/.b" = "..a/.b"
  /\ GoPath.Clean "/a/b/../.." = "/" /\ GoPath.Clean "a/../../b" = "../b".
Proof. repeat split; reflexivity. Qed.

Example Join_examples :
  GoPath.Join ["gohugo.io/npmjs"; "alpinejs"; "v3"] = "gohugo.io/npmjs/alpinejs/v3"
  /\ GoPath.Join ["gohugo.io/npmjs"; "___vue/reactivity"; ""] = "gohugo.io/npmjs/___vue/reactivity"
  /\ GoPath.Join [""; "a"; ""; "b"] = "a/b"
  /\ GoPath.Join ["gohugo.io/npmjs"; ".."; "v3"] = "gohugo.io/v3".
Proof. repeat split; reflexivity. Qed.

Example Dir_examples :
  GoPath.Dir "/tmp/npmgop123/alpinejs.zip" = "/tmp/npmgop123"
  /\ GoPath.Dir "/tmp/npmgop123" = "/tmp" /\ GoPath.Dir "file" = "."
  /\ GoPath.Dir "/file" = "/".
Proof. repeat split; reflexivity. Qed.

(** ** Routing *)

Example route_info_match :
  regexp.FindStringSubmatch apiInfo "/gohugo.io/npmjs/alpinejs/@v/v3.3.3.info" =
  Some ["/gohugo.io/npmjs/alpinejs/@v/v3.3.3.info"; "gohugo.io/npmjs/alpinejs"; "v3.3.3"].
Proof. reflexivity. Qed.

Example route_list_match :
  regexp.FindStringSubmatch apiList "/gohugo.io/npmjs/alpinejs/@v/list" =
  Some ["/gohugo.io/npmjs/alpinejs/@v/list"; "gohugo.io/npmjs/alpinejs"].
Proof. reflexivity. Qed.

Example route_greedy_module :
  regexp.FindStringSubmatch apiZip "/a/@v/b/@v/c.zip" =
  Some ["/a/@v/b/@v/c.zip"; "a/@v/b"; "c"].
Proof. reflexivity. Qed.

Example route_no_match :
  regexp.FindStringSubmatch apiInfo "/gohugo.io/npmjs/alpinejs/@v/list" = None.
Proof. reflexivity. Qed.

(** ** The registry client *)

Example FetchPackage_alpinejs :
  FetchPackage insertionSort world_alpinejs "alpinejs" =
  (NpmPackage.mk "alpinejs" (DistTags.mk "v3.3.3")
     [ Version.mk "alpinejs" "v3.3.3"
         [Dependency.mk "@vue/reactivity" "^3.0.2"]
         (Dist.mk alpinejs_shasum alpinejs_tarball);
       Version.mk "alpinejs" "v3.9.0" []
         (Dist.mk "2222222222222222222222222222222222222222"
            "https://registry.npmjs.org/alpinejs/-/alpinejs-3.9.0.tgz");
       Version.mk "alpinejs" "v3.10.0"
         [Dependency.mk "@vue/reactivity" "~3.1.1"]
         (Dist.mk "1111111111111111111111111111111111111111"
            "https://registry.npmjs.org/alpinejs/-/alpinejs-3.10.0.tgz") ],
   None).
Proof. reflexivity. Qed.

Example List_alpinejs :
  List insertionSort world_alpinejs alpinejs_request fs_start =
  (Written ("v3.3.3" +:+ nl +:+ "v3.9.0" +:+ nl +:+ "v3.10.0"), fs_start).
Proof. reflexivity. Qed.

Example FetchPackage_unknown :
  FetchPackage insertionSort world_unknown "no-such-package" =
  (NpmPackage.zero, None).
Proof. reflexivity. Qed.

Section RegistryFacts.

Variable sort_Slice : forall A : Type, (A -> A -> bool) -> list A -> list A.
Variable w : World.

Lemma last_cons_default {A : Type} (l : list A) (x d : A) :
  List.last (x :: l) d = List.last l x.
Proof.
  revert x d. induction l as [|y l IH]; intros x d; [done|].
  change (List.last (x :: y :: l) d) with (List.last (y :: l) d).
  by rewrite !IH.
Qed.

Lemma ByVersion_loop_find (ver : Version.t) (vs : Versions) (v : string) :
  ByVersion_loop ver vs v =
  match find (fun x => String.eqb (Version.Version x) v) vs with
  | Some x => (x, true)
  | None => (List.last vs ver, false)
  end.
Proof.
  revert ver. induction vs as [|x vs IH]; intros ver; [done|].
  cbn [ByVersion_loop find].
  destruct (String.eqb (Version.Version x) v); [done|].
  rewrite IH. destruct (find _ vs); [done|]. by rewrite last_cons_default.
Qed.

Lemma decode_Version_no_error (d : VersionDoc) :
  snd (decode_Version sort_Slice d) = None.
Proof. unfold decode_Version. by destruct (doc_dependencies d). Qed.

Lemma decode_Version_map_ok (m : GoMap VersionDoc) :
  decode_Version_map sort_Slice m =
  inr (map (fun kd => (kd.1, (decode_Version sort_Slice kd.2).1)) m).
Proof.
  induction m as [|[k d] m IH]; [done|].
  cbn [decode_Version_map map fst snd].
  pose proof (decode_Version_no_error d) as Hd.
  destruct (decode_Version sort_Slice d) as [v err]. simpl in Hd. subst err.
  by rewrite IH.
Qed.

Lemma decode_NpmPackage_no_error (npmp : NpmPackage.t) (d : PackageDoc) :
  snd (decode_NpmPackage sort_Slice npmp d) = None.
Proof.
  unfold decode_NpmPackage.
  destruct (doc_dist_tags d); cbn; destruct (doc_versions d); cbn;
    by rewrite ?decode_Version_map_ok.
Qed.

(** The errors of [FetchPackage] are those of the libraries under it. *)
Lemma FetchPackage_error_external (s : string) (err : error) :
  snd (FetchPackage sort_Slice w s) = Some err ->
  exists e, err = external_error e.
Proof.
  unfold FetchPackage.
  destruct (http_NewRequest_err w _ _) as [e|]; cbn.
  { intros [= <-]. by exists e. }
  destruct (http_Do w _) as [e|r]; cbn.
  { intros [= <-]. by exists e. }
  unfold Decoder_Decode.
  destruct (Body r) as [|c body] eqn:Hb.
  - destruct (BodyErr r) as [e|]; cbn; [|done]. intros [= <-]. by exists e.
  - destruct (json_document w _) as [e|d]; cbn.
    { intros [= <-]. by exists e. }
    pose proof (decode_NpmPackage_no_error NpmPackage.zero d) as Hd.
    destruct (decode_NpmPackage sort_Slice NpmPackage.zero d) as [npmp e].
    simpl in Hd. by subst e.
Qed.

End RegistryFacts.

(** C9: when the registry answers with an empty body the decoder reports
    [io.EOF], and [FetchPackage] turns it into success with the zero-value
    package (no name, no versions, no latest tag). *)
Theorem FetchPackage_empty_body
    (sort_Slice : forall A : Type, (A -> A -> bool) -> list A -> list A)
    (w : World) (s : string) (r : Response) :
  http_NewRequest_err w "GET" ("https://registry.npmjs.org/" +:+ s) = None ->
  http_Do w {| Method := "GET"; URL := "https://registry.npmjs.org/" +:+ s;
               Header := [("Accept", "application/vnd.npm.install-v1+json")] |}
    = inr r ->
  Body r = "" -> BodyErr r = None ->
  Decoder_Decode sort_Slice w r NpmPackage.zero = (NpmPackage.zero, Some io_EOF)
  /\ FetchPackage sort_Slice w s = (NpmPackage.zero, None)
  /\ NpmPackage.zero = NpmPackage.mk "" (DistTags.mk "") [].
Proof.
  intros Hreq Hdo Hbody Herr.
  assert (Hdec : Decoder_Decode sort_Slice w r NpmPackage.zero
                 = (NpmPackage.zero, Some io_EOF)).
  { unfold Decoder_Decode. by rewrite Hbody, Herr. }
  split; [done|]. split; [|done].
  unfold FetchPackage. by rewrite Hreq, Hdo, Hdec.
Qed.

Lemma FetchPackage_empty_body_witness :
  Decoder_Decode insertionSort world_silent (ok_response "") NpmPackage.zero
  = (NpmPackage.zero, Some io_EOF)
  /\ FetchPackage insertionSort world_silent "alpinejs" = (NpmPackage.zero, None)
  /\ NpmPackage.zero = NpmPackage.mk "" (DistTags.mk "") [].
Proof.
  apply (FetchPackage_empty_body insertionSort world_silent "alpinejs"
           (ok_response "")); reflexivity.
Defined.

(** C5, as amended: [FetchPackageVersion] passes on the error of the fetch
    unchanged, an error of the libraries; after a fetch without error it
    returns the first entry whose normalized version string equals the
    requested one byte for byte, and without such an entry the error
    "version ... not found for package ...", which no fetch error equals. *)
Theorem FetchPackageVersion_lookup
    (sort_Slice : forall A : Type, (A -> A -> bool) -> list A -> list A)
    (w : World) (pack version : string) :
  match FetchPackage sort_Slice w pack with
  | (_, Some err) =>
      FetchPackageVersion sort_Slice w pack version = (Version.zero, Some err)
      /\ (exists e, err = external_error e)
      /\ err <> error_version_not_found version pack
  | (npmpkg, None) =>
      match find (fun x => String.eqb (Version.Version x) version)
              (NpmPackage.Versions npmpkg) with
      | Some npmv =>
          FetchPackageVersion sort_Slice w pack version = (npmv, None)
          /\ Version.Version npmv = version
      | None =>
          FetchPackageVersion sort_Slice w pack version =
          (List.last (NpmPackage.Versions npmpkg) Version.zero,
           Some (error_version_not_found version pack))
      end
  end.
Proof.
  pose proof (FetchPackage_error_external sort_Slice w pack) as Hext.
  unfold FetchPackageVersion.
  destruct (FetchPackage sort_Slice w pack) as [npmpkg [err|]].
  - destruct (Hext err eq_refl) as [e ->]. by eauto.
  - unfold ByVersion. rewrite ByVersion_loop_find.
    destruct (find _ _) as [npmv|] eqn:Hfind; [|done].
    split; [done|]. apply find_some in Hfind as [_ Heq].
    by apply String.eqb_eq.
Qed.

(** C5, as stated, fails: for a name the registry does not know (it
    answers 404 with an error object) the outcome is the very error that a
    missing version of a known package gives. *)
Lemma FetchPackageVersion_unknown_package_counterexample :
  StatusCode not_found_response = 404
  /\ snd (FetchPackageVersion insertionSort world_unknown "alpinejs" "v99.0.0")
     = Some (error_version_not_found "v99.0.0" "alpinejs")
  /\ snd (FetchPackageVersion insertionSort world_alpinejs "alpinejs" "v99.0.0")
     = Some (error_version_not_found "v99.0.0" "alpinejs").
Proof. repeat split; reflexivity. Qed.

Example FetchPackageVersion_offline :
  FetchPackageVersion insertionSort world_offline "alpinejs" "v3.3.3" =
  (Version.zero,
   Some (external_error
           {| origin := "net/http"; message := "dial tcp: connection refused" |})).
Proof. reflexivity. Qed.

Example FetchPackageVersion_found :
  FetchPackageVersion insertionSort world_alpinejs "alpinejs" "v3.3.3" =
  (Version.mk "alpinejs" "v3.3.3" [Dependency.mk "@vue/reactivity" "^3.0.2"]
     (Dist.mk alpinejs_shasum alpinejs_tarball), None).
Proof. reflexivity. Qed.

Example FetchPackageVersion_raw_form_misses :
  snd (FetchPackageVersion insertionSort world_alpinejs "alpinejs" "3.3.3") =
  Some (error_version_not_found "3.3.3" "alpinejs").
Proof. reflexivity. Qed.

(** ** The byte-wise order of strings *)

Section StringOrder.

Lemma ltb_compare (a b : string) : String.ltb a b = true <-> String.compare a b = Lt.
Proof. unfold String.ltb. by destruct (String.compare a b). Qed.

Lemma compare_refl (a : string) : String.compare a a = Eq.
Proof.
  induction a as [|c a IH]; [done|]. cbn [String.compare].
  unfold Ascii.compare. by rewrite N.compare_refl.
Qed.

Lemma ltb_irrefl (a : string) : String.ltb a a = false.
Proof. unfold String.ltb. by rewrite compare_refl. Qed.

Lemma ltb_leb (a b : string) : String.ltb a b = negb (String.leb b a).
Proof.
  unfold String.ltb, String.leb. rewrite (String.compare_antisym a b).
  by destruct (String.compare b a).
Qed.

Lemma leb_trans (a b c : string) :
  String.leb a b = true -> String.leb b c = true -> String.leb a c = true.
Proof.
  intros Hab Hbc. apply Is_true_true.
  apply (transitivity (R := String.le) (y := b)); by apply Is_true_true.
Qed.

Lemma ltb_false_trans (a b c : string) :
  String.ltb a b = false -> String.ltb b c = false -> String.ltb a c = false.
Proof.
  rewrite !ltb_leb, !negb_false_iff. intros Hba Hcb. by apply (leb_trans c b a).
Qed.

Lemma ltb_total (a b : string) :
  String.ltb a b = false -> String.ltb b a = false -> a = b.
Proof.
  rewrite !ltb_leb, !negb_false_iff. intros Hba Hab. by apply String.leb_antisym.
Qed.

Lemma ltb_asym (a b : string) : String.ltb a b = true -> String.ltb b a = false.
Proof.
  intros Hab. destruct (String.ltb b a) eqn:Hba; [|done].
  apply ltb_compare in Hab, Hba.
  rewrite String.compare_antisym, Hba in Hab. done.
Qed.

Lemma ltb_trans (a b c : string) :
  String.ltb a b = true -> String.ltb b c = true -> String.ltb a c = true.
Proof.
  intros Hab Hbc. destruct (String.ltb a c) eqn:Hac; [done|]. exfalso.
  pose proof (ltb_asym _ _ Hab) as Hba. pose proof (ltb_asym _ _ Hbc) as Hcb.
  pose proof (ltb_false_trans _ _ _ Hac Hcb) as Hab'. congruence.
Qed.


End StringOrder.

(** ** Comparison functions *)

Section Comparisons.

Context {A : Type}.

(** The comparison made from a strict total order [lt] on [D]. *)
Lemma total_order_of_lt (D : A -> Prop) (lt : A -> A -> bool) (cmp : A -> A -> Z) :
  (forall x, cmp x x = 0) ->
  (forall x y, x <> y -> cmp x y = if lt x y then -1 else 1) ->
  (forall x, lt x x = false) ->
  (forall x y z, D x -> D y -> D z ->
     lt x y = true -> lt y z = true -> lt x z = true) ->
  (forall x y, D x -> D y -> lt x y = false -> lt y x = false -> x = y) ->
  (forall x y : A, {x = y} + {x <> y}) ->
  total_order_on D cmp.
Proof.
  intros Hrefl Hne Hirr Htrans Htot Hdec.
  assert (Hasym : forall x y, D x -> D y -> lt x y = true -> lt y x = false).
  { intros x y Hx Hy Hxy. destruct (lt y x) eqn:Hyx; [|done].
    by rewrite <- (Hirr x), <- (Htrans x y x Hx Hy Hx Hxy Hyx). }
  split; [split|].
  - intros x y Hx Hy. destruct (Hdec x y) as [->|Hxy]; [rewrite Hrefl; lia|].
    rewrite (Hne x y Hxy), (Hne y x) by congruence.
    destruct (lt x y) eqn:H1.
    + by rewrite (Hasym x y).
    + destruct (lt y x) eqn:H2; [done|]. by destruct Hxy; apply Htot.
  - intros x y z Hx Hy Hz.
    destruct (Hdec x y) as [->|Hxy]; [done|].
    destruct (Hdec y z) as [->|Hyz]; [done|].
    destruct (Hdec x z) as [->|Hxz]; [rewrite Hrefl; lia|].
    rewrite (Hne x y Hxy), (Hne y z Hyz), (Hne x z Hxz).
    destruct (lt x y) eqn:H1; [|lia]. destruct (lt y z) eqn:H2; [|lia].
    by rewrite (Htrans x y z).
  - intros x y Hx Hy. destruct (Hdec x y) as [->|Hxy]; [done|].
    rewrite (Hne x y Hxy). destruct (lt x y); lia.
Qed.

Lemma weak_order_strict (D : A -> Prop) (cmp : A -> A -> Z) (x y z : A) :
  weak_order_on D cmp -> D x -> D y -> D z ->
  (cmp x y < 0 -> cmp y z <= 0 -> cmp x z < 0)
  /\ (cmp x y <= 0 -> cmp y z < 0 -> cmp x z < 0)
  /\ cmp x x = 0.
Proof.
  intros [Hanti Htrans] Hx Hy Hz.
  pose proof (Hanti x y Hx Hy). pose proof (Hanti y z Hy Hz).
  pose proof (Hanti x z Hx Hz). pose proof (Hanti x x Hx Hx).
  pose proof (Htrans x y z Hx Hy Hz). pose proof (Htrans z x y Hz Hx Hy).
  pose proof (Htrans y z x Hy Hz Hx). lia.
Qed.

End Comparisons.

(** A total order on a component first, a weak order for its ties. *)
Lemma weak_order_lex {A B : Type} (f : A -> B) (c1 : B -> B -> Z)
    (D : A -> Prop) (c2 : A -> A -> Z) :
  total_order_on (fun _ => True) c1 -> weak_order_on D c2 ->
  weak_order_on D
    (fun x y => let c := c1 (f x) (f y) in if negb (c =? 0) then c else c2 x y).
Proof.
  intros [Hw1 Heq1] [Hanti2 Htrans2].
  assert (Hrefl : forall b, c1 b b = 0).
  { intros b.
    by destruct (weak_order_strict (fun _ => True) c1 b b b Hw1 I I I) as (_ & _ & ?). }
  pose proof Hw1 as Hw.
  destruct Hw1 as [Hanti1 Htrans1]. split.
  - intros x y Hx Hy. cbv zeta. rewrite (Hanti1 (f x) (f y) I I).
    destruct (Z.eqb_spec (c1 (f x) (f y)) 0) as [->|Hne]; cbn.
    + by apply Hanti2.
    + destruct (Z.eqb_spec (- c1 (f x) (f y)) 0); [lia|done].
  - intros x y z Hx Hy Hz. cbv zeta.
    destruct (weak_order_strict (fun _ => True) c1 (f x) (f y) (f z) Hw I I I)
      as (Hs1 & Hs2 & _).
    destruct (Z.eqb_spec (c1 (f x) (f y)) 0) as [E1|N1]; cbn.
    + apply Heq1 in E1; [|done..]. rewrite E1.
      destruct (Z.eqb_spec (c1 (f y) (f z)) 0) as [E2|N2]; cbn; [|done].
      by apply Htrans2.
    + destruct (Z.eqb_spec (c1 (f y) (f z)) 0) as [E2|N2]; cbn.
      * apply Heq1 in E2; [|done..]. rewrite <- E2.
        destruct (Z.eqb_spec (c1 (f x) (f y)) 0); [done|]. by cbn.
      * intros Ha Hb.
        destruct (Z.eqb_spec (c1 (f x) (f z)) 0); cbn; lia.
Qed.


(** ** [semver.Compare] is a weak order *)

Section SemverOrder.

Lemma shortlex_lt_irrefl (x : string) : shortlex_lt x x = false.
Proof.
  unfold shortlex_lt. rewrite Nat.ltb_irrefl, ltb_irrefl. by rewrite andb_false_r.
Qed.

Lemma shortlex_lt_trans (x y z : string) :
  shortlex_lt x y = true -> shortlex_lt y z = true -> shortlex_lt x z = true.
Proof.
  unfold shortlex_lt.
  destruct (Nat.ltb_spec (String.length x) (String.length y)),
    (Nat.ltb_spec (String.length y) (String.length z)),
    (Nat.ltb_spec (String.length x) (String.length z)),
    (Nat.eqb_spec (String.length x) (String.length y)),
    (Nat.eqb_spec (String.length y) (String.length z)),
    (Nat.eqb_spec (String.length x) (String.length z));
    cbn; try done; try lia.
  apply ltb_trans.
Qed.

Lemma shortlex_lt_total (x y : string) :
  shortlex_lt x y = false -> shortlex_lt y x = false -> x = y.
Proof.
  unfold shortlex_lt.
  destruct (Nat.ltb_spec (String.length x) (String.length y)),
    (Nat.ltb_spec (String.length y) (String.length x)),
    (Nat.eqb_spec (String.length x) (String.length y)),
    (Nat.eqb_spec (String.length y) (String.length x));
    cbn; try done; try lia.
  apply ltb_total.
Qed.

Lemma compareInt_total_order : total_order_on (fun _ => True) semver.compareInt.
Proof.
  apply (total_order_of_lt _ shortlex_lt).
  - intros x. unfold semver.compareInt. by rewrite String.eqb_refl.
  - intros x y Hxy. unfold semver.compareInt, shortlex_lt.
    apply String.eqb_neq in Hxy as ->.
    destruct (Nat.ltb_spec (String.length x) (String.length y)); [done|].
    destruct (Nat.ltb_spec (String.length y) (String.length x)),
      (Nat.eqb_spec (String.length x) (String.length y)); cbn; try done; lia.
  - apply shortlex_lt_irrefl.
  - intros x y z _ _ _. apply shortlex_lt_trans.
  - intros x y _ _. apply shortlex_lt_total.
  - apply String.string_dec.
Qed.

Lemma ident_lt_irrefl (x : string) : ident_lt x x = false.
Proof.
  unfold ident_lt. rewrite eqb_reflx. cbn.
  rewrite shortlex_lt_irrefl, ltb_irrefl. by destruct (semver.isNum x).
Qed.

Lemma ident_lt_trans (x y z : string) :
  ident_lt x y = true -> ident_lt y z = true -> ident_lt x z = true.
Proof.
  unfold ident_lt.
  destruct (semver.isNum x), (semver.isNum y), (semver.isNum z); cbn; try done.
  - apply shortlex_lt_trans.
  - apply ltb_trans.
Qed.

Lemma ident_lt_total (x y : string) :
  ident_lt x y = false -> ident_lt y x = false -> x = y.
Proof.
  unfold ident_lt.
  destruct (semver.isNum x), (semver.isNum y); cbn; try done.
  - apply shortlex_lt_total.
  - apply ltb_total.
Qed.

Lemma compareIdent_ident_lt (x y : string) :
  semver.compareIdent x y = if ident_lt x y then -1 else 1.
Proof.
  unfold semver.compareIdent, ident_lt, shortlex_lt. cbv zeta.
  destruct (semver.isNum x), (semver.isNum y); cbn [Bool.eqb negb andb];
    try done.
  destruct (Nat.ltb_spec (String.length x) (String.length y)); [done|].
  destruct (Nat.ltb_spec (String.length y) (String.length x)),
    (Nat.eqb_spec (String.length x) (String.length y)); cbn; try done; lia.
Qed.

Lemma ident_cmp_total_order : total_order_on (fun _ => True) ident_cmp.
Proof.
  apply (total_order_of_lt _ ident_lt).
  - intros x. unfold ident_cmp. by rewrite String.eqb_refl.
  - intros x y Hxy. unfold ident_cmp. apply String.eqb_neq in Hxy as ->.
    apply compareIdent_ident_lt.
  - apply ident_lt_irrefl.
  - intros x y z _ _ _. apply ident_lt_trans.
  - intros x y _ _. apply ident_lt_total.
  - apply String.string_dec.
Qed.

Lemma nextIdent_app (t : string) :
  t = (semver.nextIdent t).1 +:+ (semver.nextIdent t).2.
Proof.
  induction t as [|c t IH]; [done|]. cbn [semver.nextIdent].
  destruct (Ascii.eqb c "."); [done|].
  destruct (semver.nextIdent t) as [d r]. cbn [fst snd] in *.
  by rewrite append_cons, <- IH.
Qed.

Lemma nextIdent_length (t : string) :
  (String.length (semver.nextIdent t).2 <= String.length t)%nat.
Proof.
  induction t as [|c t IH]; [done|]. cbn [semver.nextIdent].
  destruct (Ascii.eqb c "."); [done|].
  destruct (semver.nextIdent t) as [d r]. cbn [fst snd String.length] in *. lia.
Qed.

Lemma nextIdent_rest (t : string) :
  match (semver.nextIdent t).2 with
  | EmptyString => True
  | String c _ => c = "."%char
  end.
Proof.
  induction t as [|c t IH]; [done|]. cbn [semver.nextIdent].
  destruct (Ascii.eqb_spec c ".") as [->|]; [done|].
  by destruct (semver.nextIdent t) as [d r].
Qed.

Lemma nextIdent_rest_aligned (t u : string) :
  aligned (semver.nextIdent t).2 (semver.nextIdent u).2.
Proof.
  pose proof (nextIdent_rest t) as Ht. pose proof (nextIdent_rest u) as Hu.
  unfold aligned. destruct (semver.nextIdent t).2, (semver.nextIdent u).2;
    try done. congruence.
Qed.

Lemma loop_empty_l (n : nat) (y : string) :
  semver.comparePrerelease_loop n "" y = -1.
Proof. by destruct n. Qed.

Lemma loop_empty_r (n : nat) (c : ascii) (t : string) :
  semver.comparePrerelease_loop n (String c t) "" = 1.
Proof. by destruct n. Qed.

Lemma loop_step (n : nat) (c d : ascii) (tx ty : string) :
  semver.comparePrerelease_loop (S n) (String c tx) (String d ty) =
  if negb (String.eqb (semver.nextIdent tx).1 (semver.nextIdent ty).1)
  then semver.compareIdent (semver.nextIdent tx).1 (semver.nextIdent ty).1
  else semver.comparePrerelease_loop n (semver.nextIdent tx).2 (semver.nextIdent ty).2.
Proof.
  cbn [semver.comparePrerelease_loop String.eqb negb andb GoStrings.drop_bytes].
  by destruct (semver.nextIdent tx), (semver.nextIdent ty).
Qed.

Lemma loop_fuel (n m : nat) (x y : string) :
  (String.length x <= n)%nat -> (String.length x <= m)%nat ->
  semver.comparePrerelease_loop n x y = semver.comparePrerelease_loop m x y.
Proof.
  revert m x y. induction n as [|n IH]; intros m x y Hn Hm.
  { destruct x; [by rewrite !loop_empty_l| cbn in Hn; lia]. }
  destruct x as [|c tx]; [by rewrite !loop_empty_l|].
  destruct y as [|d ty]; [by rewrite !loop_empty_r|].
  destruct m as [|m]; [cbn in Hm; lia|].
  rewrite !loop_step. destruct (negb _); [done|].
  pose proof (nextIdent_length tx). cbn [String.length] in Hn, Hm.
  apply IH; lia.
Qed.

Lemma loop_nonzero (n : nat) (x y : string) :
  semver.comparePrerelease_loop n x y <> 0.
Proof.
  revert x y. induction n as [|n IH]; intros x y.
  { cbn. by destruct (String.eqb x ""). }
  destruct x as [|c tx]; [by rewrite loop_empty_l|].
  destruct y as [|d ty]; [by rewrite loop_empty_r|].
  rewrite loop_step. destruct (negb _); [|apply IH].
  rewrite compareIdent_ident_lt. by destruct (ident_lt _ _).
Qed.

Lemma tail_neq (c : ascii) (tx ty : string) :
  String c tx <> String c ty ->
  (semver.nextIdent tx).1 = (semver.nextIdent ty).1 ->
  (semver.nextIdent tx).2 <> (semver.nextIdent ty).2.
Proof.
  intros Hne Hd Hr. apply Hne. f_equal.
  by rewrite (nextIdent_app tx), (nextIdent_app ty), Hd, Hr.
Qed.

Lemma compareIdent_ident_cmp (x y : string) :
  x <> y -> semver.compareIdent x y = ident_cmp x y.
Proof. intros Hne. unfold ident_cmp. by apply String.eqb_neq in Hne as ->. Qed.

Lemma loop_antisym (n : nat) (x y : string) :
  (String.length x <= n)%nat -> (String.length y <= n)%nat ->
  aligned x y -> x <> y ->
  semver.comparePrerelease_loop n y x = - semver.comparePrerelease_loop n x y.
Proof.
  revert x y. induction n as [|n IH]; intros x y Hx Hy Hal Hne.
  { destruct x, y; cbn in Hx, Hy; try lia. done. }
  destruct x as [|c tx], y as [|d ty]; [done|..].
  - by rewrite loop_empty_l, loop_empty_r.
  - by rewrite loop_empty_l, loop_empty_r.
  - cbn in Hal. subst d. rewrite !loop_step.
    pose proof (nextIdent_length tx). pose proof (nextIdent_length ty).
    cbn [String.length] in Hx, Hy.
    destruct (String.eqb_spec (semver.nextIdent tx).1 (semver.nextIdent ty).1)
      as [Hd|Hd].
    + rewrite <- Hd, String.eqb_refl. cbn [negb].
      apply IH; [lia|lia|apply nextIdent_rest_aligned|by apply (tail_neq c)].
    + rewrite String.eqb_sym.
      destruct (String.eqb_spec (semver.nextIdent tx).1 (semver.nextIdent ty).1);
        [done|]. cbn [negb].
      rewrite !compareIdent_ident_cmp by congruence.
      by apply ident_cmp_total_order.
Qed.

Lemma loop_trans (n : nat) (x y z : string) :
  (String.length x <= n)%nat -> (String.length y <= n)%nat ->
  (String.length z <= n)%nat ->
  aligned x y -> aligned y z -> aligned x z ->
  x <> y -> y <> z -> x <> z ->
  semver.comparePrerelease_loop n x y <= 0 ->
  semver.comparePrerelease_loop n y z <= 0 ->
  semver.comparePrerelease_loop n x z <= 0.
Proof.
  revert x y z. induction n as [|n IH];
    intros x y z Hx Hy Hz Axy Ayz Axz Nxy Nyz Nxz.
  { destruct x, y; cbn in Hx, Hy; try lia; done. }
  destruct x as [|c tx]; [by rewrite !loop_empty_l|].
  destruct y as [|d ty]; [by rewrite loop_empty_r|].
  destruct z as [|e tz]; [by rewrite (loop_empty_r _ d)|].
  cbn in Axy, Ayz. subst d e. rewrite !loop_step.
  pose proof (nextIdent_length tx). pose proof (nextIdent_length ty).
  pose proof (nextIdent_length tz). cbn [String.length] in Hx, Hy, Hz.
  destruct ident_cmp_total_order as [[Hanti Htrans] Heq0].
  set (dx := (semver.nextIdent tx).1) in *.
  set (dy := (semver.nextIdent ty).1) in *.
  set (dz := (semver.nextIdent tz).1) in *.
  destruct (String.eqb_spec dx dy) as [Exy|Dxy];
    destruct (String.eqb_spec dy dz) as [Eyz|Dyz];
    destruct (String.eqb_spec dx dz) as [Exz|Dxz];
    cbn [negb]; try congruence.
  - apply IH; try lia; try apply nextIdent_rest_aligned;
      by apply (tail_neq c).
  - rewrite !compareIdent_ident_cmp by done. intros Hle1 Hle2.
    pose proof (Hanti dx dy I I) as Ha. rewrite <- Exz in Hle2.
    assert (E0 : ident_cmp dx dy = 0) by lia.
    by apply Heq0 in E0.
  - rewrite !compareIdent_ident_cmp by done. by apply Htrans.
Qed.

Lemma comparePrerelease_total_order :
  total_order_on prerelease_form semver.comparePrerelease.
Proof.
  assert (Hloop : forall tx ty,
    String "-" tx <> String "-" ty ->
    semver.comparePrerelease (String "-" tx) (String "-" ty) =
    semver.comparePrerelease_loop
      (Nat.max (String.length (String "-" tx)) (String.length (String "-" ty)))
      (String "-" tx) (String "-" ty)).
  { intros tx ty Hne. unfold semver.comparePrerelease.
    apply String.eqb_neq in Hne as ->. cbn [String.eqb].
    apply loop_fuel; lia. }
  split; [split|].
  - intros x y [->|[tx ->]] [->|[ty ->]]; try done.
    destruct (String.string_dec (String "-" tx) (String "-" ty)) as [E|Hne].
    { rewrite E. unfold semver.comparePrerelease. by rewrite String.eqb_refl. }
    rewrite (Hloop tx ty), (Hloop ty tx) by congruence.
    rewrite (Nat.max_comm (String.length (String "-" ty))).
    apply loop_antisym; [lia|lia|done|done].
  - intros x y z [->|[tx ->]] [->|[ty ->]] [->|[tz ->]]; try done.
    destruct (String.string_dec (String "-" tx) (String "-" ty)) as [E|Nxy].
    { by rewrite E. }
    destruct (String.string_dec (String "-" ty) (String "-" tz)) as [E|Nyz].
    { by rewrite E. }
    destruct (String.string_dec (String "-" tx) (String "-" tz)) as [E|Nxz].
    { rewrite E. unfold semver.comparePrerelease. by rewrite String.eqb_refl. }
    rewrite (Hloop tx ty), (Hloop ty tz), (Hloop tx tz) by done.
    set (n := Nat.max (Nat.max (String.length (String "-" tx))
                                   (String.length (String "-" ty)))
                      (String.length (String "-" tz))).
    rewrite (loop_fuel _ n), (loop_fuel _ n (String "-" ty)),
      (loop_fuel _ n (String "-" tx) (String "-" tz)) by lia.
    apply loop_trans; try done; lia.
  - intros x y _ _. unfold semver.comparePrerelease.
    destruct (String.eqb_spec x y); [done|].
    destruct (String.eqb x ""); [done|]. destruct (String.eqb y ""); [done|].
    intros H. by apply loop_nonzero in H.
Qed.

Lemma parsed_cmp_weak_order :
  weak_order_on (fun p => prerelease_form (semver.prerelease p)) parsed_cmp.
Proof.
  unfold parsed_cmp.
  apply (weak_order_lex semver.major); [apply compareInt_total_order|].
  apply (weak_order_lex semver.minor); [apply compareInt_total_order|].
  apply (weak_order_lex semver.patch); [apply compareInt_total_order|].
  destruct comparePrerelease_total_order as [[Hanti Htrans] _]. split.
  - intros x y Hx Hy. by apply Hanti.
  - intros x y z Hx Hy Hz. by apply Htrans.
Qed.

Lemma parsePrerelease_form (v t rest : string) :
  semver.parsePrerelease v = Some (t, rest) -> prerelease_form t.
Proof.
  unfold semver.parsePrerelease. intros H.
  repeat case_match; simplify_eq. right. by eexists.
Qed.

Lemma parse_suffix_form (maj min pat v : string) (p : semver.parsed) :
  semver.parse_suffix maj min pat v = Some p ->
  prerelease_form (semver.prerelease p) /\ semver.major p = maj.
Proof.
  unfold semver.parse_suffix. intros H.
  repeat case_match; simplify_eq; cbn;
    (split; [|done]);
    first [ by left | by eapply parsePrerelease_form ].
Qed.

Lemma parse_form (v : string) (p : semver.parsed) :
  semver.parse v = Some p -> prerelease_form (semver.prerelease p).
Proof.
  unfold semver.parse. intros H.
  repeat case_match; simplify_eq; cbn;
    first [ by left | by eapply parse_suffix_form ].
Qed.

Lemma Compare_parsed (v w : string) :
  semver.Compare v w =
  match semver.parse v, semver.parse w with
  | None, None => 0
  | None, Some _ => -1
  | Some _, None => 1
  | Some pv, Some pw => parsed_cmp pv pw
  end.
Proof. done. Qed.

(** [semver.Compare] is a weak order on all strings: the strings that do
    not parse tie with one another below the versions. *)
Lemma Compare_weak_order : weak_order_on (fun _ => True) semver.Compare.
Proof.
  destruct parsed_cmp_weak_order as [Hanti Htrans]. split.
  - intros v w _ _. rewrite !Compare_parsed.
    destruct (semver.parse v) as [pv|] eqn:Hv,
      (semver.parse w) as [pw|] eqn:Hw; try done.
    apply Hanti; by eapply parse_form.
  - intros u v w _ _ _. rewrite !Compare_parsed.
    destruct (semver.parse u) as [pu|] eqn:Hu,
      (semver.parse v) as [pv|] eqn:Hv,
      (semver.parse w) as [pw|] eqn:Hw; try done.
    apply Htrans; by eapply parse_form.
Qed.

End SemverOrder.

(** ** Sorting *)

Section SortFacts.

Context {A : Type} (less : A -> A -> bool).
Hypothesis Hless : strict_weak_order less.

Lemma less_asym (a b : A) : less a b = true -> less b a = false.
Proof.
  destruct Hless as (Hirr & Htrans & _). intros Hab.
  destruct (less b a) eqn:Hba; [|done].
  by rewrite <- (Hirr a), <- (Htrans a b a Hab Hba).
Qed.

Lemma insert_back_perm (x : A) (rsorted : list A) :
  insert_back less x rsorted ≡ₚ x :: rsorted.
Proof.
  induction rsorted as [|y rest IH]; [done|]. cbn [insert_back].
  destruct (less x y); [|done]. rewrite IH. apply Permutation_swap.
Qed.

Lemma insert_back_sorted (x : A) (rsorted : list A) :
  StronglySorted (fun a b => less a b = false) rsorted ->
  StronglySorted (fun a b => less a b = false) (insert_back less x rsorted).
Proof.
  destruct Hless as (_ & _ & Hneg).
  induction rsorted as [|y rest IH]; intros Hs.
  { repeat constructor. }
  apply StronglySorted_cons in Hs as [Hy Hrest]. cbn [insert_back].
  destruct (less x y) eqn:Hxy.
  - apply StronglySorted_cons. split; [|by apply IH].
    rewrite insert_back_perm. constructor; [by apply less_asym|done].
  - apply StronglySorted_cons. split; [|by apply StronglySorted_cons].
    constructor; [done|]. eapply Forall_impl; [exact Hy|].
    intros b Hyb. by apply (Hneg x y b).
Qed.

Lemma fold_insert_back (l acc : list A) :
  StronglySorted (fun a b => less a b = false) acc ->
  fold_left (fun rsorted x => insert_back less x rsorted) l acc ≡ₚ l ++ acc
  /\ StronglySorted (fun a b => less a b = false)
       (fold_left (fun rsorted x => insert_back less x rsorted) l acc).
Proof.
  revert acc. induction l as [|x l IH]; intros acc Hacc; [done|].
  cbn [fold_left].
  destruct (IH (insert_back less x acc)) as [Hp Hs];
    [by apply insert_back_sorted|].
  split; [|done]. rewrite Hp, insert_back_perm.
  by rewrite <- Permutation_middle.
Qed.

Lemma StronglySorted_rev (R : A -> A -> Prop) (l : list A) :
  StronglySorted (fun a b => R b a) l -> StronglySorted R (rev l).
Proof.
  induction l as [|x l IH]; intros Hs; [constructor|].
  apply StronglySorted_cons in Hs as [Hx Hl]. cbn [rev].
  apply StronglySorted_app_2; [|by apply IH|repeat constructor].
  intros a b Ha Hb. apply list_elem_of_singleton in Hb as ->.
  rewrite Forall_forall in Hx. apply Hx.
  by apply list_elem_of_In, in_rev, list_elem_of_In.
Qed.

Lemma insertionSort_sorts (l : list A) :
  insertionSort A less l ≡ₚ l
  /\ StronglySorted (fun a b => less b a = false) (insertionSort A less l).
Proof.
  unfold insertionSort.
  destruct (fold_insert_back l []) as [Hp Hs]; [constructor|]. split.
  - by rewrite <- Permutation_rev, Hp, app_nil_r.
  - by apply StronglySorted_rev.
Qed.

End SortFacts.

Lemma insertionSort_contract : sort_Slice_contract insertionSort.
Proof. intros A less l Hless. by apply insertionSort_sorts. Qed.

(** A loop that appends one element per round. *)
Lemma fold_left_snoc {A B : Type} (f : B -> A) (step : list A -> B -> list A)
    (l : list B) (acc : list A) :
  (forall acc x, step acc x = acc ++ [f x]) ->
  fold_left step l acc = acc ++ (f <$> l).
Proof.
  intros Hstep. revert acc. induction l as [|x l IH]; intros acc; cbn [fold_left].
  - by rewrite app_nil_r.
  - by rewrite IH, Hstep, <- app_assoc.
Qed.


Lemma StronglySorted_weaken {A : Type} (R S : A -> A -> Prop) (l : list A) :
  (forall a b, R a b -> S a b) -> StronglySorted R l -> StronglySorted S l.
Proof.
  intros HRS. induction 1 as [|x l Hl IH Hx]; constructor; [done|].
  eapply Forall_impl; [exact Hx|]. intros b. apply HRS.
Qed.

Lemma NoDup_fmap_inj_on {A K : Type} (key : A -> K) (l : list A) (a b : A) :
  NoDup (key <$> l) -> a ∈ l -> b ∈ l -> key a = key b -> a = b.
Proof.
  induction l as [|x l IH]; intros Hnd Ha Hb Heq; [by apply not_elem_of_nil in Ha|].
  rewrite fmap_cons in Hnd. apply NoDup_cons in Hnd as [Hx Hnd].
  apply elem_of_cons in Ha as [->|Ha]; apply elem_of_cons in Hb as [->|Hb].
  - done.
  - destruct Hx. rewrite Heq. by apply list_elem_of_fmap_2.
  - destruct Hx. rewrite <- Heq. by apply list_elem_of_fmap_2.
  - by apply IH.
Qed.

(** *** The dependencies of a version *)





Example Dependencies_decoded :
  (Dependencies_UnmarshalJSON insertionSort []
     (inr [("lodash", "^4.17.0"); ("chalk", "~2.4.1");
           ("@vue/reactivity", "^3.0.2")])).1
  = [ Dependency.mk "@vue/reactivity" "^3.0.2"; Dependency.mk "chalk" "~2.4.1";
      Dependency.mk "lodash" "^4.17.0" ].
Proof. reflexivity. Qed.

(** *** The versions of a package *)

Lemma Versions_less_strings (a b : Version.t) :
  Versions_less a b = version_string_less (Version.Version a) (Version.Version b).
Proof. done. Qed.

Section VersionOrder.

Local Ltac compare_facts a b c :=
  destruct Compare_weak_order as [Hanti Htrans];
  pose proof (Hanti a b I I); pose proof (Hanti b c I I);
  pose proof (Hanti a c I I); pose proof (Hanti a a I I);
  pose proof (Htrans a b c I I I); pose proof (Htrans a c b I I I);
  pose proof (Htrans b a c I I I); pose proof (Htrans b c a I I I);
  pose proof (Htrans c a b I I I); pose proof (Htrans c b a I I I).

Local Ltac compare_cases :=
  repeat match goal with
  | |- context [Z.eqb ?x 0] => destruct (Z.eqb_spec x 0)
  | |- context [Z.ltb ?x 0] => destruct (Z.ltb_spec x 0)
  end; cbn [negb]; try done; try lia.

Lemma version_string_less_irrefl (a : string) : version_string_less a a = false.
Proof.
  unfold version_string_less. cbv zeta. compare_facts a a a.
  compare_cases. intros. apply ltb_irrefl.
Qed.

Lemma version_string_less_trans (a b c : string) :
  version_string_less a b = true -> version_string_less b c = true ->
  version_string_less a c = true.
Proof.
  unfold version_string_less. cbv zeta. compare_facts a b c.
  compare_cases. apply ltb_trans.
Qed.

Lemma version_string_less_false_trans (a b c : string) :
  version_string_less a b = false -> version_string_less b c = false ->
  version_string_less a c = false.
Proof.
  unfold version_string_less. cbv zeta. compare_facts a b c.
  compare_cases. apply ltb_false_trans.
Qed.

(** No two different strings tie: the order is total on version strings. *)
Lemma version_string_less_total (a b : string) :
  version_string_less a b = false -> version_string_less b a = false -> a = b.
Proof.
  unfold version_string_less. cbv zeta. compare_facts a b a.
  compare_cases. apply ltb_total.
Qed.

Lemma version_string_less_precedence (a b : string) :
  version_string_less b a = false <->
  semver.Compare a b < 0
  \/ (semver.Compare a b = 0 /\ String.leb a b = true).
Proof.
  unfold version_string_less. cbv zeta. compare_facts a b a.
  destruct (Z.eqb_spec (semver.Compare b a) 0); cbn [negb].
  - rewrite ltb_leb, negb_false_iff. intuition lia.
  - destruct (Z.ltb_spec (semver.Compare b a) 0); intuition (try lia; try done).
Qed.

End VersionOrder.

Lemma Versions_less_strict_weak_order : strict_weak_order Versions_less.
Proof.
  split; [|split].
  - intros a. apply version_string_less_irrefl.
  - intros a b c. apply version_string_less_trans.
  - intros a b c. apply version_string_less_false_trans.
Qed.

Lemma Versions_UnmarshalJSON_ok
    (sort_Slice : forall A : Type, (A -> A -> bool) -> list A -> list A)
    (vs : Versions) (m : GoMap Version.t) :
  Versions_UnmarshalJSON sort_Slice vs (inr m) =
  (sort_Slice _ Versions_less (vs ++ ((fun kv => normalized kv.2) <$> m)), None).
Proof.
  unfold Versions_UnmarshalJSON. f_equal. f_equal.
  apply (fold_left_snoc (fun kv => normalized kv.2)). by intros acc [k v].
Qed.

(** C2, as amended: the decoded version list is a rearrangement of the
    receiver and the normalized entries of the map in which every entry has
    lower semver precedence than the entries after it, or ties with them and
    has the byte-wise smaller normalized version string.  The sequence of
    version strings is the same for every order in which the map is visited
    and every sort that keeps the contract of [sort.Slice]; the list of
    entries is the same when no two entries share a normalized version
    string. *)
Theorem Versions_sorted_by_precedence
    (sortA sortB : forall A : Type, (A -> A -> bool) -> list A -> list A)
    (vs : Versions) (m : gmap string Version.t) (l1 l2 : GoMap Version.t) :
  sort_Slice_contract sortA -> sort_Slice_contract sortB ->
  l1 ≡ₚ map_to_list m -> l2 ≡ₚ map_to_list m ->
  StronglySorted
    (fun a b =>
       semver.Compare (Version.Version a) (Version.Version b) < 0
       \/ (semver.Compare (Version.Version a) (Version.Version b) = 0
           /\ String.leb (Version.Version a) (Version.Version b) = true))
    (Versions_UnmarshalJSON sortA vs (inr l1)).1
  /\ (Versions_UnmarshalJSON sortA vs (inr l1)).1
     ≡ₚ vs ++ ((fun kv => normalized kv.2) <$> map_to_list m)
  /\ Version.Version <$> (Versions_UnmarshalJSON sortA vs (inr l1)).1
     = Version.Version <$> (Versions_UnmarshalJSON sortB vs (inr l2)).1
  /\ (NoDup (Version.Version <$> (Versions_UnmarshalJSON sortA vs (inr l1)).1) ->
      (Versions_UnmarshalJSON sortA vs (inr l1)).1
      = (Versions_UnmarshalJSON sortB vs (inr l2)).1).
Proof.
  intros HA HB Hl1 Hl2. rewrite !Versions_UnmarshalJSON_ok. cbn [fst snd].
  destruct (HA _ Versions_less (vs ++ ((fun kv => normalized kv.2) <$> l1))
              Versions_less_strict_weak_order) as [Hp1 Hs1].
  destruct (HB _ Versions_less (vs ++ ((fun kv => normalized kv.2) <$> l2))
              Versions_less_strict_weak_order) as [Hp2 Hs2].
  set (out1 := sortA _ Versions_less _) in *.
  set (out2 := sortB _ Versions_less _) in *.
  assert (Hperm1 : out1 ≡ₚ vs ++ ((fun kv => normalized kv.2) <$> map_to_list m))
    by by rewrite Hp1, Hl1.
  assert (Hperm2 : out2 ≡ₚ vs ++ ((fun kv => normalized kv.2) <$> map_to_list m))
    by by rewrite Hp2, Hl2.
  split; [|split; [done|split]].
  - eapply StronglySorted_weaken; [|exact Hs1]. intros a b Hba.
    by apply version_string_less_precedence.
  - apply (StronglySorted_unique_strong
             (fun s t => version_string_less t s = false)).
    + intros s t _ _ Hst Hts. by apply version_string_less_total.
    + by apply (StronglySorted_fmap Version.Version
                  (fun a b => Versions_less b a = false)).
    + by apply (StronglySorted_fmap Version.Version
                  (fun a b => Versions_less b a = false)).
    + by rewrite Hperm1, Hperm2.
  - intros Hnd.
    apply (StronglySorted_unique_strong
             (fun a b => Versions_less b a = false)); [|done..|].
    + intros x1 x2 Hx1 Hx2 H12 H21.
      apply (NoDup_fmap_inj_on Version.Version out1); [done..| |].
      * by rewrite Hperm1, <- Hperm2.
      * by apply version_string_less_total.
    + by rewrite Hperm1, Hperm2.
Qed.

Lemma Versions_sorted_by_precedence_witness :
  StronglySorted
    (fun a b =>
       semver.Compare (Version.Version a) (Version.Version b) < 0
       \/ (semver.Compare (Version.Version a) (Version.Version b) = 0
           /\ String.leb (Version.Version a) (Version.Version b) = true))
    (Versions_UnmarshalJSON insertionSort []
       (inr [("1.0.0", version_entry "1.0.0" "aa");
             ("2.0.0", version_entry "2.0.0" "bb");
             ("1.5.0", version_entry "1.5.0" "cc")])).1
  /\ (Versions_UnmarshalJSON insertionSort []
        (inr [("1.0.0", version_entry "1.0.0" "aa");
              ("2.0.0", version_entry "2.0.0" "bb");
              ("1.5.0", version_entry "1.5.0" "cc")])).1
     ≡ₚ [] ++ ((fun kv => normalized kv.2) <$> map_to_list three_versions)
  /\ Version.Version <$>
       (Versions_UnmarshalJSON insertionSort []
          (inr [("1.0.0", version_entry "1.0.0" "aa");
                ("2.0.0", version_entry "2.0.0" "bb");
                ("1.5.0", version_entry "1.5.0" "cc")])).1
     = Version.Version <$>
         (Versions_UnmarshalJSON insertionSort []
            (inr [("2.0.0", version_entry "2.0.0" "bb");
                  ("1.5.0", version_entry "1.5.0" "cc");
                  ("1.0.0", version_entry "1.0.0" "aa")])).1
  /\ (NoDup (Version.Version <$>
              (Versions_UnmarshalJSON insertionSort []
                 (inr [("1.0.0", version_entry "1.0.0" "aa");
                       ("2.0.0", version_entry "2.0.0" "bb");
                       ("1.5.0", version_entry "1.5.0" "cc")])).1) ->
      (Versions_UnmarshalJSON insertionSort []
         (inr [("1.0.0", version_entry "1.0.0" "aa");
               ("2.0.0", version_entry "2.0.0" "bb");
               ("1.5.0", version_entry "1.5.0" "cc")])).1
      = (Versions_UnmarshalJSON insertionSort []
           (inr [("2.0.0", version_entry "2.0.0" "bb");
                 ("1.5.0", version_entry "1.5.0" "cc");
                 ("1.0.0", version_entry "1.0.0" "aa")])).1).
Proof.
  apply (Versions_sorted_by_precedence insertionSort insertionSort []
           three_versions).
  - exact insertionSort_contract.
  - exact insertionSort_contract.
  - refine (bool_decide_unpack _ _). vm_compute. exact I.
  - refine (bool_decide_unpack _ _). vm_compute. exact I.
Defined.

Example Versions_decoded :
  Version.Version <$>
    (Versions_UnmarshalJSON insertionSort []
       (inr [("1.0.0", version_entry "1.0.0" "aa");
             ("2.0.0", version_entry "2.0.0" "bb");
             ("1.5.0", version_entry "1.5.0" "cc")])).1
  = ["v1.0.0"; "v1.5.0"; "v2.0.0"].
Proof. reflexivity. Qed.

Example Versions_tie_broken_by_string :
  Version.Version <$>
    (Versions_UnmarshalJSON insertionSort []
       (inr [("a", version_entry "1.0.0+b" "aa");
             ("b", version_entry "1.0" "bb");
             ("c", version_entry "next" "cc");
             ("d", version_entry "1.0.0+a" "dd");
             ("e", version_entry "1.0.0-rc.1" "ee")])).1
  = ["vnext"; "v1.0.0-rc.1"; "v1.0"; "v1.0.0+a"; "v1.0.0+b"].
Proof. reflexivity. Qed.

(** C2, as stated, fails: two entries whose versions are one string once
    normalized tie, and they come out in the order in which the map was
    visited. *)
Lemma Versions_order_counterexample :
  [("1.0.0", version_entry "1.0.0" "aa"); ("v1.0.0", version_entry "v1.0.0" "bb")]
    ≡ₚ map_to_list colliding_versions
  /\ [("v1.0.0", version_entry "v1.0.0" "bb"); ("1.0.0", version_entry "1.0.0" "aa")]
    ≡ₚ map_to_list colliding_versions
  /\ (Versions_UnmarshalJSON insertionSort []
        (inr [("1.0.0", version_entry "1.0.0" "aa");
              ("v1.0.0", version_entry "v1.0.0" "bb")])).1
     = [version_entry "v1.0.0" "aa"; version_entry "v1.0.0" "bb"]
  /\ (Versions_UnmarshalJSON insertionSort []
        (inr [("v1.0.0", version_entry "v1.0.0" "bb");
              ("1.0.0", version_entry "1.0.0" "aa")])).1
     = [version_entry "v1.0.0" "bb"; version_entry "v1.0.0" "aa"]
  /\ Versions_less (version_entry "v1.0.0" "aa") (version_entry "v1.0.0" "bb") = false
  /\ Versions_less (version_entry "v1.0.0" "bb") (version_entry "v1.0.0" "aa") = false.
Proof.
  split; [refine (bool_decide_unpack _ _); vm_compute; exact I|].
  split; [refine (bool_decide_unpack _ _); vm_compute; exact I|].
  repeat split; reflexivity.
Qed.

(** ** Module paths *)

Section CleanFacts.

Lemma append_assoc (a b c : string) : (a +:+ b) +:+ c = a +:+ (b +:+ c).
Proof.
  induction a as [|x a IH]; [done|]. by rewrite !append_cons, IH.
Qed.

Lemma append_empty_r (a : string) : a +:+ "" = a.
Proof. induction a as [|x a IH]; [done|]. by rewrite append_cons, IH. Qed.

Lemma rev_app_append (a b acc : string) :
  String.rev_app (a +:+ b) acc = String.rev_app b (String.rev_app a acc).
Proof.
  revert acc. induction a as [|x a IH]; intros acc; [done|].
  rewrite append_cons. cbn [String.rev_app]. apply IH.
Qed.

Lemma rev_app_rev_app (s acc acc' : string) :
  String.rev_app (String.rev_app s acc) acc' = String.rev_app acc (s +:+ acc').
Proof.
  revert acc acc'. induction s as [|x s IH]; intros acc acc'; [done|].
  cbn [String.rev_app]. rewrite IH. by rewrite append_cons.
Qed.

Lemma rev_rev_app (s : string) : String.rev (String.rev_app s "") = s.
Proof.
  unfold String.rev. rewrite rev_app_rev_app. cbn [String.rev_app].
  apply append_empty_r.
Qed.

Lemma rev_app_length (s acc : string) :
  String.length (String.rev_app s acc) = (String.length s + String.length acc)%nat.
Proof.
  revert acc. induction s as [|x s IH]; intros acc; [done|].
  cbn [String.rev_app String.length]. rewrite IH. cbn [String.length]. lia.
Qed.

End CleanFacts.

Section CleanElems.

Lemma no_slash_cons (c : ascii) (e : string) :
  GoStrings.Contains (String c e) "/" = false ->
  Ascii.eqb c "/" = false /\ GoStrings.Contains e "/" = false.
Proof.
  rewrite Contains_cons, prefix_cons, prefix_empty, andb_true_r, Ascii.eqb_sym.
  by intros [? ?]%orb_false_iff.
Qed.

Lemma Clean_loop_copy (e r acc : string) :
  GoStrings.Contains e "/" = false -> GoPath.at_elem_end r = true ->
  GoPath.Clean_loop (e +:+ r) true false acc 0 =
  match r with
  | EmptyString => String.rev_app e acc
  | String _ r' => GoPath.Clean_loop r' false false (String.rev_app e acc) 0
  end.
Proof.
  intros He Hr. revert acc He. induction e as [|c e IH]; intros acc He.
  - rewrite append_empty. destruct r as [|d r']; [done|].
    cbn in Hr. cbn [GoPath.Clean_loop String.rev_app]. by rewrite Hr.
  - apply no_slash_cons in He as [Hc He]. rewrite append_cons.
    cbn [GoPath.Clean_loop String.rev_app]. rewrite Hc. by apply IH.
Qed.

Lemma normal_element_cons (e : string) :
  normal_element e = true ->
  exists c e', e = String c e' /\ Ascii.eqb c "/" = false
    /\ GoStrings.Contains e' "/" = false
    /\ (Ascii.eqb c "." = true -> exists d e'', e' = String d e''
          /\ Ascii.eqb d "/" = false
          /\ (Ascii.eqb d "." = true -> exists x e3, e'' = String x e3
                /\ Ascii.eqb x "/" = false)).
Proof.
  unfold normal_element. intros H.
  apply andb_true_iff in H as [H Hdd]. apply andb_true_iff in H as [H Hd].
  apply andb_true_iff in H as [Hne Hs].
  apply negb_true_iff in Hne, Hs, Hd, Hdd.
  destruct e as [|c e']; [done|]. exists c, e'.
  apply no_slash_cons in Hs as [Hc Hs]. repeat split; [done..|].
  intros Hdot. apply Ascii.eqb_eq in Hdot as ->.
  destruct e' as [|d e'']; [done|]. exists d, e''.
  apply no_slash_cons in Hs as [Hd' Hs]. repeat split; [done..|].
  intros Hdot. apply Ascii.eqb_eq in Hdot as ->.
  destruct e'' as [|x e3]; [done|]. exists x, e3.
  apply no_slash_cons in Hs as [Hx _]. done.
Qed.

Lemma Clean_loop_element (e r rout : string) :
  normal_element e = true -> GoPath.at_elem_end r = true ->
  GoPath.Clean_loop (e +:+ r) false false rout 0 =
  match r with
  | EmptyString => String.rev_app e (GoPath.add_slash false rout)
  | String _ r' =>
      GoPath.Clean_loop r' false false
        (String.rev_app e (GoPath.add_slash false rout)) 0
  end.
Proof.
  intros He Hr.
  destruct (normal_element_cons e He) as (c & e' & -> & Hc & Hs & Hdot).
  rewrite append_cons. cbn [GoPath.Clean_loop String.rev_app]. rewrite Hc.
  assert (Hcopy :
    GoPath.Clean_loop (e' +:+ r) true false (String c (GoPath.add_slash false rout)) 0 =
    match r with
    | EmptyString => String.rev_app e' (String c (GoPath.add_slash false rout))
    | String _ r' =>
        GoPath.Clean_loop r' false false
          (String.rev_app e' (String c (GoPath.add_slash false rout))) 0
    end) by by apply Clean_loop_copy.
  destruct (Ascii.eqb c ".") eqn:Hcd.
  - destruct (Hdot eq_refl) as (d & e'' & -> & Hd & Hdot2).
    rewrite append_cons in Hcopy |- *. cbn [GoPath.at_elem_end andb].
    rewrite Hd. cbn [andb]. destruct (Ascii.eqb d ".") eqn:Hdd; [|done].
    destruct (Hdot2 eq_refl) as (x & e3 & -> & Hx). rewrite append_cons.
    cbn [GoPath.at_elem_end andb]. by rewrite Hx.
  - cbn [andb]. by destruct (e' +:+ r).
Qed.

Lemma add_slash_nonempty (rout : string) :
  String.length rout <> 0%nat -> GoPath.add_slash false rout = String "/" rout.
Proof.
  intros H. unfold GoPath.add_slash.
  by destruct (Nat.eqb_spec (String.length rout) 0).
Qed.

Lemma normal_element_length (e acc : string) :
  normal_element e = true -> String.length (String.rev_app e acc) <> 0%nat.
Proof.
  intros (c & e' & -> & _)%normal_element_cons.
  rewrite rev_app_length. cbn [String.length]. lia.
Qed.

Lemma Join_cons_cons (e e2 : string) (rest : list string) (sep : string) :
  GoStrings.Join (e :: e2 :: rest) sep = e +:+ sep +:+ GoStrings.Join (e2 :: rest) sep.
Proof. done. Qed.

(** The loop over a path of normal elements, with or without a slash at its
    end, copies the elements, one slash between them. *)
Lemma Clean_loop_elements (elems : list string) (tail rout : string) :
  elems <> [] -> forallb normal_element elems = true ->
  tail = "" \/ tail = "/" ->
  GoPath.Clean_loop (GoStrings.Join elems "/" +:+ tail) false false rout 0 =
  String.rev_app (GoStrings.Join elems "/") (GoPath.add_slash false rout).
Proof.
  intros Hne Hall Htail. revert rout.
  induction elems as [|e elems IH]; intros rout; [done|].
  cbn [forallb] in Hall. apply andb_true_iff in Hall as [He Hall].
  destruct elems as [|e2 rest].
  - cbn [GoStrings.Join]. rewrite Clean_loop_element; [|done|].
    + by destruct Htail as [->| ->].
    + by destruct Htail as [->| ->].
  - rewrite Join_cons_cons, !append_assoc.
    rewrite Clean_loop_element by done.
    rewrite append_cons, append_empty.
    rewrite IH by done.
    rewrite add_slash_nonempty by by apply normal_element_length.
    by rewrite !rev_app_append.
Qed.

Lemma Clean_elements (elems : list string) (tail : string) :
  elems <> [] -> forallb normal_element elems = true ->
  tail = "" \/ tail = "/" ->
  GoPath.Clean (GoStrings.Join elems "/" +:+ tail) = GoStrings.Join elems "/".
Proof.
  intros Hne Hall Htail.
  pose proof (Clean_loop_elements elems tail "" Hne Hall Htail) as Hloop.
  destruct elems as [|e elems]; [done|].
  pose proof Hall as Hall'. cbn [forallb] in Hall'.
  apply andb_true_iff in Hall' as [He _].
  destruct (normal_element_cons e He) as (c & e' & -> & Hc & _).
  assert (Hhead : exists p, GoStrings.Join (String c e' :: elems) "/" +:+ tail
                            = String c p).
  { destruct elems; [by eexists|]. rewrite Join_cons_cons. by eexists. }
  destruct Hhead as [p Hp]. unfold GoPath.Clean. rewrite Hp, Hc, <- Hp, Hloop.
  cbn [GoPath.add_slash String.length Nat.eqb negb].
  destruct (Nat.eqb_spec (String.length
              (String.rev_app (GoStrings.Join (String c e' :: elems) "/") "")) 0)
    as [Hz|_].
  - rewrite rev_app_length in Hz.
    destruct elems; [|rewrite Join_cons_cons, append_cons in Hz];
      cbn [GoStrings.Join String.length] in Hz; lia.
  - apply rev_rev_app.
Qed.

Lemma split_slash_nonempty (s : string) : split_slash s <> [].
Proof.
  destruct s as [|c s]; [done|]. cbn [split_slash].
  destruct (Ascii.eqb c "/"); [done|]. by destruct (split_slash s).
Qed.

Lemma Join_cons_head (c : ascii) (e sep : string) (rest : list string) :
  GoStrings.Join (String c e :: rest) sep = String c (GoStrings.Join (e :: rest) sep).
Proof. by destruct rest. Qed.

Lemma Join_split_slash (s : string) : GoStrings.Join (split_slash s) "/" = s.
Proof.
  induction s as [|c s IH]; [done|]. cbn [split_slash].
  pose proof (split_slash_nonempty s) as Hne.
  destruct (Ascii.eqb_spec c "/") as [->|Hc].
  - destruct (split_slash s) as [|e rest]; [done|].
    rewrite Join_cons_cons, IH. done.
  - destruct (split_slash s) as [|e rest]; [done|].
    by rewrite Join_cons_head, IH.
Qed.

Lemma Join_app (l1 l2 : list string) (sep : string) :
  l1 <> [] -> l2 <> [] ->
  GoStrings.Join (l1 ++ l2) sep =
  GoStrings.Join l1 sep +:+ sep +:+ GoStrings.Join l2 sep.
Proof.
  intros H1 H2. induction l1 as [|e l1 IH]; [done|].
  destruct l1 as [|e2 l1].
  - destruct l2; [done|]. done.
  - cbn [app] in *. rewrite (Join_cons_cons e e2 (l1 ++ l2)), IH by done.
    by rewrite (Join_cons_cons e e2 l1), !append_assoc.
Qed.

Lemma Escape_empty (s : string) : EscapePackage s = "" -> s = "".
Proof.
  destruct s as [|c s]; [done|]. rewrite Escape_cons.
  by destruct (Ascii.eqb c "@").
Qed.

Lemma Escape_no_slash (s : string) :
  GoStrings.Contains s "/" = false -> GoStrings.Contains (EscapePackage s) "/" = false.
Proof.
  induction s as [|c s IH]; [done|]. intros [Hc Hs]%no_slash_cons.
  rewrite Escape_cons. destruct (Ascii.eqb c "@").
  - rewrite !append_cons, append_empty, !Contains_cons, !prefix_cons.
    cbn [Ascii.eqb Bool.eqb andb orb]. by apply IH.
  - rewrite Contains_cons, prefix_cons, prefix_empty, andb_true_r, Ascii.eqb_sym, Hc.
    by apply IH.
Qed.

Lemma Escape_normal (e : string) :
  normal_element e = true -> normal_element (EscapePackage e) = true.
Proof.
  unfold normal_element. intros H.
  apply andb_true_iff in H as [H Hdd]. apply andb_true_iff in H as [H Hd].
  apply andb_true_iff in H as [Hne Hs].
  apply negb_true_iff in Hne, Hs, Hd, Hdd.
  rewrite (Escape_no_slash e Hs).
  apply String.eqb_neq in Hne, Hd, Hdd.
  destruct e as [|c e]; [done|]. rewrite Escape_cons in *.
  destruct (Ascii.eqb_spec c "@") as [->|Hc]; [done|].
  destruct (String.eqb_spec (String c (EscapePackage e)) "") as [|_]; [done|].
  destruct (String.eqb_spec (String c (EscapePackage e)) ".") as [E|_].
  { injection E as -> E. apply Escape_empty in E as ->. done. }
  destruct (String.eqb_spec (String c (EscapePackage e)) "..") as [E|_]; [|done].
  injection E as -> E. destruct e as [|d e]; [done|]. rewrite Escape_cons in E.
  destruct (Ascii.eqb_spec d "@") as [->|Hd']; [done|].
  injection E as -> E. apply Escape_empty in E as ->. done.
Qed.

Lemma split_slash_Escape (s : string) :
  split_slash (EscapePackage s) = EscapePackage <$> split_slash s.
Proof.
  induction s as [|c s IH]; [done|]. rewrite Escape_cons. cbn [split_slash].
  pose proof (split_slash_nonempty s) as Hne.
  destruct (Ascii.eqb_spec c "@") as [->|Hc].
  - rewrite !append_cons, append_empty. cbn [split_slash Ascii.eqb Bool.eqb].
    rewrite IH. destruct (split_slash s) as [|e rest]; [done|].
    rewrite !fmap_cons, Escape_cons. cbn [Ascii.eqb Bool.eqb andb].
    by rewrite !append_cons, append_empty.
  - cbn [split_slash]. destruct (Ascii.eqb_spec c "/") as [->|Hs].
    + by rewrite IH.
    + rewrite IH. destruct (split_slash s) as [|e rest]; [done|].
      rewrite !fmap_cons, Escape_cons.
      by destruct (Ascii.eqb_spec c "@").
Qed.

Lemma well_formed_Escape (name : string) :
  well_formed_name name = true -> well_formed_name (EscapePackage name) = true.
Proof.
  unfold well_formed_name. rewrite split_slash_Escape, !forallb_forall.
  intros H e He. apply list_elem_of_In, list_elem_of_fmap in He as (e0 & -> & He0).
  apply Escape_normal, H. by apply list_elem_of_In.
Qed.

End CleanElems.

Section MajorFacts.

Lemma digit_not_slash (c : ascii) : semver.is_digit c = true -> Ascii.eqb c "/" = false.
Proof.
  intros H. destruct (Ascii.eqb_spec c "/") as [->|]; [|done]. by vm_compute in H.
Qed.

Lemma span_digits_spec (v : string) :
  v = (semver.span_digits v).1 +:+ (semver.span_digits v).2
  /\ GoStrings.Contains (semver.span_digits v).1 "/" = false.
Proof.
  induction v as [|c v [IH1 IH2]]; [done|]. cbn [semver.span_digits].
  destruct (semver.is_digit c) eqn:Hc; [|done].
  destruct (semver.span_digits v) as [t rest]. cbn [fst snd] in *.
  rewrite append_cons, <- IH1. split; [done|].
  rewrite Contains_cons, prefix_cons, prefix_empty, andb_true_r, Ascii.eqb_sym.
  by rewrite (digit_not_slash c Hc).
Qed.

Lemma parseInt_spec (v t rest : string) :
  semver.parseInt v = Some (t, rest) ->
  v = t +:+ rest /\ GoStrings.Contains t "/" = false.
Proof.
  unfold semver.parseInt. destruct v as [|c v]; [done|].
  destruct (negb (semver.is_digit c)); [done|].
  pose proof (span_digits_spec (String c v)) as Hs.
  destruct (semver.span_digits (String c v)) as [t' rest'].
  destruct (_ && _); [done|]. by intros [= <- <-].
Qed.

Lemma parse_major (v : string) (pv : semver.parsed) :
  semver.parse v = Some pv ->
  exists rest, v = String "v" (semver.major pv +:+ rest)
    /\ GoStrings.Contains (semver.major pv) "/" = false.
Proof.
  unfold semver.parse. intros H.
  destruct v as [|c v]; [by repeat case_match|].
  destruct (Ascii.eqb_spec c "v") as [->|Hc]; [|by repeat case_match].
  destruct (semver.parseInt v) as [[maj rest]|] eqn:Hint; [|done].
  apply parseInt_spec in Hint as [-> Hmaj].
  exists rest. split; [f_equal; f_equal|];
    repeat case_match; simplify_eq; try done;
    match goal with
    | H : semver.parse_suffix _ _ _ _ = Some _ |- _ =>
        apply parse_suffix_form in H as [_ ->]
    end; done.
Qed.

Lemma take_bytes_append (m rest : string) :
  semver.take_bytes (String.length m) (m +:+ rest) = m.
Proof.
  induction m as [|c m IH]; [by destruct rest|].
  rewrite append_cons. cbn [String.length semver.take_bytes]. by rewrite IH.
Qed.

Lemma Major_parsed (v : string) (pv : semver.parsed) :
  semver.parse v = Some pv -> semver.Major v = "v" +:+ semver.major pv.
Proof.
  intros H. unfold semver.Major. rewrite H.
  destruct (parse_major v pv H) as (rest & -> & _).
  cbn [Nat.add semver.take_bytes]. by rewrite take_bytes_append.
Qed.

Lemma path_major_parsed (version : Version.t) (pv : semver.parsed) :
  semver.parse (Version.Version version) = Some pv ->
  path_major version =
  if String.eqb (semver.major pv) "1" then "" else "v" +:+ semver.major pv.
Proof.
  intros H. unfold path_major. rewrite (Major_parsed _ _ H).
  rewrite append_cons, append_empty. cbn [String.eqb].
  by rewrite Ascii.eqb_refl.
Qed.

End MajorFacts.

Lemma major_element_normal (v : string) (pv : semver.parsed) :
  semver.parse v = Some pv -> normal_element ("v" +:+ semver.major pv) = true.
Proof.
  intros Hparse. destruct (parse_major _ _ Hparse) as (rest & _ & Hdigits).
  unfold normal_element. rewrite append_cons, append_empty.
  rewrite Contains_cons, prefix_cons, prefix_empty, Hdigits. done.
Qed.

(** The module path, spelled out, for an escaped name of normal path
    elements. *)
Lemma module_path_spelled (esc major : string) :
  well_formed_name esc = true ->
  (exists v pv, semver.parse v = Some pv /\ semver.major pv = major) ->
  GoPath.Join [ModPathBase; esc;
               if String.eqb major "1" then "" else "v" +:+ major]
  = ModPathBase +:+ "/" +:+ esc
    +:+ (if String.eqb major "1" then "" else "/v" +:+ major).
Proof.
  intros Hesc (v & pv & Hparse & <-). unfold well_formed_name in Hesc.
  pose proof (split_slash_nonempty esc) as Hne.
  pose proof (Join_split_slash esc) as Hjoin.
  assert (Hbase : ModPathBase +:+ "/" +:+ esc =
                  GoStrings.Join (["gohugo.io"; "npmjs"] ++ split_slash esc) "/").
  { rewrite Join_app by done. by rewrite Hjoin. }
  cbn [GoPath.Join ModPathBase String.eqb Ascii.eqb Bool.eqb andb].
  destruct (String.eqb_spec (semver.major pv) "1") as [_|Hmaj].
  + rewrite !Join_cons_cons. cbn [GoStrings.Join].
    change "gohugo.io/npmjs" with ModPathBase.
    assert (E : ModPathBase +:+ "/" +:+ esc +:+ "/" +:+ ""
                = (ModPathBase +:+ "/" +:+ esc) +:+ "/")
      by by rewrite !append_assoc.
    rewrite E, append_empty_r, Hbase.
    apply Clean_elements; [by destruct (split_slash esc)| |by right].
    by rewrite forallb_app, Hesc.
  + rewrite !Join_cons_cons. cbn [GoStrings.Join].
    change "gohugo.io/npmjs" with ModPathBase.
    pose proof (major_element_normal v pv Hparse) as Hv.
    set (elems := (["gohugo.io"; "npmjs"] ++ split_slash esc)
                  ++ ["v" +:+ semver.major pv]).
    assert (EJ : GoStrings.Join elems "/" =
                 ModPathBase +:+ "/" +:+ esc +:+ "/" +:+ "v" +:+ semver.major pv).
    { unfold elems. rewrite (Join_app _ ["v" +:+ semver.major pv]); [| |done].
      - rewrite <- Hbase. cbn [GoStrings.Join]. by rewrite !append_assoc.
      - by destruct (split_slash esc). }
    assert (HC : GoPath.Clean (GoStrings.Join elems "/" +:+ "")
                 = GoStrings.Join elems "/").
    { apply Clean_elements; [by destruct (split_slash esc)| |by left].
      unfold elems. rewrite !forallb_app, Hesc. cbn [forallb]. by rewrite Hv. }
    rewrite append_empty_r, EJ in HC. rewrite HC.
    by do 3 f_equal.
Qed.

Example module_identity_examples :
  module_Path (module_identity (Version.mk "alpinejs" "v3.3.3" [] Dist.zero))
    = "gohugo.io/npmjs/alpinejs/v3"
  /\ module_Path (module_identity (Version.mk "alpinejs" "v1.9.0" [] Dist.zero))
    = "gohugo.io/npmjs/alpinejs"
  /\ module_Path (module_identity (Version.mk "@vue/reactivity" "v0.1.2" [] Dist.zero))
    = "gohugo.io/npmjs/___vue/reactivity/v0"
  /\ module_Path (module_identity (Version.mk "alpinejs" "v12.0.0-rc.1" [] Dist.zero))
    = "gohugo.io/npmjs/alpinejs/v12"
  /\ module_Path (module_identity (Version.mk "alpinejs" "vnext" [] Dist.zero))
    = "gohugo.io/npmjs/alpinejs".
Proof. repeat split; reflexivity. Qed.

(** ** Routing: the dot before the suffix *)

Section RegexpFacts.

Lemma captures_lits (a : string) (p : list regexp.item) (s : string) :
  regexp.captures (regexp.lits a ++ p) (a +:+ s) = regexp.captures p s.
Proof.
  induction a as [|c a IH]; [done|].
  rewrite append_cons. cbn [regexp.lits app regexp.captures].
  by rewrite Ascii.eqb_refl.
Qed.

Lemma captures_star_unfold (p : list regexp.item) (s : string) :
  regexp.captures (regexp.group_dot_star :: p) s =
  let stop :=
    match regexp.captures p s with
    | Some caps => Some (EmptyString :: caps)
    | None => None
    end in
  match s with
  | EmptyString => stop
  | String d s' =>
      if Ascii.eqb d regexp.newline then stop
      else
        match regexp.captures (regexp.group_dot_star :: p) s' with
        | Some (g :: caps) => Some (String d g :: caps)
        | _ => stop
        end
  end.
Proof. by destruct s. Qed.

(** A group always yields its capture. *)
Lemma captures_star_cons (p : list regexp.item) (s : string) :
  match regexp.captures (regexp.group_dot_star :: p) s with
  | Some [] => False
  | _ => True
  end.
Proof.
  induction s as [|d s IH]; rewrite captures_star_unfold; cbv zeta.
  - by destruct (regexp.captures p "").
  - destruct (Ascii.eqb d regexp.newline).
    + by destruct (regexp.captures p (String d s)).
    + destruct (regexp.captures (regexp.group_dot_star :: p) s) as [[|g caps]|];
        try done; by destruct (regexp.captures p (String d s)).
Qed.

(** A group matches whenever some text without a newline can be split off
    so that the rest of the pattern matches what follows. *)
Lemma captures_star_complete (p : list regexp.item) (g s : string) :
  GoStrings.Contains g nl = false ->
  regexp.captures p s <> None ->
  regexp.captures (regexp.group_dot_star :: p) (g +:+ s) <> None.
Proof.
  intros Hg Hs. induction g as [|d g IH].
  - rewrite append_empty, captures_star_unfold. cbv zeta.
    destruct (regexp.captures p s) as [caps|]; [|done].
    destruct s as [|e s']; [done|].
    destruct (Ascii.eqb e regexp.newline); [done|].
    by destruct (regexp.captures (regexp.group_dot_star :: p) s') as [[|? ?]|].
  - rewrite Contains_cons in Hg. apply orb_false_iff in Hg as [Hd Hg].
    unfold nl in Hd. rewrite prefix_cons, prefix_empty, andb_true_r in Hd.
    rewrite append_cons, captures_star_unfold. cbv zeta.
    rewrite Ascii.eqb_sym. fold regexp.newline in Hd. rewrite Hd.
    specialize (IH Hg). pose proof (captures_star_cons p (g +:+ s)) as Hc.
    by destruct (regexp.captures (regexp.group_dot_star :: p) (g +:+ s))
      as [[|? ?]|].
Qed.

Lemma captures_lits_self (a : string) : regexp.captures (regexp.lits a) a = Some [].
Proof.
  induction a as [|c a IH]; [done|]. cbn [regexp.lits regexp.captures].
  by rewrite Ascii.eqb_refl.
Qed.

End RegexpFacts.

Example route_any_separator_served :
  ServeHTTP insertionSort world_alpinejs "GET"
    "/gohugo.io/npmjs/alpinejs/@v/v3.3.3Xinfo" fs_start
  = (Encoded_versionInfo "v3.3.3", fs_start)
  /\ ServeHTTP insertionSort world_alpinejs "GET"
       "/gohugo.io/npmjs/alpinejs/@v/v3.3.3.info" fs_start
     = (Encoded_versionInfo "v3.3.3", fs_start)
  /\ ServeHTTP insertionSort world_alpinejs "DELETE"
       "/gohugo.io/npmjs/alpinejs/@v/v3.3.3.info" fs_start
     = (StatusMethodNotAllowed, fs_start)
  /\ ServeHTTP insertionSort world_alpinejs "GET" "/other/@v/list" fs_start
     = (StatusNotFound, fs_start).
Proof. repeat split; reflexivity. Qed.

(** ** Tarball verification and the staging directory *)

Section StagingFacts.

Variable w : World.

Lemma grows_refl (fs : FS) : grows fs fs.
Proof. by intros path. Qed.

Lemma grows_trans (fs1 fs2 fs3 : FS) : grows fs1 fs2 -> grows fs2 fs3 -> grows fs1 fs3.
Proof. intros H12 H23 path Hp. by apply H23, H12. Qed.

Lemma grows_insert (fs : FS) (path : string) (n : node) : grows fs (<[path := n]> fs).
Proof.
  intros p Hp. destruct (decide (path = p)) as [->|Hne].
  - rewrite lookup_insert_eq. by eexists.
  - by rewrite lookup_insert_ne.
Qed.

Lemma os_Create_grows (path : string) (fs fs' : FS) :
  os_Create path fs = inr fs' -> grows fs fs'.
Proof.
  unfold os_Create. repeat case_match; try done. intros [= <-]. apply grows_insert.
Qed.

Lemma os_MkdirAll_grows (path : string) (fs fs' : FS) :
  os_MkdirAll path fs = inr fs' -> grows fs fs'.
Proof.
  unfold os_MkdirAll. destruct (String.eqb path ""); [done|].
  generalize (ancestors path) as dirs. intros dirs. revert fs.
  induction dirs as [|dir dirs IH]; intros fs; cbn [fold_left].
  { intros [= <-]. apply grows_refl. }
  destruct (fs !! dir) as [[|content]|] eqn:Hdir.
  - apply IH.
  - intros H. exfalso. clear -H. induction dirs as [|d dirs IH]; [done|]. by apply IH.
  - intros H. eapply grows_trans; [apply grows_insert|]. by apply IH.
Qed.

Lemma downloadTarball_grows (dist : Dist.t) (target : string) (fs : FS) :
  grows fs (downloadTarball w dist target fs).2.
Proof.
  unfold downloadTarball.
  destruct (os_Create target fs) as [err|fs1] eqn:Hcreate; [apply grows_refl|].
  apply os_Create_grows in Hcreate.
  repeat case_match; cbn [snd]; try done;
    (eapply grows_trans; [exact Hcreate|apply grows_insert]).
Qed.

Lemma untar_loop_grows (dst : string) (stream : list tar_next) (fs : FS) :
  grows fs (untar_loop dst stream fs).2.
Proof.
  revert fs. induction stream as [|next stream IH]; intros fs; [apply grows_refl|].
  cbn [untar_loop].
  destruct next as [header content read_err| |err]; [|apply IH|apply grows_refl].
  destruct (Ascii.eqb (tar_Typeflag header) tar_TypeDir).
  { destruct (os_Stat _ fs); [|apply IH].
    destruct (os_MkdirAll _ fs) as [err|fs1] eqn:Hmk; [apply grows_refl|].
    eapply grows_trans; [by eapply os_MkdirAll_grows|apply IH]. }
  destruct (Ascii.eqb (tar_Typeflag header) tar_TypeReg); [|apply IH].
  destruct (os_MkdirAll _ fs) as [err|fs1] eqn:Hmk; [apply grows_refl|].
  apply os_MkdirAll_grows in Hmk.
  destruct (os_Create _ fs1) as [err|fs2] eqn:Hcreate; [done|].
  apply os_Create_grows in Hcreate.
  assert (Hw : grows fs (write_file (GoPath.Join [dst; tar_Name header]) content fs2)).
  { eapply grows_trans; [exact Hmk|].
    eapply grows_trans; [exact Hcreate|apply grows_insert]. }
  destruct read_err; [done|]. eapply grows_trans; [exact Hw|apply IH].
Qed.

Lemma repackTarballAsZip_grows (tarFilename : string) (version : Version.t) (fs : FS) :
  grows fs (repackTarballAsZip w tarFilename version fs).2.
Proof.
  unfold repackTarballAsZip.
  destruct (os_MkdirAll _ fs) as [err|fs1] eqn:Hmk; [apply grows_refl|].
  apply os_MkdirAll_grows in Hmk.
  destruct (os_Open tarFilename fs1) as [err|tf]; [done|].
  unfold untar.
  destruct (gzip_tar w tf) as [err|stream]; [done|].
  pose proof (untar_loop_grows
    (GoPath.Join [GoPath.Dir tarFilename;
       Version.Name version +:+ "-" +:+ Version.Version version +:+ "-"
       +:+ Dist.ShaSum (Version.Dist version)]) stream fs1) as Hun.
  destruct (untar_loop _ stream fs1) as [[err|] fs2]; cbn [snd] in *.
  { by eapply grows_trans. }
  destruct (os_Create _ fs2) as [err|fs3] eqn:Hcreate;
    [by eapply grows_trans|].
  apply os_Create_grows in Hcreate.
  destruct (zip_CreateFromDir w _ fs3 _) as [written err]. cbn [snd].
  eapply grows_trans; [exact Hmk|]. eapply grows_trans; [exact Hun|].
  eapply grows_trans; [exact Hcreate|apply grows_insert].
Qed.

(** The staging directory outlives [CreateZipFromVersion], whatever it
    returns. *)
Lemma CreateZipFromVersion_keeps_tempDir (last : Version.t) (fs : FS) (tempDir : string) :
  ioutil_TempDir_name w fs = inr tempDir ->
  is_Some ((CreateZipFromVersion w last fs).2 !! tempDir).
Proof.
  intros Htemp. unfold CreateZipFromVersion. rewrite Htemp.
  set (tarFilename := GoPath.Join [tempDir; _]).
  assert (H0 : is_Some ((<[tempDir := Dir]> fs) !! tempDir)).
  { rewrite lookup_insert_eq. by eexists. }
  pose proof (downloadTarball_grows (Version.Dist last) tarFilename
                (<[tempDir := Dir]> fs)) as Hd.
  destruct (downloadTarball w _ tarFilename _) as [[err|] fs1]; cbn [snd] in *.
  { by apply Hd. }
  by apply (repackTarballAsZip_grows tarFilename last fs1), Hd.
Qed.

(** A failed archive request returns with the file system as
    [CreateZipFromVersion] left it: nothing is removed. *)
Lemma Zip_failure_no_cleanup
    (sort_Slice : forall A : Type, (A -> A -> bool) -> list A -> list A)
    (mctx : moduleContext) (fs : FS) (npmv : Version.t) (tempDir : string)
    (f : option string) (err : error) :
  FetchPackageVersion sort_Slice w (NpmPackage_ mctx) (Version_ mctx) = (npmv, None) ->
  ioutil_TempDir_name w fs = inr tempDir ->
  (CreateZipFromVersion w npmv fs).1 = (f, Some err) ->
  (Zip sort_Slice w mctx fs).1 = fail "failed to create module zip" err
  /\ is_Some ((Zip sort_Slice w mctx fs).2 !! tempDir).
Proof.
  intros Hfetch Htemp Hzip. unfold Zip. rewrite Hfetch.
  pose proof (CreateZipFromVersion_keeps_tempDir npmv fs tempDir Htemp) as Hkeep.
  destruct (CreateZipFromVersion w npmv fs) as [[f' err'] fs']. cbn [fst snd] in *.
  simplify_eq. by destruct f.
Qed.

(** With a digest that differs from the declared one [downloadTarball]
    returns the mismatch error, and the destination holds the bytes. *)
Lemma downloadTarball_mismatch (dist : Dist.t) (target : string) (fs fs1 : FS)
    (resp : Response) :
  os_Create target fs = inr fs1 ->
  http_Get w (Dist.Tarball dist) = inr resp ->
  StatusCode resp = 200 -> BodyErr resp = None ->
  sha1_hex w (Body resp) <> Dist.ShaSum dist ->
  downloadTarball w dist target fs
  = (Some error_shasum_mismatch, <[target := File (Body resp)]> fs1).
Proof.
  intros Hcreate Hget Hstatus Herr Hsha. unfold downloadTarball.
  rewrite Hcreate, Hget, Hstatus, Herr. cbn [Z.eqb Pos.eqb negb].
  apply String.eqb_neq in Hsha. by rewrite Hsha.
Qed.

End StagingFacts.

(** C1: with a tarball whose digest differs from the declared checksum
    [downloadTarball] returns the mismatch error and the archive is not
    built, but the destination file stays in the staging directory with the
    bytes that failed the check: it is not deleted. *)
Theorem downloadTarball_mismatch_leaves_file :
  sha1_hex world_tampered "(other bytes)" <> alpinejs_shasum
  /\ downloadTarball world_tampered (Dist.mk alpinejs_shasum alpinejs_tarball)
       "/tmp/npmgop123/alpinejs" (<["/tmp/npmgop123" := Dir]> fs_start)
     = (Some error_shasum_mismatch,
        <["/tmp/npmgop123/alpinejs" := File "(other bytes)"]>
          (<["/tmp/npmgop123" := Dir]> fs_start))
  /\ CreateZipFromVersion world_tampered
       (Version.mk "alpinejs" "v3.3.3" [Dependency.mk "@vue/reactivity" "^3.0.2"]
          (Dist.mk alpinejs_shasum alpinejs_tarball)) fs_start
     = ((None, Some (error_download error_shasum_mismatch)),
        <["/tmp/npmgop123/alpinejs" := File "(other bytes)"]>
          (<["/tmp/npmgop123" := Dir]> fs_start))
  /\ (Zip insertionSort world_tampered alpinejs_request fs_start).2
       !! "/tmp/npmgop123/alpinejs" = Some (File "(other bytes)").
Proof.
  split; [by vm_compute|]. repeat split; by vm_compute.
Qed.

(** C7: an archive request that fails after the staging directory was made
    returns with the directory and the downloaded file still there; only
    the request that succeeds removes them. *)
Theorem Zip_failure_leaves_staging_directory :
  Zip insertionSort world_tampered alpinejs_request fs_start
  = (StatusInternalServerError
       (error_fail "failed to create module zip"
          (error_download error_shasum_mismatch)),
     <["/tmp/npmgop123/alpinejs" := File "(other bytes)"]>
       (<["/tmp/npmgop123" := Dir]> fs_start))
  /\ fs_start !! "/tmp/npmgop123" = None
  /\ Zip insertionSort world_alpinejs alpinejs_request fs_start
     = (ServedContent "/tmp/npmgop123/alpinejs.zip"
          "(zip of gohugo.io/npmjs/alpinejs/v3@v3.3.3)", fs_start).
Proof. repeat split; by vm_compute. Qed.

(** * Further properties *)

(** ** Tags, names and versions *)

Section MapIndex.

Lemma map_index_elem (l : GoMap string) (k v : string) :
  NoDup l.*1 -> (k, v) ∈ l -> map_index l k = v.
Proof.
  induction l as [|[k' v'] l IH]; intros Hnd Hin; [by apply not_elem_of_nil in Hin|].
  rewrite fmap_cons in Hnd. apply NoDup_cons in Hnd as [Hk Hnd].
  cbn [map_index]. apply elem_of_cons in Hin as [[= -> ->]|Hin].
  - by rewrite String.eqb_refl.
  - destruct (String.eqb_spec k' k) as [->|Hne]; [|by apply IH].
    destruct Hk. by apply (list_elem_of_fmap_2 fst l (k, v)).
Qed.

Lemma map_index_missing (l : GoMap string) (k : string) :
  k ∉ l.*1 -> map_index l k = "".
Proof.
  induction l as [|[k' v'] l IH]; intros Hk; [done|].
  rewrite fmap_cons in Hk. apply not_elem_of_cons in Hk as [Hne Hk].
  cbn [map_index]. destruct (String.eqb_spec k' k) as [->|_]; [done|by apply IH].
Qed.

Lemma map_index_lookup (l : GoMap string) (m : gmap string string) (k : string) :
  l ≡ₚ map_to_list m -> map_index l k = default "" (m !! k).
Proof.
  intros Hl.
  assert (Hnd : NoDup l.*1) by (rewrite Hl; apply NoDup_fst_map_to_list).
  destruct (m !! k) as [v|] eqn:Hk; cbn [default].
  - apply map_index_elem; [done|]. rewrite Hl. by apply elem_of_map_to_list.
  - apply map_index_missing. rewrite Hl. intros Hin.
    apply list_elem_of_fmap in Hin as ([k' v] & -> & Hin).
    apply elem_of_map_to_list in Hin. cbn in Hk. congruence.
Qed.

End MapIndex.

Lemma normalizeSemver_prefix (s : string) :
  GoStrings.HasPrefix (normalizeSemver s) "v" = true.
Proof.
  unfold normalizeSemver. destruct (GoStrings.HasPrefix s "v") eqn:H; [done|].
  cbn [negb]. apply HasPrefix_app.
Qed.

(** X1: [DistTags.UnmarshalJSON] keeps one tag of the object, "latest",
    whatever the order in which the map is visited, and normalizes it; an
    object without that tag gives the latest version "v", and the field
    always starts with "v". *)
Theorem DistTags_latest_by_key (tags : DistTags.t) (m : gmap string string)
    (l : GoMap string) :
  l ≡ₚ map_to_list m ->
  DistTags_UnmarshalJSON tags (inr l)
  = (DistTags.mk (normalizeSemver (default "" (m !! "latest"))), None)
  /\ (m !! "latest" = None ->
      DistTags.Latest (DistTags_UnmarshalJSON tags (inr l)).1 = "v")
  /\ GoStrings.HasPrefix
       (DistTags.Latest (DistTags_UnmarshalJSON tags (inr l)).1) "v" = true.
Proof.
  intros Hl. unfold DistTags_UnmarshalJSON. rewrite (map_index_lookup l m) by done.
  cbn [fst DistTags.Latest]. split; [done|]. split.
  - by intros ->.
  - apply normalizeSemver_prefix.
Qed.

Lemma DistTags_latest_by_key_witness :
  DistTags_UnmarshalJSON DistTags.zero (inr [("next", "4.0.0-rc.1"); ("latest", "3.3.3")])
  = (DistTags.mk (normalizeSemver
       (default "" (two_tags !! "latest"))), None)
  /\ ((two_tags !! "latest" = None ->
      DistTags.Latest (DistTags_UnmarshalJSON DistTags.zero
         (inr [("next", "4.0.0-rc.1"); ("latest", "3.3.3")])).1 = "v"))
  /\ GoStrings.HasPrefix
       (DistTags.Latest (DistTags_UnmarshalJSON DistTags.zero
          (inr [("next", "4.0.0-rc.1"); ("latest", "3.3.3")])).1) "v" = true.
Proof.
  apply (DistTags_latest_by_key DistTags.zero two_tags).
  refine (bool_decide_unpack _ _). vm_compute. exact I.
Defined.

(** X2: the comparison that [Versions.UnmarshalJSON] hands to [sort.Slice]
    is a strict weak order on all entries, whether their version strings
    are valid semantic versions or not, and only entries with one and the
    same version string tie. *)
Theorem Versions_less_orders_version_strings :
  (forall a, Versions_less a a = false)
  /\ (forall a b c, Versions_less a b = true -> Versions_less b c = true ->
        Versions_less a c = true)
  /\ (forall a b c, Versions_less a b = false -> Versions_less b c = false ->
        Versions_less a c = false)
  /\ (forall a b, Versions_less a b = false -> Versions_less b a = false ->
        Version.Version a = Version.Version b).
Proof.
  destruct Versions_less_strict_weak_order as (Hirr & Htrans & Hneg).
  repeat split; [done..|]. intros a b. apply version_string_less_total.
Qed.

Section EscapeFacts.

Lemma no_marker_cons (c : ascii) (s : string) :
  GoStrings.Contains (String c s) "@" = false ->
  Ascii.eqb c "@" = false /\ GoStrings.Contains s "@" = false.
Proof.
  rewrite Contains_cons, prefix_cons, prefix_empty, andb_true_r, Ascii.eqb_sym.
  by intros [? ?]%orb_false_iff.
Qed.

Lemma Escape_unmarked (s : string) :
  GoStrings.Contains s "@" = false -> EscapePackage s = s.
Proof.
  induction s as [|c s IH]; [done|]. intros [Hc Hs]%no_marker_cons.
  by rewrite Escape_cons, Hc, IH.
Qed.

Lemma Escape_UnEscape_fuel (n : nat) (y : string) :
  (String.length y <= n)%nat -> GoStrings.Contains y "@" = false ->
  EscapePackage (UnEscapePackage y) = y.
Proof.
  revert y. induction n as [|n IH]; intros y Hn Hy.
  { destruct y; [done|simpl in Hn; lia]. }
  destruct y as [|c y]; [done|].
  destruct (String.prefix "___" (String c y)) eqn:Hp.
  - apply prefix_split in Hp as [r Hr]. rewrite Hr, UnEscape_marker, Escape_cons.
    cbn [Ascii.eqb Bool.eqb andb]. rewrite IH; [done| |].
    + rewrite Hr, !append_cons, append_empty in Hn. cbn in Hn. lia.
    + rewrite Hr, !append_cons, append_empty in Hy.
      by repeat (apply no_marker_cons in Hy as [_ Hy]).
  - apply no_marker_cons in Hy as [Hc Hy].
    rewrite UnEscape_other, Escape_cons, Hc by done.
    rewrite IH; [done|simpl in Hn; lia|done].
Qed.

End EscapeFacts.

(** X3: on a string without "@", as a module path is, [EscapePackage]
    undoes [UnEscapePackage]. *)
Theorem EscapePackage_inverts_UnEscapePackage (y : string) :
  GoStrings.Contains y "@" = false ->
  EscapePackage (UnEscapePackage y) = y.
Proof. apply (Escape_UnEscape_fuel (String.length y)). lia. Qed.

Lemma EscapePackage_inverts_UnEscapePackage_witness :
  EscapePackage (UnEscapePackage "___scope/some____pkg") = "___scope/some____pkg".
Proof. by apply EscapePackage_inverts_UnEscapePackage. Defined.

(** X4: an escaped name holds no "@"; escaping twice is escaping once, and
    a name is its own escaped form exactly when it holds no "@". *)
Theorem EscapePackage_removes_every_marker (x : string) :
  GoStrings.Contains (EscapePackage x) "@" = false
  /\ EscapePackage (EscapePackage x) = EscapePackage x
  /\ (EscapePackage x = x <-> GoStrings.Contains x "@" = false).
Proof.
  pose proof (Escape_no_marker x) as H. split; [done|]. split.
  - by apply Escape_unmarked.
  - split; [by intros <-|apply Escape_unmarked].
Qed.

(** ** The registry client and the read-only handlers *)

Section FetchFacts.

Variable sort_Slice : forall A : Type, (A -> A -> bool) -> list A -> list A.
Variable w : World.

(** The versions of a fetched package: none without the "versions" member,
    else the sorted entries of the map. *)
Lemma decode_NpmPackage_versions (d : PackageDoc) :
  NpmPackage.Versions (decode_NpmPackage sort_Slice NpmPackage.zero d).1 =
  match doc_versions d with
  | None => []
  | Some m =>
      sort_Slice _ Versions_less
        ((fun kd => normalized (decode_Version sort_Slice kd.2).1) <$> m)
  end.
Proof.
  unfold decode_NpmPackage.
  destruct (doc_dist_tags d); cbn; (destruct (doc_versions d) as [m|]; [|done]);
    rewrite decode_Version_map_ok, Versions_UnmarshalJSON_ok; cbn;
    by rewrite <- list_fmap_compose.
Qed.

Lemma FetchPackage_versions (s : string) :
  NpmPackage.Versions (FetchPackage sort_Slice w s).1 = []
  \/ exists d, NpmPackage.Versions (FetchPackage sort_Slice w s).1
               = NpmPackage.Versions (decode_NpmPackage sort_Slice NpmPackage.zero d).1.
Proof.
  unfold FetchPackage.
  destruct (http_NewRequest_err w _ _); [by left|].
  destruct (http_Do w _) as [e|r]; [by left|].
  unfold Decoder_Decode. destruct (Body r) as [|c body].
  { destruct (BodyErr r); by left. }
  destruct (json_document w _) as [e|d]; [by left|]. right. exists d.
  by destruct (decode_NpmPackage sort_Slice NpmPackage.zero d).
Qed.

Lemma FetchPackage_versions_prefixed (s : string) :
  sort_Slice_contract sort_Slice ->
  Forall (fun v => GoStrings.HasPrefix (Version.Version v) "v" = true)
    (NpmPackage.Versions (FetchPackage sort_Slice w s).1).
Proof.
  intros Hsort. destruct (FetchPackage_versions s) as [->|[d ->]]; [constructor|].
  rewrite decode_NpmPackage_versions. destruct (doc_versions d) as [m|]; [|constructor].
  destruct (Hsort _ Versions_less
              ((fun kd => normalized (decode_Version sort_Slice kd.2).1) <$> m)
              Versions_less_strict_weak_order) as [Hp _].
  rewrite Hp. apply Forall_fmap, Forall_forall. intros kd _.
  apply normalizeSemver_prefix.
Qed.

Lemma FetchPackageVersion_find (pack version : string) :
  FetchPackageVersion sort_Slice w pack version =
  match FetchPackage sort_Slice w pack with
  | (_, Some err) => (Version.zero, Some err)
  | (npmpkg, None) =>
      match find (fun x => String.eqb (Version.Version x) version)
              (NpmPackage.Versions npmpkg) with
      | Some npmv => (npmv, None)
      | None => (List.last (NpmPackage.Versions npmpkg) Version.zero,
                 Some (error_version_not_found version pack))
      end
  end.
Proof.
  unfold FetchPackageVersion.
  destruct (FetchPackage sort_Slice w pack) as [npmpkg [err|]]; [done|].
  unfold ByVersion. rewrite ByVersion_loop_find. by destruct (find _ _).
Qed.

End FetchFacts.

(** X5: every version of a fetched package starts with "v", so a request
    for a version written without it, as npm writes versions, finds
    nothing: it fails, with "version not found" when the fetch went
    well. *)
Theorem FetchPackageVersion_needs_v_prefix
    (sort_Slice : forall A : Type, (A -> A -> bool) -> list A -> list A)
    (w : World) (pack version : string) :
  sort_Slice_contract sort_Slice ->
  GoStrings.HasPrefix version "v" = false ->
  Forall (fun v => GoStrings.HasPrefix (Version.Version v) "v" = true)
    (NpmPackage.Versions (FetchPackage sort_Slice w pack).1)
  /\ (FetchPackageVersion sort_Slice w pack version).2 <> None
  /\ ((FetchPackage sort_Slice w pack).2 = None ->
      (FetchPackageVersion sort_Slice w pack version).2
      = Some (error_version_not_found version pack)).
Proof.
  intros Hsort Hbare.
  pose proof (FetchPackage_versions_prefixed sort_Slice w pack Hsort) as Hall.
  split; [done|].
  rewrite FetchPackageVersion_find.
  destruct (FetchPackage sort_Slice w pack) as [npmpkg [err|]]; cbn [fst snd] in *.
  - by split.
  - destruct (find _ _) as [npmv|] eqn:Hfind; [|by split].
    exfalso. apply find_some in Hfind as [Hin Heq].
    apply String.eqb_eq in Heq. rewrite Forall_forall in Hall.
    apply list_elem_of_In in Hin. specialize (Hall npmv Hin). congruence.
Qed.

Lemma FetchPackageVersion_needs_v_prefix_witness :
  Forall (fun v => GoStrings.HasPrefix (Version.Version v) "v" = true)
    (NpmPackage.Versions (FetchPackage insertionSort world_alpinejs "alpinejs").1)
  /\ (FetchPackageVersion insertionSort world_alpinejs "alpinejs" "3.3.3").2 <> None
  /\ ((FetchPackage insertionSort world_alpinejs "alpinejs").2 = None ->
      (FetchPackageVersion insertionSort world_alpinejs "alpinejs" "3.3.3").2
      = Some (error_version_not_found "3.3.3" "alpinejs")).
Proof.
  apply (FetchPackageVersion_needs_v_prefix insertionSort world_alpinejs
           "alpinejs" "3.3.3"); [exact insertionSort_contract|reflexivity].
Defined.

(** X6: the list handler writes the version strings of the fetched package,
    one per line, and the info handler answers with the requested version
    exactly when it is one of them; for any other version it fails with
    "version not found". *)
Theorem listed_versions_have_info
    (sort_Slice : forall A : Type, (A -> A -> bool) -> list A -> list A)
    (w : World) (mctx : moduleContext) (fs : FS) (npmpkg : NpmPackage.t) :
  FetchPackage sort_Slice w (NpmPackage_ mctx) = (npmpkg, None) ->
  List sort_Slice w mctx fs
  = (Written (GoStrings.Join (Version.Version <$> NpmPackage.Versions npmpkg) nl), fs)
  /\ (Version_ mctx ∈ Version.Version <$> NpmPackage.Versions npmpkg ->
      Info sort_Slice w mctx fs = (Encoded_versionInfo (Version_ mctx), fs))
  /\ (Version_ mctx ∉ Version.Version <$> NpmPackage.Versions npmpkg ->
      Info sort_Slice w mctx fs
      = (fail "failed to fetch package version"
           (error_version_not_found (Version_ mctx) (NpmPackage_ mctx)), fs)).
Proof.
  intros Hfetch. split; [|split].
  - unfold List. rewrite Hfetch. do 3 f_equal.
    rewrite (fold_left_snoc Version.Version); done.
  - intros Hin. unfold Info. rewrite FetchPackageVersion_find, Hfetch.
    destruct (find _ _) as [npmv|] eqn:Hfind.
    + apply find_some in Hfind as [_ Heq]. apply String.eqb_eq in Heq. by rewrite Heq.
    + exfalso. apply list_elem_of_fmap in Hin as (x & Hx & Hin).
      apply list_elem_of_In in Hin.
      pose proof (find_none _ _ Hfind x Hin) as Hno. cbn in Hno.
      rewrite <- Hx, String.eqb_refl in Hno. done.
  - intros Hout. unfold Info. rewrite FetchPackageVersion_find, Hfetch.
    destruct (find _ _) as [npmv|] eqn:Hfind; [|done].
    exfalso. apply find_some in Hfind as [Hin Heq]. apply String.eqb_eq in Heq.
    apply Hout. rewrite <- Heq. apply list_elem_of_fmap_2. by apply list_elem_of_In.
Qed.

Lemma listed_versions_have_info_witness :
  List insertionSort world_alpinejs alpinejs_request fs_start
  = (Written (GoStrings.Join
       (Version.Version <$> NpmPackage.Versions
          (FetchPackage insertionSort world_alpinejs "alpinejs").1) nl), fs_start)
  /\ (Version_ alpinejs_request ∈ Version.Version <$> NpmPackage.Versions
          (FetchPackage insertionSort world_alpinejs "alpinejs").1 ->
      Info insertionSort world_alpinejs alpinejs_request fs_start
      = (Encoded_versionInfo (Version_ alpinejs_request), fs_start))
  /\ (Version_ alpinejs_request ∉ Version.Version <$> NpmPackage.Versions
          (FetchPackage insertionSort world_alpinejs "alpinejs").1 ->
      Info insertionSort world_alpinejs alpinejs_request fs_start
      = (fail "failed to fetch package version"
           (error_version_not_found (Version_ alpinejs_request)
              (NpmPackage_ alpinejs_request)), fs_start)).
Proof.
  apply (listed_versions_have_info insertionSort world_alpinejs alpinejs_request
           fs_start (FetchPackage insertionSort world_alpinejs "alpinejs").1).
  reflexivity.
Defined.

(** X7: [FetchPackage] does not look at the status line of the registry's
    answer: with any other status code and text the result is the same. *)
Theorem FetchPackage_ignores_status
    (sort_Slice : forall A : Type, (A -> A -> bool) -> list A -> list A)
    (w : World) (code : Z) (status s : string) :
  FetchPackage sort_Slice (answer_with_status code status w) s
  = FetchPackage sort_Slice w s.
Proof.
  unfold FetchPackage. cbn [answer_with_status http_NewRequest_err http_Do].
  destruct (http_NewRequest_err w _ _); [done|].
  destruct (http_Do w _) as [e|r]; [done|].
  unfold Decoder_Decode. cbn [Body BodyErr json_document]. done.
Qed.

Section ModFacts.

Lemma requires_by_name (deps deps' : Dependencies) (acc : string) :
  Dependency.Name <$> deps = Dependency.Name <$> deps' ->
  fold_left (fun requires dep => requires +:+ depLine dep) deps acc
  = fold_left (fun requires dep => requires +:+ depLine dep) deps' acc.
Proof.
  revert deps' acc. induction deps as [|d deps IH]; intros [|d' deps'] acc H;
    try done.
  rewrite !fmap_cons in H. injection H as Hd H. cbn [fold_left].
  assert (Hline : depLine d = depLine d') by (unfold depLine; by rewrite Hd).
  rewrite Hline. by apply IH.
Qed.

End ModFacts.

(** X8: the go.mod that the mod handler writes depends on the names of
    the dependencies only, not on their version ranges: two versions of
    a package with the same dependency names get the same file. *)
Theorem Mod_ignores_version_ranges
    (sort_Slice : forall A : Type, (A -> A -> bool) -> list A -> list A)
    (w : World) (mctx mctx' : moduleContext) (fs : FS) (npmv npmv' : Version.t) :
  FetchPackageVersion sort_Slice w (NpmPackage_ mctx) (Version_ mctx) = (npmv, None) ->
  FetchPackageVersion sort_Slice w (NpmPackage_ mctx') (Version_ mctx') = (npmv', None) ->
  NpmPackage_ mctx = NpmPackage_ mctx' ->
  PathMajorVersion mctx = PathMajorVersion mctx' ->
  Dependency.Name <$> Version.Dependencies npmv
  = Dependency.Name <$> Version.Dependencies npmv' ->
  Mod sort_Slice w mctx fs = Mod sort_Slice w mctx' fs.
Proof.
  intros Hv Hv' Hpack Hmajor Hnames. unfold Mod. rewrite Hv, Hv', Hpack, Hmajor.
  assert (Hlen : length (Version.Dependencies npmv)
                 = length (Version.Dependencies npmv')).
  { by rewrite <- (length_fmap Dependency.Name), Hnames, length_fmap. }
  rewrite Hlen. by rewrite (requires_by_name _ _ _ Hnames).
Qed.

Lemma Mod_ignores_version_ranges_witness :
  Mod insertionSort world_alpinejs alpinejs_request fs_start
  = Mod insertionSort world_alpinejs
      {| NpmPackage_ := "alpinejs"; Version_ := "v3.10.0"; PathMajorVersion := "" |}
      fs_start.
Proof.
  apply (Mod_ignores_version_ranges insertionSort world_alpinejs alpinejs_request
           {| NpmPackage_ := "alpinejs"; Version_ := "v3.10.0"; PathMajorVersion := "" |}
           fs_start
           (FetchPackageVersion insertionSort world_alpinejs "alpinejs" "v3.3.3").1
           (FetchPackageVersion insertionSort world_alpinejs "alpinejs" "v3.10.0").1);
    reflexivity.
Defined.

(** ** Downloading the tarball *)

Section DownloadFacts.

Variable w : World.

Lemma os_Create_ok (path : string) (fs : FS) :
  is_dir fs path = false -> is_dir fs (GoPath.Dir path) = true ->
  os_Create path fs = inr (<[path := File ""]> fs).
Proof. intros H1 H2. unfold os_Create. by rewrite H1, H2. Qed.

Lemma os_Create_inv (path : string) (fs fs' : FS) :
  os_Create path fs = inr fs' ->
  is_dir fs path = false /\ is_dir fs (GoPath.Dir path) = true
  /\ fs' = <[path := File ""]> fs.
Proof.
  unfold os_Create. destruct (is_dir fs path); [done|].
  destruct (is_dir fs (GoPath.Dir path)); [|done]. by intros [= <-].
Qed.

Lemma downloadTarball_ok (dist : Dist.t) (target : string) (fs fs' : FS) :
  downloadTarball w dist target fs = (None, fs') ->
  exists resp,
    is_dir fs target = false /\ is_dir fs (GoPath.Dir target) = true
    /\ http_Get w (Dist.Tarball dist) = inr resp
    /\ StatusCode resp = 200 /\ BodyErr resp = None
    /\ sha1_hex w (Body resp) = Dist.ShaSum dist
    /\ fs' = <[target := File (Body resp)]> fs.
Proof.
  unfold downloadTarball.
  destruct (os_Create target fs) as [err|fs1] eqn:Hcreate; [done|].
  apply os_Create_inv in Hcreate as (Hfile & Hdir & ->).
  destruct (http_Get w (Dist.Tarball dist)) as [err|resp]; [done|].
  destruct (Z.eqb_spec (StatusCode resp) 200) as [Hcode|]; [|done]. cbn [negb].
  destruct (BodyErr resp) as [err|] eqn:Herr; [done|].
  destruct (String.eqb_spec (sha1_hex w (Body resp)) (Dist.ShaSum dist)) as [Hsha|];
    [|done].
  intros [= <-]. exists resp. repeat split; try done.
  unfold write_file. by rewrite insert_insert_eq.
Qed.

Lemma downloadTarball_frame (dist : Dist.t) (target : string) (fs : FS) (path : string) :
  path <> target -> (downloadTarball w dist target fs).2 !! path = fs !! path.
Proof.
  intros Hne. unfold downloadTarball.
  destruct (os_Create target fs) as [err|fs1] eqn:Hcreate; [done|].
  apply os_Create_inv in Hcreate as (_ & _ & ->). unfold write_file.
  repeat case_match; cbn [snd]; by rewrite ?lookup_insert_ne.
Qed.

End DownloadFacts.

(** X9: [downloadTarball] returns no error exactly when the target can be
    created, the host answers 200 with a body that is read to its end, and
    the SHA-1 of the body is the declared checksum; the target then holds
    that body. *)
Theorem downloadTarball_succeeds_iff (w : World) (dist : Dist.t) (target : string)
    (fs : FS) :
  (downloadTarball w dist target fs).1 = None <->
  exists resp,
    is_dir fs target = false /\ is_dir fs (GoPath.Dir target) = true
    /\ http_Get w (Dist.Tarball dist) = inr resp
    /\ StatusCode resp = 200 /\ BodyErr resp = None
    /\ sha1_hex w (Body resp) = Dist.ShaSum dist
    /\ (downloadTarball w dist target fs).2 = <[target := File (Body resp)]> fs.
Proof.
  split.
  - destruct (downloadTarball w dist target fs) as [err fs'] eqn:Hrun.
    cbn [fst snd]. intros ->.
    destruct (downloadTarball_ok w dist target fs fs' Hrun)
      as (resp & ? & ? & ? & ? & ? & ? & ?).
    by exists resp.
  - intros (resp & Hfile & Hdir & Hget & Hcode & Herr & Hsha & _).
    unfold downloadTarball.
    rewrite (os_Create_ok target fs Hfile Hdir), Hget, Hcode, Herr, Hsha.
    by rewrite String.eqb_refl.
Qed.

(** X10: [downloadTarball] changes no path but its target.  When the target
    cannot be created the file system stays as it was and that error is
    returned; when it can, a file is left there also on failure, whatever
    was there before: empty when the request failed or the status is not
    200, and holding the body of the answer otherwise. *)
Theorem downloadTarball_touches_only_target (w : World) (dist : Dist.t)
    (target : string) (fs : FS) :
  (forall path, path <> target ->
     (downloadTarball w dist target fs).2 !! path = fs !! path)
  /\ (forall err, os_Create target fs = inl err ->
        downloadTarball w dist target fs = (Some err, fs))
  /\ (forall fs1, os_Create target fs = inr fs1 ->
        (downloadTarball w dist target fs).2 !! target
        = Some (File match http_Get w (Dist.Tarball dist) with
                     | inr resp =>
                         if StatusCode resp =? 200 then Body resp else ""
                     | inl _ => ""
                     end)).
Proof.
  unfold downloadTarball.
  destruct (os_Create target fs) as [err|fs1] eqn:Hcreate.
  { split; [done|]. split; [by intros ? [= <-]|by intros ? [=]]. }
  apply os_Create_inv in Hcreate as (_ & _ & ->).
  split; [|split; [by intros ? [=]|]].
  - intros path Hne. unfold write_file.
    repeat case_match; cbn [snd]; by rewrite ?lookup_insert_ne.
  - intros _ _. unfold write_file.
    destruct (http_Get w (Dist.Tarball dist)) as [err|resp]; cbn [snd].
    { by rewrite lookup_insert_eq. }
    destruct (StatusCode resp =? 200); cbn [negb snd].
    2:{ by rewrite lookup_insert_eq. }
    repeat case_match; cbn [snd]; by rewrite lookup_insert_eq.
Qed.

(** ** Dispatch *)

Section RoutingFacts.

Lemma HasSuffix_refl (s : string) : GoStrings.HasSuffix s s = true.
Proof.
  unfold GoStrings.HasSuffix. rewrite Nat.leb_refl, Nat.sub_diag. cbn.
  apply String.eqb_refl.
Qed.

Lemma HasSuffix_cons (c : ascii) (s suffix : string) :
  GoStrings.HasSuffix s suffix = true -> GoStrings.HasSuffix (String c s) suffix = true.
Proof.
  unfold GoStrings.HasSuffix. intros [Hlen Heq]%andb_true_iff.
  apply Nat.leb_le in Hlen. cbn [String.length].
  apply andb_true_iff. split; [apply Nat.leb_le; lia|].
  replace (S (String.length s) - String.length suffix)%nat
    with (S (String.length s - String.length suffix)) by lia.
  done.
Qed.

Lemma captures_lits_eq (a s : string) :
  regexp.captures (regexp.lits a) s <> None -> s = a.
Proof.
  revert s. induction a as [|c a IH]; intros s; [by destruct s|].
  destruct s as [|d s]; [done|]. cbn [regexp.lits regexp.captures].
  destruct (Ascii.eqb_spec c d) as [->|]; [|done]. intros H. by rewrite (IH s H).
Qed.

(** A pattern that ends in literal bytes matches only a text that ends in
    them. *)
Lemma captures_suffix (p : list regexp.item) (suffix s : string) :
  regexp.captures (p ++ regexp.lits suffix) s <> None ->
  GoStrings.HasSuffix s suffix = true.
Proof.
  revert s. induction p as [|i p IH]; intros s.
  - cbn [app]. intros H. rewrite (captures_lits_eq suffix s H). apply HasSuffix_refl.
  - destruct i as [c| |].
    + destruct s as [|d s]; [done|]. cbn [app regexp.captures].
      destruct (Ascii.eqb c d); [|done]. intros H. by apply HasSuffix_cons, IH.
    + destruct s as [|d s]; [done|]. cbn [app regexp.captures].
      destruct (Ascii.eqb d regexp.newline); [done|].
      intros H. by apply HasSuffix_cons, IH.
    + change ((regexp.group_dot_star :: p) ++ regexp.lits suffix)
        with (regexp.group_dot_star :: (p ++ regexp.lits suffix)).
      induction s as [|d s IHs]; rewrite captures_star_unfold; cbv zeta.
      * intros H. apply IH. by destruct (regexp.captures _ "").
      * destruct (Ascii.eqb d regexp.newline).
        { intros H. apply IH. by destruct (regexp.captures (p ++ _) (String d s)). }
        destruct (regexp.captures (regexp.group_dot_star :: _) s) as [[|g caps]|] eqn:Hs.
        -- intros H. apply IH. by destruct (regexp.captures (p ++ _) (String d s)).
        -- intros _. by apply HasSuffix_cons, IHs.
        -- intros H. apply IH. by destruct (regexp.captures (p ++ _) (String d s)).
Qed.

Lemma captures_no_newline (p : list regexp.item) (s : string) :
  newline_free p = true -> regexp.captures p s <> None ->
  GoStrings.Contains s nl = false.
Proof.
  revert s. induction p as [|i p IH]; intros s Hp.
  - by destruct s.
  - cbn [newline_free forallb] in Hp. apply andb_true_iff in Hp as [Hi Hp].
    specialize (fun s => IH s Hp).
    assert (Hcons : forall d s', Ascii.eqb d regexp.newline = false ->
              GoStrings.Contains s' nl = false ->
              GoStrings.Contains (String d s') nl = false).
    { intros d s' Hd Hs'. rewrite Contains_cons, Hs', orb_false_r.
      unfold nl. rewrite prefix_cons, prefix_empty, andb_true_r, Ascii.eqb_sym.
      exact Hd. }
    destruct i as [c| |].
    + destruct s as [|d s]; [done|]. cbn [regexp.captures].
      destruct (Ascii.eqb_spec c d) as [->|]; [|done]. intros H.
      apply Hcons; [by apply negb_true_iff|by apply IH].
    + destruct s as [|d s]; [done|]. cbn [regexp.captures].
      destruct (Ascii.eqb d regexp.newline) eqn:Hd; [done|]. intros H.
      apply Hcons; [done|by apply IH].
    + induction s as [|d s IHs]; rewrite captures_star_unfold; cbv zeta.
      * done.
      * destruct (Ascii.eqb d regexp.newline) eqn:Hd.
        { intros H. apply IH. by destruct (regexp.captures p (String d s)). }
        destruct (regexp.captures (regexp.group_dot_star :: p) s) as [[|g caps]|] eqn:Hs.
        -- intros H. apply IH. by destruct (regexp.captures p (String d s)).
        -- intros _. apply Hcons; [done|]. by apply IHs.
        -- intros H. apply IH. by destruct (regexp.captures p (String d s)).
Qed.

End RoutingFacts.

Section Dispatch.

Variable sort_Slice : forall A : Type, (A -> A -> bool) -> list A -> list A.
Variable w : World.

Lemma HasSuffix_last_byte (s suffix : string) :
  GoStrings.HasSuffix s suffix = true -> suffix <> "" ->
  last_byte s = last_byte suffix.
Proof.
  unfold GoStrings.HasSuffix. intros [Hlen Heq]%andb_true_iff Hne.
  apply Nat.leb_le in Hlen. apply String.eqb_eq in Heq.
  remember (String.length s - String.length suffix)%nat as n eqn:Hn.
  clear Hn Hlen. revert s Heq. induction n as [|n IH]; intros s Heq.
  - cbn in Heq. by subst.
  - destruct s as [|c s]; [cbn in Heq; by subst|].
    cbn [GoStrings.drop_bytes] in Heq. rewrite <- (IH s Heq).
    destruct s as [|d s]; [|done].
    destruct n; cbn in Heq; by subst.
Qed.

Lemma pattern_last_byte (p : list regexp.item) (suffix path : string) :
  regexp.FindStringSubmatch (p ++ regexp.lits suffix) path <> None ->
  suffix <> "" -> last_byte path = last_byte suffix.
Proof.
  intros H Hne. apply HasSuffix_last_byte; [|done].
  apply (captures_suffix p). unfold regexp.FindStringSubmatch in H.
  by destruct (regexp.captures _ _).
Qed.

Lemma apiList_last_byte (path : string) :
  regexp.FindStringSubmatch apiList path <> None -> last_byte path = Some "t"%char.
Proof.
  intros H.
  apply (pattern_last_byte (regexp.lits "/" ++ [regexp.group_dot_star]) "/@v/list");
    [|done].
  by rewrite <- app_assoc.
Qed.

Lemma versioned_last_byte (suffix path : string) :
  regexp.FindStringSubmatch (versioned_pattern suffix) path <> None ->
  suffix <> "" -> last_byte path = last_byte suffix.
Proof.
  intros H Hne.
  apply (pattern_last_byte
           (regexp.lits "/" ++ [regexp.group_dot_star] ++ regexp.lits "/@v/"
            ++ [regexp.group_dot_star; regexp.dot]) suffix); [|done].
  by rewrite <- !app_assoc.
Qed.

(** The route that serves a path, by the last byte of the path. *)
Lemma find_route_last_byte (path : string) (r : route) (m : list string) :
  find_route (routes sort_Slice w) path = Some (r, m) ->
  regexp.FindStringSubmatch (route_regexp r) path = Some m
  /\ ((r = {| route_id := "list"; route_regexp := apiList;
              route_handler := List sort_Slice w |}
       /\ last_byte path = Some "t"%char)
      \/ (r = {| route_id := "info"; route_regexp := apiInfo;
                 route_handler := Info sort_Slice w |}
          /\ last_byte path = Some "o"%char)
      \/ (r = {| route_id := "npmgomodproxy"; route_regexp := apiMod;
                 route_handler := Mod sort_Slice w |}
          /\ last_byte path = Some "d"%char)
      \/ (r = {| route_id := "zip"; route_regexp := apiZip;
                 route_handler := Zip sort_Slice w |}
          /\ last_byte path = Some "p"%char)).
Proof.
  unfold routes. cbn [find_route route_regexp].
  destruct (regexp.FindStringSubmatch apiList path) as [m0|] eqn:H0.
  { intros [= <- <-]. split; [done|]. left. split; [done|].
    apply apiList_last_byte. by rewrite H0. }
  destruct (regexp.FindStringSubmatch apiInfo path) as [m1|] eqn:H1.
  { intros [= <- <-]. split; [done|]. right. left. split; [done|].
    apply (versioned_last_byte "info"); [|done].
    change (versioned_pattern "info") with apiInfo. by rewrite H1. }
  destruct (regexp.FindStringSubmatch apiMod path) as [m2|] eqn:H2.
  { intros [= <- <-]. split; [done|]. right. right. left. split; [done|].
    apply (versioned_last_byte "mod"); [|done].
    change (versioned_pattern "mod") with apiMod. by rewrite H2. }
  destruct (regexp.FindStringSubmatch apiZip path) as [m3|] eqn:H3; [|done].
  intros [= <- <-]. split; [done|]. right. right. right. split; [done|].
  apply (versioned_last_byte "zip"); [|done].
  change (versioned_pattern "zip") with apiZip. by rewrite H3.
Qed.

Lemma read_only_handlers (mctx : moduleContext) (fs : FS) :
  (List sort_Slice w mctx fs).2 = fs
  /\ (Info sort_Slice w mctx fs).2 = fs
  /\ (Mod sort_Slice w mctx fs).2 = fs.
Proof. unfold List, Info, Mod. repeat split; by repeat case_match. Qed.

Lemma serve_route_read_only (r : route) (m : list string) (fs : FS) :
  (forall mctx, (route_handler r mctx fs).2 = fs) ->
  (serve_route w r m fs).2 = fs.
Proof.
  intros H. unfold serve_route. by repeat case_match.
Qed.

End Dispatch.

(** X11: no path matches two of the four route patterns, so the order of
    the routes in [ServeHTTP] decides nothing. *)
Theorem route_patterns_exclusive (path : string) :
  (regexp.FindStringSubmatch apiList path <> None ->
   regexp.FindStringSubmatch apiInfo path = None
   /\ regexp.FindStringSubmatch apiMod path = None
   /\ regexp.FindStringSubmatch apiZip path = None)
  /\ (regexp.FindStringSubmatch apiInfo path <> None ->
      regexp.FindStringSubmatch apiMod path = None
      /\ regexp.FindStringSubmatch apiZip path = None)
  /\ (regexp.FindStringSubmatch apiMod path <> None ->
      regexp.FindStringSubmatch apiZip path = None).
Proof.
  assert (H0 := apiList_last_byte path).
  assert (H1 := versioned_last_byte "info" path).
  assert (H2 := versioned_last_byte "mod" path).
  assert (H3 := versioned_last_byte "zip" path).
  change (versioned_pattern "info") with apiInfo in H1.
  change (versioned_pattern "mod") with apiMod in H2.
  change (versioned_pattern "zip") with apiZip in H3.
  assert (Hsome : forall m : list string, Some m <> None) by done.
  destruct (regexp.FindStringSubmatch apiList path);
    [specialize (H0 (Hsome _))|clear H0];
    (destruct (regexp.FindStringSubmatch apiInfo path);
     [specialize (H1 (Hsome _) ltac:(done))|clear H1]);
    (destruct (regexp.FindStringSubmatch apiMod path);
     [specialize (H2 (Hsome _) ltac:(done))|clear H2]);
    (destruct (regexp.FindStringSubmatch apiZip path);
     [specialize (H3 (Hsome _) ltac:(done))|clear H3]);
    cbn in *; try congruence; repeat split; try done.
Qed.

(** X12: only a request whose path ends in "p", as the zip route's do,
    changes the file system; list, info and mod requests, and requests
    that are refused, leave it as it is. *)
Theorem only_zip_requests_touch_the_disk
    (sort_Slice : forall A : Type, (A -> A -> bool) -> list A -> list A)
    (w : World) (method path : string) (fs : FS) :
  last_byte path <> Some "p"%char ->
  (ServeHTTP sort_Slice w method path fs).2 = fs.
Proof.
  intros Hlast. unfold ServeHTTP.
  destruct (String.eqb method "DELETE"); [done|].
  destruct (negb _); [done|].
  destruct (find_route _ path) as [[r m]|] eqn:Hroute; [|done].
  apply find_route_last_byte in Hroute as [_ [[-> _]|[[-> _]|[[-> _]|[_ Hp]]]]];
    [apply serve_route_read_only; intros mctx;
     apply (read_only_handlers sort_Slice w mctx fs)..|done].
Qed.

Lemma only_zip_requests_touch_the_disk_witness :
  (ServeHTTP insertionSort world_alpinejs "GET"
     "/gohugo.io/npmjs/alpinejs/@v/v3.3.3.mod" fs_start).2 = fs_start.
Proof. by apply only_zip_requests_touch_the_disk. Defined.

(** X13: a path with a newline matches no route (the dot and the groups
    of the patterns stop at a newline): the answer is 404, or 405 for
    DELETE. *)
Theorem newline_in_path_not_found
    (sort_Slice : forall A : Type, (A -> A -> bool) -> list A -> list A)
    (w : World) (method path : string) (fs : FS) :
  GoStrings.Contains path nl = true ->
  ServeHTTP sort_Slice w method path fs
  = (if String.eqb method "DELETE" then StatusMethodNotAllowed else StatusNotFound, fs).
Proof.
  intros Hnl. unfold ServeHTTP.
  destruct (String.eqb method "DELETE"); [done|].
  destruct (negb _); [done|].
  assert (Hno : forall p, newline_free p = true ->
                  regexp.FindStringSubmatch p path = None).
  { intros p Hp. unfold regexp.FindStringSubmatch.
    destruct (regexp.captures p path) as [caps|] eqn:Hc; [|done].
    assert (E : GoStrings.Contains path nl = false)
      by (apply (captures_no_newline p); [done|by rewrite Hc]).
    congruence. }
  unfold routes. cbn [find_route route_regexp].
  by rewrite !Hno.
Qed.

Lemma newline_in_path_not_found_witness :
  ServeHTTP insertionSort world_alpinejs "GET"
    ("/gohugo.io/npmjs/alpinejs" +:+ nl +:+ "/@v/list") fs_start
  = (StatusNotFound, fs_start).
Proof.
  by apply (newline_in_path_not_found insertionSort world_alpinejs "GET").
Defined.

Lemma Contains_middle (a b sub : string) :
  sub <> "" -> GoStrings.Contains (a +:+ sub +:+ b) sub = true.
Proof.
  intros Hne. induction a as [|c a IH].
  - rewrite append_empty. destruct sub as [|d sub]; [done|].
    rewrite append_cons, Contains_cons.
    assert (H : String.prefix (String d sub) (String d (sub +:+ b)) = true).
    { rewrite prefix_cons, Ascii.eqb_refl. clear. induction sub as [|x s IH].
      - apply prefix_empty.
      - by rewrite append_cons, prefix_cons, Ascii.eqb_refl. }
    by rewrite H.
  - rewrite append_cons, Contains_cons, IH. apply orb_true_r.
Qed.

(** C10, as stated, fails: the list pattern has no dot, and takes no
    separator before "list"; and the dot of the other three does not match
    a newline, so that with a newline before "info" the request is not
    found. *)
Lemma route_separator_counterexample :
  ~ In regexp.dot apiList
  /\ regexp.FindStringSubmatch apiList "/gohugo.io/npmjs/alpinejs/@v/v3.3.3Xlist"
     = None
  /\ regexp.FindStringSubmatch apiInfo
       ("/gohugo.io/npmjs/alpinejs/@v/v3.3.3" +:+ nl +:+ "info") = None
  /\ ServeHTTP insertionSort world_alpinejs "GET"
       ("/gohugo.io/npmjs/alpinejs/@v/v3.3.3" +:+ nl +:+ "info") fs_start
     = (StatusNotFound, fs_start).
Proof.
  split; [|by vm_compute].
  intros H. cbn in H. by repeat destruct H as [H|H].
Qed.

(** C10: of the four patterns, the three that take a version have an
    unescaped dot before the suffix, which matches any byte but the newline;
    the list pattern has no dot and matches only a path that ends in
    "/@v/list".  A path that ends in "Xinfo", not in ".info", is routed to
    the info handler, "X" taken as the separator. *)
Theorem route_separator_any_byte_but_newline
    (sort_Slice : forall A : Type, (A -> A -> bool) -> list A -> list A)
    (w : World) (fs : FS) :
  module_EscapePath w "gohugo.io/npmjs/alpinejs" = inr "gohugo.io/npmjs/alpinejs" ->
  module_SplitPathVersion w "gohugo.io/npmjs/alpinejs"
    = ("gohugo.io/npmjs/alpinejs", "", true) ->
  (apiInfo = versioned_pattern "info" /\ apiMod = versioned_pattern "mod"
   /\ apiZip = versioned_pattern "zip")
  /\ (forall (suffix module_ version : string) (c : ascii),
        GoStrings.Contains module_ nl = false ->
        GoStrings.Contains version nl = false ->
        Ascii.eqb c regexp.newline = false ->
        regexp.FindStringSubmatch (versioned_pattern suffix)
          ("/" +:+ module_ +:+ "/@v/" +:+ version +:+ String c suffix) <> None)
  /\ (forall suffix module_ version : string,
        In suffix ["info"; "mod"; "zip"] ->
        regexp.FindStringSubmatch (versioned_pattern suffix)
          ("/" +:+ module_ +:+ "/@v/" +:+ version
           +:+ String regexp.newline suffix) = None)
  /\ (~ In regexp.dot apiList
      /\ forall path,
           regexp.FindStringSubmatch apiList path <> None ->
           GoStrings.HasSuffix path "/@v/list" = true)
  /\ GoStrings.HasSuffix "/gohugo.io/npmjs/alpinejs/@v/v3.3.3Xinfo" ".info" = false
  /\ regexp.FindStringSubmatch apiInfo "/gohugo.io/npmjs/alpinejs/@v/v3.3.3Xinfo"
     = Some ["/gohugo.io/npmjs/alpinejs/@v/v3.3.3Xinfo";
             "gohugo.io/npmjs/alpinejs"; "v3.3.3"]
  /\ (exists r m,
        find_route (routes sort_Slice w) "/gohugo.io/npmjs/alpinejs/@v/v3.3.3Xinfo"
          = Some (r, m)
        /\ route_id r = "info")
  /\ ServeHTTP sort_Slice w "GET" "/gohugo.io/npmjs/alpinejs/@v/v3.3.3Xinfo" fs
     = Info sort_Slice w
         {| NpmPackage_ := "alpinejs"; Version_ := "v3.3.3";
            PathMajorVersion := "" |} fs.
Proof.
  intros Hescape Hsplit.
  assert (Hlist : regexp.FindStringSubmatch apiList
                    "/gohugo.io/npmjs/alpinejs/@v/v3.3.3Xinfo" = None)
    by reflexivity.
  assert (Hinfo : regexp.FindStringSubmatch apiInfo
                    "/gohugo.io/npmjs/alpinejs/@v/v3.3.3Xinfo"
                  = Some ["/gohugo.io/npmjs/alpinejs/@v/v3.3.3Xinfo";
                          "gohugo.io/npmjs/alpinejs"; "v3.3.3"])
    by reflexivity.
  assert (Hroute :
    find_route (routes sort_Slice w) "/gohugo.io/npmjs/alpinejs/@v/v3.3.3Xinfo"
    = Some ({| route_id := "info"; route_regexp := apiInfo;
               route_handler := Info sort_Slice w |},
            ["/gohugo.io/npmjs/alpinejs/@v/v3.3.3Xinfo";
             "gohugo.io/npmjs/alpinejs"; "v3.3.3"])).
  { unfold routes. cbn [find_route route_regexp]. by rewrite Hlist, Hinfo. }
  split; [done|].
  split; [|split; [|split; [|split; [done|split; [done|split]]]]].
  - intros suffix module_ version c Hm Hv Hc.
    unfold regexp.FindStringSubmatch, versioned_pattern.
    assert (H : regexp.captures
                  (regexp.lits "/" ++ [regexp.group_dot_star] ++ regexp.lits "/@v/"
                   ++ [regexp.group_dot_star; regexp.dot] ++ regexp.lits suffix)
                  ("/" +:+ module_ +:+ "/@v/" +:+ version +:+ String c suffix)
                <> None); [|by destruct (regexp.captures _ _)].
    rewrite captures_lits. cbn [app].
    apply captures_star_complete; [done|]. rewrite captures_lits. cbn [app].
    apply captures_star_complete; [done|].
    cbn [regexp.captures]. by rewrite Hc, captures_lits_self.
  - intros suffix module_ version Hsuffix.
    unfold regexp.FindStringSubmatch.
    destruct (regexp.captures (versioned_pattern suffix) _) as [caps|] eqn:Hc;
      [exfalso|done].
    assert (Hfree : newline_free (versioned_pattern suffix) = true).
    { cbn in Hsuffix. by destruct Hsuffix as [<-|[<-|[<-|[]]]]. }
    assert (E : GoStrings.Contains
                  ("/" +:+ module_ +:+ "/@v/" +:+ version
                   +:+ String regexp.newline suffix) nl = false)
      by (apply (captures_no_newline _ _ Hfree); by rewrite Hc).
    assert (E' : "/" +:+ module_ +:+ "/@v/" +:+ version
                 +:+ String regexp.newline suffix
                 = ("/" +:+ module_ +:+ "/@v/" +:+ version) +:+ nl +:+ suffix)
      by by rewrite !append_assoc.
    rewrite E', Contains_middle in E; done.
  - split.
    + intros H. cbn in H. by repeat destruct H as [H|H].
    + intros path H.
      apply (captures_suffix (regexp.lits "/" ++ [regexp.group_dot_star])).
      unfold regexp.FindStringSubmatch, apiList in H. rewrite <- app_assoc.
      by destruct (regexp.captures _ _).
  - by eexists _, _.
  - unfold ServeHTTP.
    change (String.eqb "GET" "DELETE") with false.
    change (GoStrings.HasPrefix "/gohugo.io/npmjs/alpinejs/@v/v3.3.3Xinfo"
              ("/" +:+ npmjsPrefix)) with true.
    cbn [negb]. rewrite Hroute. unfold serve_route.
    change (nth 1 _ "") with "gohugo.io/npmjs/alpinejs".
    rewrite Hescape.
    change (String.eqb "gohugo.io/npmjs/alpinejs" ModPathBase) with false.
    cbv iota. rewrite Hsplit. reflexivity.
Qed.

Lemma route_separator_any_byte_but_newline_witness :
  ServeHTTP insertionSort world_alpinejs "GET"
    "/gohugo.io/npmjs/alpinejs/@v/v3.3.3Xinfo" fs_start
  = Info insertionSort world_alpinejs
      {| NpmPackage_ := "alpinejs"; Version_ := "v3.3.3"; PathMajorVersion := "" |}
      fs_start.
Proof.
  apply (route_separator_any_byte_but_newline insertionSort world_alpinejs fs_start);
    reflexivity.
Defined.

Lemma Contains_slash_append (a b : string) :
  GoStrings.Contains a "/" = false -> GoStrings.Contains b "/" = false ->
  GoStrings.Contains (a +:+ b) "/" = false.
Proof.
  intros Ha Hb. induction a as [|c a IH]; [by rewrite append_empty|].
  apply no_slash_cons in Ha as [Hc Ha]. rewrite append_cons, Contains_cons.
  rewrite (IH Ha), orb_false_r, prefix_cons, Ascii.eqb_sym, Hc. done.
Qed.

Section Captures.

Lemma captures_lits_prefix (a : string) (q : list regexp.item) (s : string) :
  regexp.captures (regexp.lits a ++ q) s <> None -> String.prefix a s = true.
Proof.
  revert s. induction a as [|c a IH]; intros s; [by rewrite prefix_empty|].
  destruct s as [|d s]; [done|]. cbn [regexp.lits app regexp.captures].
  destruct (Ascii.eqb_spec c d) as [->|]; [|done]. intros H.
  by rewrite prefix_cons, Ascii.eqb_refl, (IH s H).
Qed.

(** A group followed by literal bytes matches only a text that has
    them. *)
Lemma captures_star_lits_contains (a : string) (q : list regexp.item) (s : string) :
  regexp.captures (regexp.group_dot_star :: regexp.lits a ++ q) s <> None ->
  GoStrings.Contains s a = true.
Proof.
  assert (Hstop : forall s, regexp.captures (regexp.lits a ++ q) s <> None ->
                            GoStrings.Contains s a = true).
  { intros s' H%captures_lits_prefix. destruct s'; cbn [GoStrings.Contains];
      by rewrite H. }
  induction s as [|d s IH]; rewrite captures_star_unfold; cbv zeta.
  - intros H. apply Hstop. by destruct (regexp.captures _ "").
  - destruct (Ascii.eqb d regexp.newline).
    { intros H. apply Hstop.
      by destruct (regexp.captures (regexp.lits a ++ q) (String d s)). }
    destruct (regexp.captures (regexp.group_dot_star :: _) s) as [[|g caps]|] eqn:Hs.
    + intros H. apply Hstop.
      by destruct (regexp.captures (regexp.lits a ++ q) (String d s)).
    + intros _. rewrite Contains_cons, IH; [apply orb_true_r|done].
    + intros H. apply Hstop.
      by destruct (regexp.captures (regexp.lits a ++ q) (String d s)).
Qed.

Lemma captures_min_length (p : list regexp.item) (s : string) :
  regexp.captures p s <> None -> (min_length p <= String.length s)%nat.
Proof.
  revert s. induction p as [|i p IH]; intros s; [cbn; lia|].
  destruct i as [c| |]; cbn [min_length].
  - destruct s as [|d s]; [done|].
    cbn [regexp.captures]. destruct (Ascii.eqb c d); [|done].
    intros H%IH. cbn [String.length]. lia.
  - destruct s as [|d s]; [done|].
    cbn [regexp.captures]. destruct (Ascii.eqb d regexp.newline); [done|].
    intros H%IH. cbn [String.length]. lia.
  - induction s as [|d s IHs]; rewrite captures_star_unfold; cbv zeta.
    + intros H. apply IH. by destruct (regexp.captures p "").
    + assert (Hstop : regexp.captures p (String d s) <> None ->
                (min_length p <= String.length (String d s))%nat) by apply IH.
      destruct (Ascii.eqb d regexp.newline).
      { intros H. apply Hstop. by destruct (regexp.captures p (String d s)). }
      destruct (regexp.captures (regexp.group_dot_star :: p) s) as [[|g caps]|] eqn:Hs.
      * intros H. apply Hstop. by destruct (regexp.captures p (String d s)).
      * intros _. cbn [String.length]. etrans; [by apply IHs|lia].
      * intros H. apply Hstop. by destruct (regexp.captures p (String d s)).
Qed.

(** A greedy group takes a text without a newline when the rest of the
    pattern matches what follows and the group cannot take more. *)
Lemma captures_star_greedy (q : list regexp.item) (g r : string) (caps : list string) :
  GoStrings.Contains g nl = false ->
  regexp.captures (regexp.group_dot_star :: q) r = Some (EmptyString :: caps) ->
  regexp.captures (regexp.group_dot_star :: q) (g +:+ r) = Some (g :: caps).
Proof.
  intros Hg Hr. induction g as [|d g IH]; [by rewrite append_empty|].
  rewrite Contains_cons in Hg. apply orb_false_iff in Hg as [Hd Hg].
  unfold nl in Hd. rewrite prefix_cons, prefix_empty, andb_true_r in Hd.
  rewrite append_cons, captures_star_unfold. cbv zeta.
  rewrite Ascii.eqb_sym. fold regexp.newline in Hd. by rewrite Hd, (IH Hg).
Qed.

Lemma captures_star_stop (q : list regexp.item) (d : ascii) (r : string)
    (caps : list string) :
  regexp.captures q (String d r) = Some caps ->
  regexp.captures (regexp.group_dot_star :: q) r = None ->
  regexp.captures (regexp.group_dot_star :: q) (String d r) = Some (EmptyString :: caps).
Proof.
  intros Hq Hr. rewrite captures_star_unfold. cbv zeta. rewrite Hq, Hr.
  by destruct (Ascii.eqb d regexp.newline).
Qed.

Lemma lits_length (a : string) : min_length (regexp.lits a) = String.length a.
Proof. induction a as [|c a IH]; [done|]. cbn. by rewrite IH. Qed.

(** The version group and the separator. *)
Lemma captures_version (suffix version : string) (c : ascii) :
  GoStrings.Contains version nl = false -> Ascii.eqb c regexp.newline = false ->
  regexp.captures
    ([regexp.group_dot_star; regexp.dot] ++ regexp.lits suffix)
    (version +:+ String c suffix) = Some [version].
Proof.
  intros Hv Hc. cbn [app]. apply captures_star_greedy; [done|].
  apply captures_star_stop.
  - cbn [regexp.captures]. by rewrite Hc, captures_lits_self.
  - match goal with
    | |- regexp.captures ?p ?s = None =>
        destruct (regexp.captures p s) eqn:E; [|done]; exfalso;
        assert (H : regexp.captures p s <> None) by (by rewrite E)
    end.
    apply captures_min_length in H. cbn [min_length] in H.
    rewrite lits_length in H. lia.
Qed.

Lemma versioned_captures (module_ version suffix : string) (c : ascii) :
  GoStrings.Contains module_ nl = false ->
  GoStrings.Contains version nl = false ->
  Ascii.eqb c regexp.newline = false ->
  GoStrings.Contains ("@v/" +:+ version +:+ String c suffix) "/@v/" = false ->
  regexp.FindStringSubmatch (versioned_pattern suffix)
    ("/" +:+ module_ +:+ "/@v/" +:+ version +:+ String c suffix)
  = Some ["/" +:+ module_ +:+ "/@v/" +:+ version +:+ String c suffix;
          module_; version].
Proof.
  intros Hm Hv Hc Hlast.
  unfold regexp.FindStringSubmatch, versioned_pattern.
  rewrite captures_lits. cbn [app].
  rewrite (captures_star_greedy _ module_ _ [version]); [done|done|].
  rewrite !append_cons, append_empty. apply captures_star_stop.
  - change (String "/" (String "@" (String "v" (String "/" (version +:+ String c suffix)))))
      with ("/@v/" +:+ (version +:+ String c suffix)).
    rewrite captures_lits. by apply captures_version.
  - match goal with
    | |- regexp.captures ?p ?s = None =>
        destruct (regexp.captures p s) eqn:E; [|done]; exfalso;
        assert (H : regexp.captures p s <> None) by (by rewrite E)
    end.
    apply (captures_star_lits_contains "/@v/") in H.
    rewrite !append_cons, append_empty in Hlast. congruence.
Qed.

Lemma apiList_captures (module_ : string) :
  GoStrings.Contains module_ nl = false ->
  regexp.FindStringSubmatch apiList ("/" +:+ module_ +:+ "/@v/list")
  = Some ["/" +:+ module_ +:+ "/@v/list"; module_].
Proof.
  intros Hm. unfold regexp.FindStringSubmatch, apiList.
  rewrite captures_lits. cbn [app].
  rewrite (captures_star_greedy _ module_ _ []); [done|done|].
  apply captures_star_stop; [apply captures_lits_self|reflexivity].
Qed.

Lemma contains_slash_of_marker (s : string) :
  GoStrings.Contains s "/@v/" = true -> GoStrings.Contains s "/" = true.
Proof.
  induction s as [|x s IH]; [done|]. rewrite !Contains_cons.
  intros [H|H]%orb_true_iff; [|by rewrite (IH H), orb_true_r].
  rewrite prefix_cons in H. apply andb_true_iff in H as [H _].
  by rewrite prefix_cons, H, prefix_empty.
Qed.

(** A version without a slash cannot hold the marker that ends the module
    path, nor complete one. *)
Lemma no_marker_in_version (version suffix : string) (c : ascii) :
  GoStrings.Contains (version +:+ String c suffix) "/" = false ->
  GoStrings.Contains ("@v/" +:+ version +:+ String c suffix) "/@v/" = false.
Proof.
  intros H. rewrite !append_cons, append_empty.
  rewrite !Contains_cons, !prefix_cons. cbn [Ascii.eqb Bool.eqb andb orb].
  destruct (GoStrings.Contains (version +:+ String c suffix) "/@v/") eqn:E.
  { apply contains_slash_of_marker in E. congruence. }
  rewrite orb_false_r.
  destruct (version +:+ String c suffix) as [|x [|y [|z s]]];
    rewrite ?prefix_cons, ?andb_false_r; try done.
  rewrite prefix_empty, andb_true_r.
  destruct (Ascii.eqb_spec "@" x) as [<-|]; [|done].
  destruct (Ascii.eqb_spec "v" y) as [<-|]; [|done].
  destruct (Ascii.eqb_spec "/" z) as [<-|]; [|done].
  rewrite !Contains_cons, !prefix_cons, !prefix_empty in H.
  cbn [Ascii.eqb Bool.eqb andb orb] in H. done.
Qed.

End Captures.

(** X14: of a path made of a module, the marker "/@v/", a version, an
    ASCII separator and the suffix, the patterns capture the module and the
    version as they are, provided the version and what follows hold no
    further marker (the module group is greedy and would take it); the
    list pattern captures the module. *)
Theorem route_patterns_capture_module_and_version
    (module_ version suffix : string) (c : ascii) :
  GoStrings.Contains module_ nl = false ->
  GoStrings.Contains version nl = false ->
  (N_of_ascii c <? 128)%N = true ->
  Ascii.eqb c regexp.newline = false ->
  GoStrings.Contains ("@v/" +:+ version +:+ String c suffix) "/@v/" = false ->
  regexp.FindStringSubmatch (versioned_pattern suffix)
    ("/" +:+ module_ +:+ "/@v/" +:+ version +:+ String c suffix)
  = Some ["/" +:+ module_ +:+ "/@v/" +:+ version +:+ String c suffix;
          module_; version]
  /\ regexp.FindStringSubmatch apiList ("/" +:+ module_ +:+ "/@v/list")
     = Some ["/" +:+ module_ +:+ "/@v/list"; module_].
Proof.
  intros Hm Hv Hascii Hc Hlast. split.
  - by apply versioned_captures.
  - by apply apiList_captures.
Qed.

Lemma route_patterns_capture_module_and_version_witness :
  regexp.FindStringSubmatch (versioned_pattern "info")
    ("/" +:+ "gohugo.io/npmjs/___vue/reactivity/v3" +:+ "/@v/" +:+ "v3.2.47"
     +:+ String "." "info")
  = Some ["/" +:+ "gohugo.io/npmjs/___vue/reactivity/v3" +:+ "/@v/" +:+ "v3.2.47"
          +:+ String "." "info";
          "gohugo.io/npmjs/___vue/reactivity/v3"; "v3.2.47"]
  /\ regexp.FindStringSubmatch apiList
       ("/" +:+ "gohugo.io/npmjs/___vue/reactivity/v3" +:+ "/@v/list")
     = Some ["/" +:+ "gohugo.io/npmjs/___vue/reactivity/v3" +:+ "/@v/list";
             "gohugo.io/npmjs/___vue/reactivity/v3"].
Proof.
  by apply route_patterns_capture_module_and_version.
Defined.

Section DispatchTo.

Variable sort_Slice : forall A : Type, (A -> A -> bool) -> list A -> list A.
Variable w : World.

Lemma last_byte_app (a b : string) :
  b <> "" -> last_byte (a +:+ b) = last_byte b.
Proof.
  intros Hb. induction a as [|c a IH]; [by rewrite append_empty|].
  rewrite append_cons. cbn [last_byte]. rewrite IH.
  destruct (a +:+ b) eqn:E; [|done]. destruct a, b; done.
Qed.

Lemma request_path_prefix (module_ rest : string) :
  GoStrings.HasPrefix module_ npmjsPrefix = true ->
  GoStrings.HasPrefix ("/" +:+ module_ +:+ rest) ("/" +:+ npmjsPrefix) = true.
Proof.
  intros [r ->]%prefix_split.
  replace ("/" +:+ (npmjsPrefix +:+ r) +:+ rest)
    with (("/" +:+ npmjsPrefix) +:+ (r +:+ rest)) by (by rewrite !append_assoc).
  apply HasPrefix_app.
Qed.

Lemma no_match_by_last_byte (p : list regexp.item) (path : string) (c : ascii) :
  (regexp.FindStringSubmatch p path <> None -> last_byte path = Some c) ->
  last_byte path <> Some c -> regexp.FindStringSubmatch p path = None.
Proof.
  intros H Hne. destruct (regexp.FindStringSubmatch p path) eqn:E; [|done].
  destruct Hne. by apply H.
Qed.

Lemma versioned_path_last_byte (module_ version suffix : string) :
  suffix <> "" ->
  last_byte ("/" +:+ module_ +:+ "/@v/" +:+ version +:+ String "." suffix)
  = last_byte suffix.
Proof.
  intros Hne.
  replace ("/" +:+ module_ +:+ "/@v/" +:+ version +:+ String "." suffix)
    with (("/" +:+ module_ +:+ "/@v/" +:+ version +:+ ".") +:+ suffix).
  - by apply last_byte_app.
  - by rewrite !append_assoc.
Qed.

(** A request for a version, by the suffix of its path. *)
Lemma find_route_versioned (module_ version suffix : string) :
  suffix = "info" \/ suffix = "mod" \/ suffix = "zip" ->
  GoStrings.Contains module_ nl = false ->
  GoStrings.Contains version nl = false ->
  GoStrings.Contains version "/" = false ->
  exists r,
    find_route (routes sort_Slice w)
      ("/" +:+ module_ +:+ "/@v/" +:+ version +:+ String "." suffix)
    = Some (r, ["/" +:+ module_ +:+ "/@v/" +:+ version +:+ String "." suffix;
                module_; version])
    /\ route_regexp r = versioned_pattern suffix
    /\ In r (routes sort_Slice w).
Proof.
  intros Hs Hm Hv Hslash.
  set (path := "/" +:+ module_ +:+ "/@v/" +:+ version +:+ String "." suffix).
  assert (Hmatch : regexp.FindStringSubmatch (versioned_pattern suffix) path
                   = Some [path; module_; version]).
  { apply versioned_captures; [done..|]. apply no_marker_in_version.
    apply Contains_slash_append; [done|]. by destruct Hs as [->|[->| ->]]. }
  assert (Hlast : last_byte path = last_byte suffix).
  { apply versioned_path_last_byte. by destruct Hs as [->|[->| ->]]. }
  assert (Hlist : regexp.FindStringSubmatch apiList path = None).
  { apply (no_match_by_last_byte _ _ "t"); [apply apiList_last_byte|].
    rewrite Hlast. by destruct Hs as [->|[->| ->]]. }
  assert (Hother : forall other, other <> "" -> last_byte other <> last_byte suffix ->
            regexp.FindStringSubmatch (versioned_pattern other) path = None).
  { intros other Hne Hdiff.
    destruct (regexp.FindStringSubmatch (versioned_pattern other) path) eqn:E; [|done].
    destruct Hdiff. rewrite <- Hlast. symmetry.
    apply versioned_last_byte; [by rewrite E|done]. }
  unfold routes. cbn [find_route route_regexp]. rewrite Hlist.
  change apiInfo with (versioned_pattern "info").
  change apiMod with (versioned_pattern "mod").
  change apiZip with (versioned_pattern "zip").
  destruct Hs as [->|[->| ->]].
  - rewrite Hmatch. eexists. split; [done|]. split; [done|]. cbn. tauto.
  - rewrite (Hother "info") by done. rewrite Hmatch.
    eexists. split; [done|]. split; [done|]. cbn. tauto.
  - rewrite (Hother "info"), (Hother "mod") by done. rewrite Hmatch.
    eexists. split; [done|]. split; [done|]. cbn. tauto.
Qed.

End DispatchTo.

(** X15: for a module under the proxy's base path and a version without a
    slash, [ServeHTTP] runs the loop body of the list, info, mod or zip
    route, by the end of the path, on the module and the version of the
    path. *)
Theorem ServeHTTP_dispatches_by_suffix
    (sort_Slice : forall A : Type, (A -> A -> bool) -> list A -> list A)
    (w : World) (method module_ version : string) (fs : FS) :
  String.eqb method "DELETE" = false ->
  GoStrings.HasPrefix module_ npmjsPrefix = true ->
  GoStrings.Contains module_ nl = false ->
  GoStrings.Contains version nl = false ->
  GoStrings.Contains version "/" = false ->
  ServeHTTP sort_Slice w method ("/" +:+ module_ +:+ "/@v/list") fs
  = serve_route w
      {| route_id := "list"; route_regexp := apiList;
         route_handler := List sort_Slice w |}
      ["/" +:+ module_ +:+ "/@v/list"; module_] fs
  /\ ServeHTTP sort_Slice w method
       ("/" +:+ module_ +:+ "/@v/" +:+ version +:+ ".info") fs
     = serve_route w
         {| route_id := "info"; route_regexp := apiInfo;
            route_handler := Info sort_Slice w |}
         ["/" +:+ module_ +:+ "/@v/" +:+ version +:+ ".info"; module_; version] fs
  /\ ServeHTTP sort_Slice w method
       ("/" +:+ module_ +:+ "/@v/" +:+ version +:+ ".mod") fs
     = serve_route w
         {| route_id := "npmgomodproxy"; route_regexp := apiMod;
            route_handler := Mod sort_Slice w |}
         ["/" +:+ module_ +:+ "/@v/" +:+ version +:+ ".mod"; module_; version] fs
  /\ ServeHTTP sort_Slice w method
       ("/" +:+ module_ +:+ "/@v/" +:+ version +:+ ".zip") fs
     = serve_route w
         {| route_id := "zip"; route_regexp := apiZip;
            route_handler := Zip sort_Slice w |}
         ["/" +:+ module_ +:+ "/@v/" +:+ version +:+ ".zip"; module_; version] fs.
Proof.
  intros Hmethod Hprefix Hm Hv Hslash.
  assert (Hserve : forall suffix r,
            suffix = "info" \/ suffix = "mod" \/ suffix = "zip" ->
            In r (routes sort_Slice w) -> route_regexp r = versioned_pattern suffix ->
            ServeHTTP sort_Slice w method
              ("/" +:+ module_ +:+ "/@v/" +:+ version +:+ String "." suffix) fs
            = serve_route w r
                ["/" +:+ module_ +:+ "/@v/" +:+ version +:+ String "." suffix;
                 module_; version] fs).
  { intros suffix r Hs Hin Hre. unfold ServeHTTP.
    rewrite Hmethod, request_path_prefix by done. cbn [negb].
    destruct (find_route_versioned sort_Slice w module_ version suffix Hs Hm Hv Hslash)
      as (r' & -> & Hre' & Hin').
    f_equal. cbn in Hin, Hin'.
    destruct Hin as [<-|[<-|[<-|[<-|[]]]]]; destruct Hin' as [<-|[<-|[<-|[<-|[]]]]];
      try done; cbn [route_regexp] in *;
      destruct Hs as [->|[->| ->]]; by vm_compute in Hre, Hre'. }
  split; [|split; [|split]].
  - unfold ServeHTTP. rewrite Hmethod, request_path_prefix by done. cbn [negb].
    unfold routes. cbn [find_route route_regexp]. by rewrite apiList_captures.
  - apply (Hserve "info"); [by left|cbn; tauto|done].
  - apply (Hserve "mod"); [by right; left|cbn; tauto|done].
  - apply (Hserve "zip"); [by right; right|cbn; tauto|done].
Qed.

Lemma ServeHTTP_dispatches_by_suffix_witness :
  ServeHTTP insertionSort world_alpinejs "GET"
    ("/" +:+ "gohugo.io/npmjs/alpinejs/v3" +:+ "/@v/list") fs_start
  = serve_route world_alpinejs
      {| route_id := "list"; route_regexp := apiList;
         route_handler := List insertionSort world_alpinejs |}
      ["/" +:+ "gohugo.io/npmjs/alpinejs/v3" +:+ "/@v/list";
       "gohugo.io/npmjs/alpinejs/v3"] fs_start
  /\ ServeHTTP insertionSort world_alpinejs "GET"
       ("/" +:+ "gohugo.io/npmjs/alpinejs/v3" +:+ "/@v/" +:+ "v3.3.3" +:+ ".info") fs_start
     = serve_route world_alpinejs
         {| route_id := "info"; route_regexp := apiInfo;
            route_handler := Info insertionSort world_alpinejs |}
         ["/" +:+ "gohugo.io/npmjs/alpinejs/v3" +:+ "/@v/" +:+ "v3.3.3" +:+ ".info";
          "gohugo.io/npmjs/alpinejs/v3"; "v3.3.3"] fs_start
  /\ ServeHTTP insertionSort world_alpinejs "GET"
       ("/" +:+ "gohugo.io/npmjs/alpinejs/v3" +:+ "/@v/" +:+ "v3.3.3" +:+ ".mod") fs_start
     = serve_route world_alpinejs
         {| route_id := "npmgomodproxy"; route_regexp := apiMod;
            route_handler := Mod insertionSort world_alpinejs |}
         ["/" +:+ "gohugo.io/npmjs/alpinejs/v3" +:+ "/@v/" +:+ "v3.3.3" +:+ ".mod";
          "gohugo.io/npmjs/alpinejs/v3"; "v3.3.3"] fs_start
  /\ ServeHTTP insertionSort world_alpinejs "GET"
       ("/" +:+ "gohugo.io/npmjs/alpinejs/v3" +:+ "/@v/" +:+ "v3.3.3" +:+ ".zip") fs_start
     = serve_route world_alpinejs
         {| route_id := "zip"; route_regexp := apiZip;
            route_handler := Zip insertionSort world_alpinejs |}
         ["/" +:+ "gohugo.io/npmjs/alpinejs/v3" +:+ "/@v/" +:+ "v3.3.3" +:+ ".zip";
          "gohugo.io/npmjs/alpinejs/v3"; "v3.3.3"] fs_start.
Proof.
  by apply (ServeHTTP_dispatches_by_suffix insertionSort world_alpinejs "GET"
              "gohugo.io/npmjs/alpinejs/v3" "v3.3.3" fs_start).
Defined.

(** ** Rooted paths *)

Section RootedPaths.

Lemma Clean_loop_copy_any (e r acc : string) (rooted_ : bool) (dotdot : nat) :
  GoStrings.Contains e "/" = false -> GoPath.at_elem_end r = true ->
  GoPath.Clean_loop (e +:+ r) true rooted_ acc dotdot =
  match r with
  | EmptyString => String.rev_app e acc
  | String _ r' => GoPath.Clean_loop r' false rooted_ (String.rev_app e acc) dotdot
  end.
Proof.
  intros He Hr. revert acc He. induction e as [|c e IH]; intros acc He.
  - rewrite append_empty. destruct r as [|d r']; [done|].
    cbn in Hr. cbn [GoPath.Clean_loop String.rev_app]. by rewrite Hr.
  - apply no_slash_cons in He as [Hc He]. rewrite append_cons.
    cbn [GoPath.Clean_loop String.rev_app]. rewrite Hc. by apply IH.
Qed.

Lemma Clean_loop_element_any (e r rout : string) (rooted_ : bool) (dotdot : nat) :
  normal_element e = true -> GoPath.at_elem_end r = true ->
  GoPath.Clean_loop (e +:+ r) false rooted_ rout dotdot =
  match r with
  | EmptyString => String.rev_app e (GoPath.add_slash rooted_ rout)
  | String _ r' =>
      GoPath.Clean_loop r' false rooted_
        (String.rev_app e (GoPath.add_slash rooted_ rout)) dotdot
  end.
Proof.
  intros He Hr.
  destruct (normal_element_cons e He) as (c & e' & -> & Hc & Hs & Hdot).
  rewrite append_cons. cbn [GoPath.Clean_loop String.rev_app]. rewrite Hc.
  pose proof (Clean_loop_copy_any e' r (String c (GoPath.add_slash rooted_ rout))
                rooted_ dotdot Hs Hr) as Hcopy.
  destruct (Ascii.eqb c ".") eqn:Hcd.
  - destruct (Hdot eq_refl) as (d & e'' & -> & Hd & Hdot2).
    rewrite append_cons in Hcopy |- *. cbn [GoPath.at_elem_end andb].
    rewrite Hd. cbn [andb]. destruct (Ascii.eqb d ".") eqn:Hdd; [|done].
    destruct (Hdot2 eq_refl) as (x & e3 & -> & Hx). rewrite append_cons.
    cbn [GoPath.at_elem_end andb]. by rewrite Hx.
  - cbn [andb]. by destruct (e' +:+ r).
Qed.

(** The output buffer of [Clean] after the elements of a rooted path. *)
Lemma rooted_buffer_length (elems : list string) :
  elems <> [] -> forallb normal_element elems = true ->
  (2 <= String.length (String.rev_app (GoStrings.Join elems "/") "/"))%nat.
Proof.
  intros Hne Hall. rewrite rev_app_length. cbn [String.length].
  destruct elems as [|e elems]; [done|]. cbn [forallb] in Hall.
  apply andb_true_iff in Hall as [He _].
  destruct (normal_element_cons e He) as (c & e' & -> & _).
  destruct elems; [|rewrite Join_cons_cons, append_cons];
    cbn [GoStrings.Join String.length]; lia.
Qed.

Lemma rooted_buffer_step (elems : list string) (e : string) :
  forallb normal_element elems = true ->
  String.rev_app e
    (GoPath.add_slash true (String.rev_app (GoStrings.Join elems "/") "/"))
  = String.rev_app (GoStrings.Join (elems ++ [e]) "/") "/".
Proof.
  intros Hall. destruct (decide (elems = [])) as [->|Hne]; [done|].
  pose proof (rooted_buffer_length elems Hne Hall) as Hlen.
  unfold GoPath.add_slash.
  destruct (Nat.eqb_spec (String.length
              (String.rev_app (GoStrings.Join elems "/") "/")) 1) as [E|_]; [lia|].
  cbn [negb]. rewrite Join_app by done. cbn [GoStrings.Join].
  by rewrite !rev_app_append.
Qed.

Lemma Clean_loop_rooted (elems more : list string) (tail : string) :
  more <> [] -> forallb normal_element elems = true ->
  forallb normal_element more = true -> tail = "" \/ tail = "/" ->
  GoPath.Clean_loop (GoStrings.Join more "/" +:+ tail) false true
    (String.rev_app (GoStrings.Join elems "/") "/") 1
  = String.rev_app (GoStrings.Join (elems ++ more) "/") "/".
Proof.
  intros Hne Helems Hmore Htail. revert elems Helems.
  induction more as [|e more IH]; intros elems Helems; [done|].
  cbn [forallb] in Hmore. apply andb_true_iff in Hmore as [He Hmore].
  destruct more as [|e2 rest].
  - cbn [GoStrings.Join]. rewrite Clean_loop_element_any; [|done|].
    + rewrite rooted_buffer_step by done. by destruct Htail as [->| ->].
    + by destruct Htail as [->| ->].
  - rewrite Join_cons_cons, !append_assoc.
    rewrite Clean_loop_element_any by done.
    rewrite append_cons, append_empty, rooted_buffer_step by done.
    rewrite IH; [|done|done|].
    + by rewrite <- app_assoc.
    + rewrite forallb_app, Helems. cbn [forallb]. by rewrite He.
Qed.

Lemma rev_rooted_buffer (s : string) :
  String.rev (String.rev_app s "/") = "/" +:+ s.
Proof.
  unfold String.rev. rewrite rev_app_rev_app. cbn [String.rev_app].
  by rewrite append_empty_r.
Qed.

(** [Clean] keeps a rooted path of normal elements, and drops a slash at
    its end. *)
Lemma Clean_rooted (elems : list string) (tail : string) :
  forallb normal_element elems = true -> tail = "" \/ tail = "/" ->
  GoPath.Clean (rooted elems +:+ tail) = rooted elems.
Proof.
  intros Hall Htail. unfold rooted. rewrite !append_cons, append_empty.
  unfold GoPath.Clean. cbn [Ascii.eqb Bool.eqb andb].
  destruct (decide (elems = [])) as [->|Hne].
  - cbn [GoStrings.Join]. by destruct Htail as [->| ->].
  - pose proof (Clean_loop_rooted [] elems tail Hne eq_refl Hall Htail) as Hloop.
    change (String.rev_app (GoStrings.Join [] "/") "/") with "/" in Hloop.
    change ([] ++ elems) with elems in Hloop. rewrite Hloop.
    pose proof (rooted_buffer_length elems Hne Hall) as Hlen.
    destruct (Nat.eqb_spec (String.length
                (String.rev_app (GoStrings.Join elems "/") "/")) 0); [lia|].
    apply rev_rooted_buffer.
Qed.

Lemma rooted_app (pe ne : list string) :
  pe <> [] -> ne <> [] ->
  rooted (pe ++ ne) = rooted pe +:+ "/" +:+ GoStrings.Join ne "/".
Proof.
  intros Hp Hn. unfold rooted. rewrite Join_app by done.
  by rewrite !append_cons, !append_empty.
Qed.

(** [path.Join] and [filepath.Join] of a rooted directory and a name of
    normal elements. *)
Lemma Join_rooted (pe ne : list string) (tail : string) :
  ne <> [] -> forallb normal_element pe = true ->
  forallb normal_element ne = true -> tail = "" \/ tail = "/" ->
  GoPath.Join [rooted pe; GoStrings.Join ne "/" +:+ tail] = rooted (pe ++ ne).
Proof.
  intros Hne Hpe Hnes Htail. cbn [GoPath.Join].
  change (String.eqb (rooted pe) "") with false. cbv iota.
  cbn [GoStrings.Join].
  destruct (decide (pe = [])) as [->|Hp].
  - cbn [app]. unfold rooted at 1. cbn [GoStrings.Join].
    rewrite !append_cons, !append_empty.
    unfold GoPath.Clean. cbn [Ascii.eqb Bool.eqb andb GoPath.Clean_loop].
    pose proof (Clean_loop_rooted [] ne tail Hne eq_refl Hnes Htail) as Hloop.
    change (String.rev_app (GoStrings.Join [] "/") "/") with "/" in Hloop.
    change ([] ++ ne) with ne in Hloop. rewrite Hloop.
    pose proof (rooted_buffer_length ne Hne Hnes) as Hlen.
    destruct (Nat.eqb_spec (String.length
                (String.rev_app (GoStrings.Join ne "/") "/")) 0); [lia|].
    apply rev_rooted_buffer.
  - assert (E : rooted pe +:+ "/" +:+ GoStrings.Join ne "/" +:+ tail
                = rooted (pe ++ ne) +:+ tail)
      by (by rewrite rooted_app, !append_assoc).
    rewrite E. apply Clean_rooted; [|done]. by rewrite forallb_app, Hpe.
Qed.

Lemma Contains_slash_app (p e : string) :
  GoStrings.Contains (p +:+ "/" +:+ e) "/" = true.
Proof.
  induction p as [|c p IH].
  - by rewrite append_empty, append_cons, Contains_cons, prefix_cons, prefix_empty.
  - by rewrite append_cons, Contains_cons, IH, orb_true_r.
Qed.

Lemma through_last_slash_none (e : string) :
  GoStrings.Contains e "/" = false -> GoPath.through_last_slash e = "".
Proof. intros H. destruct e as [|c e]; [done|]. cbn [GoPath.through_last_slash]. by rewrite H. Qed.

Lemma through_last_slash_app (p e : string) :
  GoStrings.Contains e "/" = false ->
  GoPath.through_last_slash (p +:+ "/" +:+ e) = p +:+ "/".
Proof.
  intros He. induction p as [|c p IH].
  - rewrite !append_empty, append_cons, append_empty.
    cbn [GoPath.through_last_slash].
    rewrite Contains_cons, prefix_cons, prefix_empty. cbn [Ascii.eqb Bool.eqb andb orb].
    by rewrite through_last_slash_none.
  - rewrite (append_cons c p ("/" +:+ e)), (append_cons c p "/").
    change (GoPath.through_last_slash (String c (p +:+ "/" +:+ e)))
      with (if GoStrings.Contains (String c (p +:+ "/" +:+ e)) "/"
            then String c (GoPath.through_last_slash (p +:+ "/" +:+ e))
            else "").
    by rewrite Contains_cons, Contains_slash_app, orb_true_r, IH.
Qed.

Lemma normal_no_slash (e : string) :
  normal_element e = true -> GoStrings.Contains e "/" = false.
Proof.
  unfold normal_element. intros H. do 2 (apply andb_true_iff in H as [H _]).
  apply andb_true_iff in H as [_ H]. by apply negb_true_iff in H.
Qed.

(** [filepath.Dir] of a rooted path is the path without its last element. *)
Lemma Dir_rooted (pe : list string) (e : string) :
  forallb normal_element pe = true -> GoStrings.Contains e "/" = false ->
  GoPath.Dir (rooted (pe ++ [e])) = rooted pe.
Proof.
  intros Hpe He. unfold GoPath.Dir.
  destruct (decide (pe = [])) as [->|Hp].
  - cbn [app]. unfold rooted. cbn [GoStrings.Join].
    change ("/" +:+ e) with ("" +:+ "/" +:+ e).
    rewrite (through_last_slash_app "" e He). reflexivity.
  - rewrite rooted_app by done. cbn [GoStrings.Join].
    rewrite through_last_slash_app by done.
    apply Clean_rooted; [done|by right].
Qed.

End RootedPaths.

Section LocalNames.

Lemma take_drop_bytes (n : nat) (s : string) :
  semver.take_bytes n s +:+ GoStrings.drop_bytes n s = s.
Proof.
  revert s. induction n as [|n IH]; intros s; [by destruct s|].
  destruct s as [|c s]; [done|].
  cbn [semver.take_bytes GoStrings.drop_bytes]. by rewrite append_cons, IH.
Qed.

Lemma local_name_elems (name : string) :
  local_name name = true ->
  exists ne tail, ne <> [] /\ forallb normal_element ne = true
    /\ (tail = "" \/ tail = "/") /\ name = GoStrings.Join ne "/" +:+ tail.
Proof.
  unfold local_name, well_formed_name. intros [H|H]%orb_true_iff.
  - exists (split_slash name), "". repeat split; [apply split_slash_nonempty|done|by left|].
    by rewrite Join_split_slash, append_empty_r.
  - apply andb_true_iff in H as [Hs H].
    set (n := (String.length name - 1)%nat) in *.
    exists (split_slash (semver.take_bytes n name)), "/".
    repeat split; [apply split_slash_nonempty|done|by right|].
    rewrite Join_split_slash. unfold GoStrings.HasSuffix in Hs.
    apply andb_true_iff in Hs as [_ Hs]. apply String.eqb_eq in Hs.
    cbn [String.length] in Hs. fold n in Hs.
    rewrite <- Hs at 1. by rewrite take_drop_bytes.
Qed.

End LocalNames.

(** ** Directories on the way to a path *)

Section Ancestors.

Lemma ancestors_from_cons (d : string) (c : ascii) (r : string) :
  ancestors_from d (String c r) =
  if Ascii.eqb c "/" && negb (String.eqb d "")
  then d :: ancestors_from (d +:+ String c "") r
  else ancestors_from (d +:+ String c "") r.
Proof. done. Qed.

Lemma append_snoc (d : string) (c : ascii) (x : string) :
  (d +:+ String c "") +:+ x = d +:+ String c x.
Proof. by rewrite append_assoc, append_cons, append_empty. Qed.

Lemma ancestors_from_extends (d r a : string) :
  a ∈ ancestors_from d r ->
  exists x, a = d +:+ x /\ (String.length x <= String.length r)%nat.
Proof.
  revert d. induction r as [|c r IH]; intros d.
  - cbn [ancestors_from]. intros ->%list_elem_of_singleton. exists "".
    by rewrite append_empty_r.
  - rewrite ancestors_from_cons. intros Ha.
    assert (Hrest : a ∈ ancestors_from (d +:+ String c "") r ->
              exists x, a = d +:+ x /\ (String.length x <= String.length (String c r))%nat).
    { intros (x & -> & Hx)%IH. exists (String c x). rewrite append_snoc.
      split; [done|]. cbn [String.length]. lia. }
    destruct (_ && _); [|by apply Hrest].
    apply elem_of_cons in Ha as [->|Ha]; [|by apply Hrest].
    exists "". rewrite append_empty_r. split; [done|]. cbn [String.length]. lia.
Qed.

Lemma ancestors_from_last (d r : string) : d +:+ r ∈ ancestors_from d r.
Proof.
  revert d. induction r as [|c r IH]; intros d.
  - rewrite append_empty_r. apply list_elem_of_singleton. done.
  - rewrite ancestors_from_cons, <- append_snoc.
    destruct (_ && _); [apply elem_of_cons; right|]; apply IH.
Qed.

Lemma ancestors_from_app (d x r a : string) :
  a ∈ ancestors_from d (x +:+ "/" +:+ r) ->
  a ∈ ancestors_from d x \/ exists y, a = d +:+ x +:+ "/" +:+ y.
Proof.
  revert d. induction x as [|c x IH]; intros d.
  - rewrite append_empty, append_cons, append_empty, ancestors_from_cons.
    intros Ha.
    assert (Hrest : a ∈ ancestors_from (d +:+ "/") r ->
              exists y, a = d +:+ "" +:+ "/" +:+ y).
    { intros (y & -> & _)%ancestors_from_extends. exists y.
      by rewrite append_empty, append_assoc. }
    destruct (_ && _); [|right; by apply Hrest].
    apply elem_of_cons in Ha as [->|Ha]; [|right; by apply Hrest].
    left. apply list_elem_of_singleton. done.
  - rewrite (append_cons c x), !ancestors_from_cons. intros Ha.
    assert (Hrest : a ∈ ancestors_from (d +:+ String c "") (x +:+ "/" +:+ r) ->
              a ∈ ancestors_from (d +:+ String c "") x
              \/ exists y, a = d +:+ String c x +:+ "/" +:+ y).
    { intros [H|(y & ->)]%IH; [by left|]. right. exists y.
      by rewrite append_snoc, append_cons. }
    destruct (_ && _).
    + apply elem_of_cons in Ha as [->|Ha]; [left; by apply elem_of_cons; left|].
      destruct (Hrest Ha) as [H|H]; [left; by apply elem_of_cons; right|by right].
    + by apply Hrest.
Qed.

Lemma under_below (dir y : string) : under dir (dir +:+ "/" +:+ y) = true.
Proof.
  unfold under. apply orb_true_iff. right.
  rewrite <- append_assoc. apply HasPrefix_app.
Qed.

Lemma under_self (dir : string) : under dir dir = true.
Proof. unfold under. by rewrite String.eqb_refl. Qed.

(** The directories on the way to a path below [dir] are on the way to
    [dir] or below it. *)
Lemma ancestors_below (dir r a : string) :
  a ∈ ancestors (dir +:+ "/" +:+ r) -> a ∈ ancestors dir \/ under dir a = true.
Proof.
  unfold ancestors. intros [H|(y & ->)]%ancestors_from_app; [by left|right].
  rewrite append_empty. apply under_below.
Qed.

Lemma ancestors_length (path a : string) :
  a ∈ ancestors path -> (String.length a <= String.length path)%nat.
Proof.
  unfold ancestors. intros (x & -> & Hx)%ancestors_from_extends.
  by rewrite append_empty.
Qed.

Lemma ancestors_self (path : string) : path ∈ ancestors path.
Proof. unfold ancestors. apply (ancestors_from_last "" path). Qed.

Lemma append_length (a b : string) :
  String.length (a +:+ b) = (String.length a + String.length b)%nat.
Proof. induction a as [|c a IH]; [done|]. rewrite append_cons. cbn. by rewrite IH. Qed.

End Ancestors.

Section MkdirAllFacts.

Local Abbreviation mkdir_step :=
  (fun (acc : error + FS) (dir : string) =>
     match acc with
     | inl err => inl err
     | inr fs =>
         match fs !! dir with
         | Some (File _) => inl (os_error "not a directory")
         | Some Dir => inr fs
         | None => inr (<[dir := Dir]> fs)
         end
     end).

Lemma mkdir_fold_error (dirs : list string) (err : error) (fs' : FS) :
  fold_left mkdir_step dirs (inl err) <> inr fs'.
Proof. induction dirs as [|d dirs IH]; [done|]. apply IH. Qed.

Lemma mkdir_fold_frame (dirs : list string) (fs fs' : FS) :
  fold_left mkdir_step dirs (inr fs) = inr fs' ->
  (forall p, fs' !! p = fs !! p
             \/ (p ∈ dirs /\ fs !! p = None /\ fs' !! p = Some Dir))
  /\ (forall a, a ∈ dirs -> fs' !! a = Some Dir).
Proof.
  revert fs. induction dirs as [|dir dirs IH]; intros fs; cbn [fold_left].
  { intros [= <-]. split; [by left|]. by intros a ?%not_elem_of_nil. }
  destruct (fs !! dir) as [[|content]|] eqn:Hdir.
  - intros [Hframe Hdirs]%IH. split.
    + intros p. destruct (Hframe p) as [E|(Hin & Hnone & Hsome)]; [by left|].
      right. repeat split; [by apply elem_of_cons; right|done..].
    + intros a [->|Ha]%elem_of_cons; [|by apply Hdirs].
      destruct (Hframe dir) as [E|(_ & Hnone & _)]; congruence.
  - intros H. by apply mkdir_fold_error in H.
  - intros [Hframe Hdirs]%IH. split.
    + intros p. destruct (decide (p = dir)) as [->|Hne].
      * right. split; [by apply elem_of_cons; left|]. split; [done|].
        destruct (Hframe dir) as [E|(_ & _ & E)]; [|done].
        by rewrite E, lookup_insert_eq.
      * destruct (Hframe p) as [E|(Hin & Hnone & Hsome)].
        -- left. by rewrite E, lookup_insert_ne.
        -- right. rewrite lookup_insert_ne in Hnone by done.
           repeat split; [by apply elem_of_cons; right|done..].
    + intros a [->|Ha]%elem_of_cons; [|by apply Hdirs].
      destruct (Hframe dir) as [E|(_ & _ & E)]; [|done].
      by rewrite E, lookup_insert_eq.
Qed.

(** [os.MkdirAll] adds the missing directories on the way to the path and
    changes nothing else. *)
Lemma os_MkdirAll_frame (path : string) (fs fs' : FS) :
  os_MkdirAll path fs = inr fs' ->
  (forall p, fs' !! p = fs !! p
             \/ (p ∈ ancestors path /\ fs !! p = None /\ fs' !! p = Some Dir))
  /\ (forall a, a ∈ ancestors path -> fs' !! a = Some Dir).
Proof.
  unfold os_MkdirAll. destruct (String.eqb path ""); [done|].
  apply mkdir_fold_frame.
Qed.

End MkdirAllFacts.

(** ** Unpacking the tarball *)

(** X16: [untar] passes over nil headers and over every entry that is
    neither a directory nor a regular file (links, devices): the outcome
    is that of the archive without them. *)
Theorem untar_skips_other_entries (dst : string) (stream : list tar_next) (fs : FS) :
  untar_loop dst (filter (fun next => is_extracted next = true) stream) fs
  = untar_loop dst stream fs.
Proof.
  revert fs. induction stream as [|next stream IH]; intros fs; [done|].
  destruct next as [header content read_err| |err].
  - destruct (is_extracted (tar_entry header content read_err)) eqn:Hx.
    + rewrite filter_cons_True by done. cbn [untar_loop].
      repeat case_match; try done; apply IH.
    + rewrite filter_cons_False by congruence.
      cbn [is_extracted] in Hx. apply orb_false_iff in Hx as [Hd Hr].
      cbn [untar_loop]. rewrite Hd, Hr. apply IH.
  - rewrite filter_cons_False by done. cbn [untar_loop]. apply IH.
  - by rewrite filter_cons_True.
Qed.

Section Extraction.

Lemma os_MkdirAll_keeps (path p : string) (n : node) (fs fs' : FS) :
  os_MkdirAll path fs = inr fs' -> fs !! p = Some n -> fs' !! p = Some n.
Proof.
  intros [Hframe _]%os_MkdirAll_frame Hp.
  destruct (Hframe p) as [E|(_ & Hnone & _)]; congruence.
Qed.

(** A file stays as it is through the rest of the loop unless a later
    entry is written to its path. *)
Lemma untar_loop_keeps (dst p content : string) (stream : list tar_next) (fs fs' : FS) :
  untar_loop dst stream fs = (None, fs') ->
  fs !! p = Some (File content) ->
  Forall (fun next => written_target dst next <> Some p) stream ->
  fs' !! p = Some (File content).
Proof.
  revert fs. induction stream as [|next stream IH]; intros fs Hrun Hp Hall.
  { cbn in Hrun. by injection Hrun as <-. }
  apply Forall_cons in Hall as [Hnext Hall]. cbn [untar_loop] in Hrun.
  destruct next as [header c read_err| |err]; [|by eapply IH|done].
  cbn [written_target] in Hnext.
  destruct (Ascii.eqb (tar_Typeflag header) tar_TypeDir).
  { destruct (os_Stat _ fs); [|by eapply IH].
    destruct (os_MkdirAll _ fs) as [err|fs1] eqn:Hmk; [done|].
    eapply IH; [done| |done]. by eapply os_MkdirAll_keeps. }
  destruct (Ascii.eqb (tar_Typeflag header) tar_TypeReg); [|by eapply IH].
  cbn [negb andb] in Hnext.
  destruct (os_MkdirAll _ fs) as [err|fs1] eqn:Hmk; [done|].
  destruct (os_Create _ fs1) as [err|fs2] eqn:Hcreate; [done|].
  apply os_Create_inv in Hcreate as (_ & _ & ->).
  destruct read_err; [done|].
  eapply IH; [done| |done]. unfold write_file.
  rewrite !lookup_insert_ne by congruence. by eapply os_MkdirAll_keeps.
Qed.

End Extraction.

(** X17: after an [untar] that returns no error, the path of a
    regular-file entry holds the bytes of the entry, unless a later
    regular-file entry was written to the same path. *)
Theorem untar_extracts_regular_files
    (dst content : string) (header : tar_Header) (read_err : option external)
    (before after : list tar_next) (fs fs' : FS) :
  untar_loop dst (before ++ tar_entry header content read_err :: after) fs = (None, fs') ->
  Ascii.eqb (tar_Typeflag header) tar_TypeReg = true ->
  Forall (fun next =>
            written_target dst next <> Some (GoPath.Join [dst; tar_Name header]))
    after ->
  fs' !! GoPath.Join [dst; tar_Name header] = Some (File content).
Proof.
  revert fs. induction before as [|next before IH]; intros fs Hrun Hreg Hafter.
  - cbn [app untar_loop] in Hrun. rewrite Hreg in Hrun.
    assert (Hdir : Ascii.eqb (tar_Typeflag header) tar_TypeDir = false).
    { apply Ascii.eqb_eq in Hreg as ->. done. }
    rewrite Hdir in Hrun.
    destruct (os_MkdirAll _ fs) as [err|fs1]; [done|].
    destruct (os_Create _ fs1) as [err|fs2]; [done|].
    destruct read_err; [done|].
    eapply untar_loop_keeps; [exact Hrun| |done].
    unfold write_file. by rewrite lookup_insert_eq.
  - cbn [app untar_loop] in Hrun.
    destruct next as [h c e| |err]; [|by eapply IH|done].
    destruct (Ascii.eqb (tar_Typeflag h) tar_TypeDir).
    { destruct (os_Stat _ fs); [|by eapply IH].
      destruct (os_MkdirAll _ fs) as [err|fs1]; [done|]. by eapply IH. }
    destruct (Ascii.eqb (tar_Typeflag h) tar_TypeReg); [|by eapply IH].
    destruct (os_MkdirAll _ fs) as [err|fs1]; [done|].
    destruct (os_Create _ fs1) as [err|fs2]; [done|].
    destruct e; [done|]. by eapply IH.
Qed.

Lemma untar_extracts_regular_files_witness :
  (untar_loop "/tmp/npmgop123/alpinejs-v3.3.3-aa"
     ([tar_entry {| tar_Name := "package"; tar_Typeflag := tar_TypeDir |} "" None]
      ++ tar_entry {| tar_Name := "package/package.json"; tar_Typeflag := tar_TypeReg |}
           "(package.json)" None
      :: [tar_entry {| tar_Name := "package/dist/module.esm.js";
                       tar_Typeflag := tar_TypeReg |} "(module.esm.js)" None])
     (<["/tmp/npmgop123" := Dir]> fs_start)).2
  !! GoPath.Join ["/tmp/npmgop123/alpinejs-v3.3.3-aa";
                  tar_Name {| tar_Name := "package/package.json";
                              tar_Typeflag := tar_TypeReg |}]
  = Some (File "(package.json)").
Proof.
  apply (untar_extracts_regular_files "/tmp/npmgop123/alpinejs-v3.3.3-aa"
           "(package.json)"
           {| tar_Name := "package/package.json"; tar_Typeflag := tar_TypeReg |} None
           [tar_entry {| tar_Name := "package"; tar_Typeflag := tar_TypeDir |} "" None]
           [tar_entry {| tar_Name := "package/dist/module.esm.js";
                         tar_Typeflag := tar_TypeReg |} "(module.esm.js)" None]
           (<["/tmp/npmgop123" := Dir]> fs_start)).
  - by vm_compute.
  - reflexivity.
  - repeat constructor. by vm_compute.
Defined.

Lemma on_the_way_bool (dst : string) (fs : FS) :
  forallb (is_dir fs) (ancestors dst) = true -> on_the_way dst fs.
Proof.
  rewrite forallb_forall. intros H a Ha%list_elem_of_In. specialize (H a Ha).
  unfold is_dir in H. by destruct (fs !! a) as [[|?]|].
Qed.


Section Below.

Variable dst : string.

Lemma below_longer (r a : string) :
  a ∈ ancestors dst -> a <> dst +:+ "/" +:+ r.
Proof.
  intros Ha%ancestors_length ->. rewrite !append_length in Ha.
  cbn [String.length] in Ha. lia.
Qed.

(** [os.MkdirAll] at or below [dst], the directories on the way to [dst]
    being there, changes nothing outside [dst]. *)
Lemma step_mkdir (path : string) (fs fs1 : FS) :
  at_or_below dst path -> os_MkdirAll path fs = inr fs1 -> on_the_way dst fs ->
  on_the_way dst fs1 /\ (forall p, under dst p = false -> fs1 !! p = fs !! p).
Proof.
  intros Hpath [Hframe _]%os_MkdirAll_frame Hway. split.
  - intros a Ha. destruct (Hframe a) as [E|(_ & _ & E)]; [|done].
    rewrite E. by apply Hway.
  - intros p Hp. destruct (Hframe p) as [E|(Hin & Hnone & _)]; [done|]. exfalso.
    assert (Hin' : p ∈ ancestors dst \/ under dst p = true).
    { destruct Hpath as [->|[r ->]]; [by left|]. by eapply ancestors_below. }
    destruct Hin' as [Hin'|Hin']; [|congruence].
    specialize (Hway p Hin'). congruence.
Qed.

(** So does a write below [dst]. *)
Lemma step_write (r : string) (n : node) (fs : FS) :
  on_the_way dst fs ->
  on_the_way dst (<[dst +:+ "/" +:+ r := n]> fs)
  /\ (forall p, under dst p = false ->
        (<[dst +:+ "/" +:+ r := n]> fs) !! p = fs !! p).
Proof.
  intros Hway. split.
  - intros a Ha. rewrite lookup_insert_ne; [by apply Hway|].
    intros E. by apply (below_longer r a).
  - intros p Hp. rewrite lookup_insert_ne; [done|]. intros <-.
    by rewrite under_below in Hp.
Qed.

End Below.

Section Confinement.

Variable de : list string.
Hypothesis de_nonempty : de <> [].
Hypothesis de_normal : forallb normal_element de = true.

Local Abbreviation dst := (rooted de).

Lemma below_elems (ne : list string) :
  ne <> [] -> exists r, rooted (de ++ ne) = dst +:+ "/" +:+ r.
Proof. intros Hne. eexists. by apply rooted_app. Qed.

Lemma entry_target (name : string) :
  local_name name = true ->
  exists ne, ne <> [] /\ forallb normal_element ne = true
    /\ GoPath.Join [dst; name] = rooted (de ++ ne).
Proof.
  pose proof de_nonempty.
  intros (ne & tail & Hne & Hall & Htail & ->)%local_name_elems.
  exists ne. repeat split; [done..|]. by apply Join_rooted.
Qed.

Lemma Dir_target (ne : list string) :
  ne <> [] -> forallb normal_element ne = true ->
  at_or_below dst (GoPath.Dir (rooted (de ++ ne))).
Proof.
  intros Hne Hall. destruct (exists_last Hne) as (ne' & e & ->).
  rewrite forallb_app in Hall. apply andb_true_iff in Hall as [Hne' He].
  cbn [forallb] in He. rewrite andb_true_r in He.
  rewrite app_assoc, Dir_rooted;
    [|by rewrite forallb_app, de_normal|by apply normal_no_slash].
  destruct (decide (ne' = [])) as [->|Hn].
  - left. by rewrite app_nil_r.
  - right. by apply below_elems.
Qed.

Lemma untar_loop_confined (stream : list tar_next) (fs : FS) :
  forallb local_entry stream = true -> on_the_way dst fs ->
  forall p, under dst p = false -> (untar_loop dst stream fs).2 !! p = fs !! p.
Proof.
  revert fs. induction stream as [|next stream IH]; intros fs Hall Hway p Hp; [done|].
  cbn [forallb] in Hall. apply andb_true_iff in Hall as [Hnext Hall].
  specialize (fun fs => IH fs Hall).
  destruct next as [header content read_err| |err]; cbn [untar_loop];
    [|by apply IH|done].
  cbn [local_entry is_extracted] in Hnext.
  destruct (Ascii.eqb (tar_Typeflag header) tar_TypeDir) eqn:Hd.
  { cbn [orb negb] in Hnext.
    destruct (entry_target _ Hnext) as (ne & Hne & Hnes & ->).
    destruct (os_Stat _ fs); [|by apply IH].
    destruct (os_MkdirAll _ fs) as [err|fs1] eqn:Hmk; [done|].
    destruct (step_mkdir dst _ fs fs1 (or_intror (below_elems ne Hne)) Hmk Hway)
      as [Hway1 Hframe1].
    by rewrite IH, Hframe1. }
  destruct (Ascii.eqb (tar_Typeflag header) tar_TypeReg) eqn:Hr; [|by apply IH].
  cbn [orb negb] in Hnext.
  destruct (entry_target _ Hnext) as (ne & Hne & Hnes & ->).
  destruct (os_MkdirAll _ fs) as [err|fs1] eqn:Hmk; [done|].
  destruct (step_mkdir dst _ fs fs1 (Dir_target ne Hne Hnes) Hmk Hway)
    as [Hway1 Hframe1].
  destruct (os_Create _ fs1) as [err|fs2] eqn:Hcreate; [by rewrite Hframe1|].
  apply os_Create_inv in Hcreate as (_ & _ & ->).
  unfold write_file. rewrite insert_insert_eq.
  destruct (below_elems ne Hne) as [r ->].
  destruct (step_write dst r (File content) fs1 Hway1) as [Hway2 Hframe2].
  destruct read_err; cbn [snd]; [by rewrite Hframe2, Hframe1|].
  by rewrite IH, Hframe2, Hframe1.
Qed.

End Confinement.

(** X18: when every entry that is unpacked has a name of normal path
    elements (none empty, "." or "..", a slash at the end allowed) and the
    directories on the way to the destination exist, [untar] changes no
    path outside the destination. *)
Theorem untar_stays_below_its_directory
    (w : World) (de : list string) (r : string) (stream : list tar_next) (fs : FS) :
  de <> [] -> forallb normal_element de = true ->
  gzip_tar w r = inr stream -> forallb local_entry stream = true ->
  forallb (is_dir fs) (ancestors (rooted de)) = true ->
  forall p, under (rooted de) p = false ->
    (untar w (rooted de) r fs).2 !! p = fs !! p.
Proof.
  intros Hne Hnormal Hgz Hlocal Hway p Hp. unfold untar. rewrite Hgz.
  apply untar_loop_confined; [done..|by apply on_the_way_bool|done].
Qed.

Lemma untar_stays_below_its_directory_witness :
  (untar world_alpinejs (rooted ["tmp"; "npmgop123"; "alpinejs-v3.3.3-aa"])
     "(the alpinejs-3.3.3 tarball)"
     (<["/tmp/npmgop123/alpinejs-v3.3.3-aa" := Dir]>
        (<["/tmp/npmgop123" := Dir]> fs_start))).2 !! "/tmp/npmgop123/alpinejs"
  = (<["/tmp/npmgop123/alpinejs-v3.3.3-aa" := Dir]>
       (<["/tmp/npmgop123" := Dir]> fs_start)) !! "/tmp/npmgop123/alpinejs".
Proof.
  refine (untar_stays_below_its_directory world_alpinejs
            ["tmp"; "npmgop123"; "alpinejs-v3.3.3-aa"] "(the alpinejs-3.3.3 tarball)"
            [ tar_entry {| tar_Name := "package"; tar_Typeflag := tar_TypeDir |}
                "" None;
              tar_entry {| tar_Name := "package/package.json";
                           tar_Typeflag := tar_TypeReg |}
                "(package.json)" None;
              tar_entry {| tar_Name := "package/dist/module.esm.js";
                           tar_Typeflag := tar_TypeReg |}
                "(module.esm.js)" None ]
            (<["/tmp/npmgop123/alpinejs-v3.3.3-aa" := Dir]>
               (<["/tmp/npmgop123" := Dir]> fs_start))
            _ _ _ _ _ "/tmp/npmgop123/alpinejs" _); by vm_compute.
Defined.

Section DotDot.

Lemma backtrack_skip (d acc : string) :
  GoStrings.Contains d "/" = false -> (2 <= String.length acc)%nat ->
  GoPath.backtrack (String.rev_app d acc) 1 = GoPath.backtrack acc 1.
Proof.
  revert acc. induction d as [|c d IH]; intros acc Hd Hacc; [done|].
  apply no_slash_cons in Hd as [Hc Hd]. cbn [String.rev_app].
  rewrite IH by (done || cbn [String.length]; lia).
  cbn [GoPath.backtrack]. rewrite Hc.
  destruct (Nat.ltb_spec 1 (String.length acc)); [done|lia].
Qed.

Lemma backtrack_rooted (pe : list string) (d : string) :
  forallb normal_element pe = true -> normal_element d = true ->
  GoPath.backtrack (String.rev_app (GoStrings.Join (pe ++ [d]) "/") "/") 1
  = String.rev_app (GoStrings.Join pe "/") "/".
Proof.
  intros Hpe Hd. destruct (decide (pe = [])) as [->|Hne].
  - cbn [app GoStrings.Join].
    destruct (normal_element_cons d Hd) as (c & d' & -> & Hc & Hs & _).
    cbn [String.rev_app]. rewrite backtrack_skip by (done || cbn; lia).
    cbn [GoPath.backtrack String.length]. done.
  - rewrite Join_app by done. cbn [GoStrings.Join].
    rewrite !rev_app_append. cbn [String.rev_app].
    pose proof (rooted_buffer_length pe Hne Hpe) as Hlen.
    rewrite backtrack_skip; [|by apply normal_no_slash|cbn [String.length]; lia].
    cbn [GoPath.backtrack Ascii.eqb Bool.eqb negb]. by rewrite andb_false_r.
Qed.

Lemma Clean_loop_dotdot (pe : list string) (d r : string) :
  forallb normal_element pe = true -> normal_element d = true ->
  GoPath.at_elem_end r = true ->
  GoPath.Clean_loop (".." +:+ r) false true
    (String.rev_app (GoStrings.Join (pe ++ [d]) "/") "/") 1
  = GoPath.Clean_loop r false true (String.rev_app (GoStrings.Join pe "/") "/") 1.
Proof.
  intros Hpe Hd Hr. rewrite !append_cons, append_empty.
  cbn [GoPath.Clean_loop Ascii.eqb Bool.eqb andb GoPath.at_elem_end].
  rewrite Hr.
  assert (Hlen : (1 <? String.length
                    (String.rev_app (GoStrings.Join (pe ++ [d]) "/") "/"))%nat = true).
  { apply Nat.ltb_lt.
    pose proof (rooted_buffer_length (pe ++ [d])) as H.
    rewrite forallb_app, Hpe in H. cbn [forallb] in H. rewrite Hd in H.
    specialize (H ltac:(by destruct pe) eq_refl). lia. }
  rewrite Hlen. by rewrite backtrack_rooted.
Qed.

Lemma Clean_loop_rooted_then (elems more : list string) (rest : string) :
  more <> [] -> forallb normal_element elems = true ->
  forallb normal_element more = true ->
  GoPath.Clean_loop (GoStrings.Join more "/" +:+ String "/" rest) false true
    (String.rev_app (GoStrings.Join elems "/") "/") 1
  = GoPath.Clean_loop rest false true
      (String.rev_app (GoStrings.Join (elems ++ more) "/") "/") 1.
Proof.
  intros Hne Helems Hmore. revert elems Helems.
  induction more as [|e more IH]; intros elems Helems; [done|].
  cbn [forallb] in Hmore. apply andb_true_iff in Hmore as [He Hmore].
  destruct more as [|e2 more'].
  - cbn [GoStrings.Join]. rewrite Clean_loop_element_any by done.
    by rewrite rooted_buffer_step.
  - rewrite Join_cons_cons, !append_assoc.
    rewrite Clean_loop_element_any by done.
    rewrite append_cons, append_empty, rooted_buffer_step by done.
    rewrite IH; [|done|done|].
    + by rewrite <- app_assoc.
    + rewrite forallb_app, Helems. cbn [forallb]. by rewrite He.
Qed.

Lemma Join_dotdots (k : nat) :
  GoStrings.Join (replicate (S (S k)) "..") "/"
  = ".." +:+ String "/" (GoStrings.Join (replicate (S k) "..") "/").
Proof. done. Qed.

Lemma Clean_loop_dotdots (pe ds : list string) (r : string) :
  ds <> [] -> forallb normal_element pe = true ->
  forallb normal_element ds = true -> GoPath.at_elem_end r = true ->
  GoPath.Clean_loop (GoStrings.Join (replicate (length ds) "..") "/" +:+ r)
    false true (String.rev_app (GoStrings.Join (pe ++ ds) "/") "/") 1
  = GoPath.Clean_loop r false true (String.rev_app (GoStrings.Join pe "/") "/") 1.
Proof.
  intros Hne Hpe Hds Hr. induction ds as [|d ds IH] using rev_ind; [done|].
  rewrite forallb_app in Hds. apply andb_true_iff in Hds as [Hds Hd].
  cbn [forallb] in Hd. rewrite andb_true_r in Hd.
  rewrite length_app, Nat.add_comm. cbn [length Nat.add].
  destruct (decide (ds = [])) as [->|Hn].
  - cbn [length replicate GoStrings.Join app]. by apply Clean_loop_dotdot.
  - destruct ds as [|d0 ds0] eqn:E; [done|]. rewrite <- E in *.
    assert (Hlen : length ds = S (length ds0)) by by rewrite E.
    rewrite Hlen, Join_dotdots, append_assoc, app_assoc.
    rewrite Clean_loop_dotdot; [|by rewrite forallb_app, Hpe|done|done].
    rewrite append_cons. cbn [GoPath.Clean_loop Ascii.eqb Bool.eqb].
    rewrite <- Hlen. by apply IH.
Qed.

(** A name that starts with as many ".." as the directory has elements
    below [pe] is joined to [pe]. *)
Lemma Join_rooted_dotdots (pe ds : list string) (e : string) :
  ds <> [] -> forallb normal_element pe = true ->
  forallb normal_element ds = true -> normal_element e = true ->
  GoPath.Join [rooted (pe ++ ds);
               GoStrings.Join (replicate (length ds) ".." ++ [e]) "/"]
  = rooted (pe ++ [e]).
Proof.
  intros Hne Hpe Hds He. cbn [GoPath.Join].
  change (String.eqb (rooted (pe ++ ds)) "") with false. cbv iota.
  cbn [GoStrings.Join]. unfold rooted at 1.
  rewrite (Join_app (replicate (length ds) "..")) by (done || by destruct ds).
  cbn [GoStrings.Join].
  rewrite !append_cons, !append_empty.
  unfold GoPath.Clean. cbn [Ascii.eqb Bool.eqb andb].
  assert (Hall : forallb normal_element (pe ++ ds) = true)
    by by rewrite forallb_app, Hpe.
  assert (Hloop :
    GoPath.Clean_loop
      (GoStrings.Join (pe ++ ds) "/" +:+
       String "/" (GoStrings.Join (replicate (length ds) "..") "/" +:+ String "/" e))
      false true "/" 1
    = String.rev_app (GoStrings.Join (pe ++ [e]) "/") "/").
  { pose proof (Clean_loop_rooted_then [] (pe ++ ds)
                  (GoStrings.Join (replicate (length ds) "..") "/" +:+ String "/" e)
                  ltac:(by destruct pe, ds) eq_refl Hall) as H1.
    change (String.rev_app (GoStrings.Join [] "/") "/") with "/" in H1.
    change ([] ++ (pe ++ ds)) with (pe ++ ds) in H1. rewrite H1.
    rewrite Clean_loop_dotdots by done.
    cbn [GoPath.Clean_loop Ascii.eqb Bool.eqb].
    pose proof (Clean_loop_rooted pe [e] "" ltac:(done) Hpe) as H2.
    cbn [forallb GoStrings.Join] in H2. rewrite He, append_empty_r in H2.
    by apply H2; [|left]. }
  rewrite Hloop.
  pose proof (rooted_buffer_length (pe ++ [e])) as Hlen.
  rewrite forallb_app, Hpe in Hlen. cbn [forallb] in Hlen. rewrite He in Hlen.
  specialize (Hlen ltac:(by destruct pe) eq_refl).
  destruct (Nat.eqb_spec (String.length
              (String.rev_app (GoStrings.Join (pe ++ [e]) "/") "/")) 0); [lia|].
  apply rev_rooted_buffer.
Qed.

Lemma os_MkdirAll_present (path : string) (fs : FS) :
  path <> "" -> on_the_way path fs -> os_MkdirAll path fs = inr fs.
Proof.
  intros Hne Hway. unfold os_MkdirAll.
  destruct (String.eqb_spec path ""); [done|].
  unfold on_the_way in Hway. revert Hway.
  generalize (ancestors path) as dirs. induction dirs as [|dir dirs IH]; [done|].
  intros Hway. cbn [fold_left]. rewrite (Hway dir) by (apply elem_of_cons; by left).
  apply IH. intros a Ha. apply Hway, elem_of_cons. by right.
Qed.

Lemma prefix_app_cancel (p a b : string) :
  String.prefix (p +:+ a) (p +:+ b) = String.prefix a b.
Proof.
  induction p as [|c p IH]; [by rewrite !append_empty|].
  by rewrite !append_cons, prefix_cons, Ascii.eqb_refl, IH.
Qed.

Lemma prefix_slash_contains (d e : string) :
  String.prefix (d +:+ "/") e = true -> GoStrings.Contains e "/" = true.
Proof.
  revert e. induction d as [|c d IH]; intros e.
  - rewrite append_empty. destruct e as [|x e]; [done|].
    intros H. by rewrite Contains_cons, H.
  - rewrite append_cons. destruct e as [|x e]; [done|]. rewrite prefix_cons.
    intros [_ H]%andb_true_iff. by rewrite Contains_cons, (IH e H), orb_true_r.
Qed.

Lemma append_inj_r (p a b : string) : p +:+ a = p +:+ b -> a = b.
Proof.
  induction p as [|c p IH]; [by rewrite !append_empty|].
  rewrite !append_cons. intros [= H]. by apply IH.
Qed.

Lemma rooted_snoc (pe : list string) :
  exists P, forall x, rooted (pe ++ [x]) = P +:+ x.
Proof.
  destruct (decide (pe = [])) as [->|Hne].
  - by exists "/".
  - exists (rooted pe +:+ "/"). intros x. rewrite rooted_app by done.
    cbn [GoStrings.Join]. by rewrite !append_assoc.
Qed.

Lemma sibling_not_under (pe : list string) (d e : string) :
  GoStrings.Contains e "/" = false -> e <> d ->
  under (rooted (pe ++ [d])) (rooted (pe ++ [e])) = false.
Proof.
  intros He Hne. destruct (rooted_snoc pe) as [P HP]. rewrite !HP.
  unfold under. apply orb_false_iff. split.
  - apply String.eqb_neq. by intros E%append_inj_r.
  - rewrite append_assoc, prefix_app_cancel.
    destruct (String.prefix (d +:+ "/") e) eqn:Hp; [|done].
    apply prefix_slash_contains in Hp. congruence.
Qed.

End DotDot.

(** X19: [untar] does not confine entry names: a regular-file entry whose
    name climbs with ".." elements is written above the destination,
    outside the directory that the climb leaves. *)
Theorem untar_follows_dotdot_out_of_its_directory
    (pe : list string) (d : string) (ds : list string) (e content : string)
    (rest : list tar_next) (fs : FS) :
  forallb normal_element pe = true -> normal_element d = true ->
  forallb normal_element ds = true -> normal_element e = true -> e <> d ->
  forallb (is_dir fs) (ancestors (rooted pe)) = true ->
  is_dir fs (rooted (pe ++ [e])) = false ->
  GoPath.Join [rooted (pe ++ d :: ds);
               GoStrings.Join (replicate (S (length ds)) ".." ++ [e]) "/"]
  = rooted (pe ++ [e])
  /\ under (rooted (pe ++ [d])) (rooted (pe ++ [e])) = false
  /\ untar_loop (rooted (pe ++ d :: ds))
       (tar_entry {| tar_Name :=
                       GoStrings.Join (replicate (S (length ds)) ".." ++ [e]) "/";
                     tar_Typeflag := tar_TypeReg |} content None :: rest) fs
     = untar_loop (rooted (pe ++ d :: ds)) rest
         (<[rooted (pe ++ [e]) := File content]> fs).
Proof.
  intros Hpe Hd Hds He Hne Hway Hfile.
  assert (Hjoin : GoPath.Join [rooted (pe ++ d :: ds);
                    GoStrings.Join (replicate (S (length ds)) ".." ++ [e]) "/"]
                  = rooted (pe ++ [e])).
  { apply (Join_rooted_dotdots pe (d :: ds) e); [done|done| |done].
    cbn [forallb]. by rewrite Hd. }
  split; [done|]. split; [by apply sibling_not_under; [apply normal_no_slash|]|].
  cbn [untar_loop tar_Typeflag tar_Name]. rewrite Hjoin.
  change (Ascii.eqb tar_TypeReg tar_TypeDir) with false.
  change (Ascii.eqb tar_TypeReg tar_TypeReg) with true. cbv iota.
  rewrite Dir_rooted by (done || by apply normal_no_slash).
  apply on_the_way_bool in Hway.
  rewrite os_MkdirAll_present by done.
  rewrite os_Create_ok; [|done|].
  - unfold write_file. by rewrite insert_insert_eq.
  - rewrite Dir_rooted by (done || by apply normal_no_slash).
    unfold is_dir. by rewrite (Hway (rooted pe) (ancestors_self _)).
Qed.

Lemma untar_follows_dotdot_out_of_its_directory_witness :
  GoPath.Join [rooted (["tmp"] ++ "npmgop123" :: ["alpinejs-v3.3.3-aa"]);
               GoStrings.Join (replicate (S (length ["alpinejs-v3.3.3-aa"])) ".."
                               ++ ["planted"]) "/"]
  = rooted (["tmp"] ++ ["planted"])
  /\ under (rooted (["tmp"] ++ ["npmgop123"])) (rooted (["tmp"] ++ ["planted"])) = false
  /\ untar_loop (rooted (["tmp"] ++ "npmgop123" :: ["alpinejs-v3.3.3-aa"]))
       (tar_entry {| tar_Name :=
                       GoStrings.Join (replicate (S (length ["alpinejs-v3.3.3-aa"])) ".."
                                       ++ ["planted"]) "/";
                     tar_Typeflag := tar_TypeReg |} "(bytes)" None :: []) fs_start
     = untar_loop (rooted (["tmp"] ++ "npmgop123" :: ["alpinejs-v3.3.3-aa"])) []
         (<[rooted (["tmp"] ++ ["planted"]) := File "(bytes)"]> fs_start).
Proof.
  apply (untar_follows_dotdot_out_of_its_directory ["tmp"] "npmgop123"
           ["alpinejs-v3.3.3-aa"] "planted" "(bytes)" [] fs_start); by vm_compute.
Defined.

(** ** The staging directory of a successful request *)

Section Staging.

Variable w : World.
Variable te : list string.
Hypothesis te_nonempty : te <> [].
Hypothesis te_normal : forallb normal_element te = true.

Local Abbreviation tempDir := (rooted te).

Lemma prefix_app_l (a b p : string) :
  String.prefix (a +:+ b) p = true -> String.prefix a p = true.
Proof.
  revert p. induction a as [|c a IH]; intros p; [by rewrite prefix_empty|].
  rewrite append_cons. destruct p as [|d p]; [done|]. rewrite !prefix_cons.
  intros [-> H]%andb_true_iff. by rewrite (IH p H).
Qed.

Lemma under_trans (dir r p : string) :
  under (dir +:+ "/" +:+ r) p = true -> under dir p = true.
Proof.
  unfold under. intros [H|H]%orb_true_iff; apply orb_true_iff; right.
  - apply String.eqb_eq in H as ->. rewrite <- append_assoc. apply HasPrefix_app.
  - rewrite !append_assoc in H. rewrite <- append_assoc in H.
    by apply prefix_app_l in H.
Qed.

Lemma rooted_snoc_append (e s : string) :
  rooted (te ++ [e]) +:+ s = rooted (te ++ [e +:+ s]).
Proof.
  rewrite !rooted_app by done. cbn [GoStrings.Join]. by rewrite !append_assoc.
Qed.

Lemma staging_file (e : string) :
  normal_element e = true -> GoPath.Join [tempDir; e] = rooted (te ++ [e]).
Proof.
  pose proof te_nonempty.
  intros He. rewrite <- (Join_rooted te [e] ""); [|done|done| |by left].
  - cbn [GoStrings.Join]. by rewrite append_empty_r.
  - cbn [forallb]. by rewrite He.
Qed.

Variable version : Version.t.
Hypothesis flat_normal : normal_element (flat_name version) = true.
Hypothesis unpack_local : local_name (unpack_name version) = true.

Local Abbreviation tarFilename := (rooted (te ++ [flat_name version])).
Local Abbreviation zipFilename := (rooted (te ++ [flat_name version +:+ ".zip"])).

Lemma zip_no_slash : GoStrings.Contains (flat_name version +:+ ".zip") "/" = false.
Proof. apply Contains_slash_append; [by apply normal_no_slash|done]. Qed.

(** The steps of [repackTarballAsZip] on a tarball in the staging
    directory change nothing outside the directory. *)
Lemma repackTarballAsZip_below (body : string) (fs : FS) :
  on_the_way tempDir fs ->
  fs !! tarFilename = Some (File body) ->
  (forall stream, gzip_tar w body = inr stream ->
                  forallb local_entry stream = true) ->
  forall p, under tempDir p = false ->
    (repackTarballAsZip w tarFilename version fs).2 !! p = fs !! p.
Proof.
  intros Hway Hfile Hlocal p Hp. unfold repackTarballAsZip.
  rewrite Dir_rooted by (done || by apply normal_no_slash).
  fold (unpack_name version).
  destruct (entry_target te te_nonempty te_normal _ unpack_local) as (ce & Hce & Hces & ->).
  destruct (below_elems te te_nonempty ce Hce) as [r Hr].
  destruct (os_MkdirAll _ fs) as [err|fs1] eqn:Hmk; [done|].
  destruct (step_mkdir tempDir _ fs fs1
              (or_intror (below_elems te te_nonempty ce Hce)) Hmk Hway)
    as [Hway1 Hframe1].
  pose proof Hmk as [Hkept Hmade]%os_MkdirAll_frame.
  assert (Hopen : os_Open tarFilename fs1 = inr body).
  { unfold os_Open. destruct (Hkept tarFilename) as [E|(_ & Hnone & _)];
      [by rewrite E, Hfile|congruence]. }
  rewrite Hopen. unfold untar.
  destruct (gzip_tar w body) as [err|stream] eqn:Hgz; [by rewrite Hframe1|].
  assert (Hp' : under (rooted (te ++ ce)) p = false).
  { destruct (under (rooted (te ++ ce)) p) eqn:Hu; [|done].
    rewrite Hr in Hu. apply under_trans in Hu. congruence. }
  assert (Hce_normal : forallb normal_element (te ++ ce) = true)
    by by rewrite forallb_app, te_normal.
  assert (Hce_nonempty : te ++ ce <> []) by by destruct te.
  pose proof (untar_loop_confined (te ++ ce) Hce_nonempty Hce_normal stream fs1
                (Hlocal stream eq_refl) Hmade p Hp') as Hframe2.
  pose proof (untar_loop_grows (rooted (te ++ ce)) stream fs1) as Hgrow.
  destruct (untar_loop _ stream fs1) as [[err|] fs2]; cbn [snd] in *;
    [by rewrite Hframe2, Hframe1|].
  assert (Hzip : tarFilename +:+ ".zip" = zipFilename) by apply rooted_snoc_append.
  rewrite Hzip.
  destruct (os_Create _ fs2) as [err|fs3] eqn:Hcreate;
    [cbn [snd]; by rewrite Hframe2, Hframe1|].
  apply os_Create_inv in Hcreate as (_ & _ & ->).
  destruct (zip_CreateFromDir w _ _ _) as [written err]. cbn [snd].
  unfold write_file. rewrite insert_insert_eq.
  destruct (below_elems te te_nonempty [flat_name version +:+ ".zip"]) as [z Hz];
    [done|].
  rewrite Hz, lookup_insert_ne; [by rewrite Hframe2, Hframe1|].
  intros <-. by rewrite under_below in Hp.
Qed.

Lemma CreateZipFromVersion_below (fs : FS) :
  ioutil_TempDir_name w fs = inr tempDir ->
  (forall a, a ∈ ancestors tempDir -> a <> tempDir -> fs !! a = Some Dir) ->
  (forall resp stream,
     http_Get w (Dist.Tarball (Version.Dist version)) = inr resp ->
     gzip_tar w (Body resp) = inr stream -> forallb local_entry stream = true) ->
  forall p, under tempDir p = false ->
    (CreateZipFromVersion w version fs).2 !! p = fs !! p.
Proof.
  intros Htemp Hparents Hlocal p Hp. unfold CreateZipFromVersion. rewrite Htemp.
  fold (flat_name version). rewrite (staging_file _ flat_normal).
  destruct (below_elems te te_nonempty [flat_name version]) as [t Ht]; [done|].
  assert (Hne : p <> tarFilename).
  { intros ->. by rewrite Ht, under_below in Hp. }
  assert (Hne0 : p <> tempDir).
  { intros ->. by rewrite under_self in Hp. }
  pose proof (downloadTarball_frame w (Version.Dist version) tarFilename
                (<[tempDir := Dir]> fs) p Hne) as Hframe0.
  rewrite lookup_insert_ne in Hframe0 by done.
  destruct (downloadTarball w _ _ _) as [[err|] fs1] eqn:Hdl; cbn [snd] in *; [done|].
  apply (downloadTarball_ok w) in Hdl as (resp & _ & _ & Hget & _ & _ & _ & ->).
  rewrite (repackTarballAsZip_below (Body resp)); [done| | |by eauto|done].
  - intros a Ha. rewrite Ht, lookup_insert_ne by (intros E; by apply (below_longer tempDir t a)).
    destruct (decide (a = tempDir)) as [->|Hn]; [by rewrite lookup_insert_eq|].
    rewrite lookup_insert_ne by done. by apply Hparents.
  - by rewrite lookup_insert_eq.
Qed.

Lemma CreateZipFromVersion_ok (fs : FS) :
  ioutil_TempDir_name w fs = inr tempDir ->
  (CreateZipFromVersion w version fs).1.2 = None ->
  exists written,
    (CreateZipFromVersion w version fs).1.1 = Some zipFilename
    /\ (CreateZipFromVersion w version fs).2 !! zipFilename = Some (File written).
Proof.
  intros Htemp. unfold CreateZipFromVersion. rewrite Htemp.
  fold (flat_name version). rewrite (staging_file _ flat_normal).
  destruct (downloadTarball w _ _ _) as [[err|] fs1]; [done|].
  unfold repackTarballAsZip. rewrite rooted_snoc_append.
  destruct (os_MkdirAll _ fs1) as [err|fs2]; [done|].
  destruct (os_Open _ fs2) as [err|tf]; [done|].
  destruct (untar w _ tf fs2) as [[err|] fs3]; [done|].
  destruct (os_Create _ fs3) as [err|fs4]; [done|].
  destruct (zip_CreateFromDir w _ _ _) as [written err]. cbn [fst snd].
  intros _. exists written. split; [done|]. unfold write_file.
  by rewrite lookup_insert_eq.
Qed.

End Staging.

(** X20: whatever it returns, [CreateZipFromVersion] changes no path
    outside the staging directory, when the directories above it exist, the
    name of the version makes a file and a directory below it, and the
    entries of the tarball have names of normal path elements. *)
Theorem CreateZipFromVersion_stays_in_staging_directory
    (w : World) (version : Version.t) (fs : FS) (te : list string) :
  te <> [] -> forallb normal_element te = true ->
  ioutil_TempDir_name w fs = inr (rooted te) ->
  forallb (fun a => String.eqb a (rooted te) || is_dir fs a)
    (ancestors (rooted te)) = true ->
  normal_element (flat_name version) = true ->
  local_name (unpack_name version) = true ->
  (forall resp stream,
     http_Get w (Dist.Tarball (Version.Dist version)) = inr resp ->
     gzip_tar w (Body resp) = inr stream -> forallb local_entry stream = true) ->
  forall p, under (rooted te) p = false ->
    (CreateZipFromVersion w version fs).2 !! p = fs !! p.
Proof.
  intros Hne Hnormal Htemp Hparents Hflat Hunpack Hlocal.
  apply (CreateZipFromVersion_below w te Hne Hnormal version Hflat Hunpack fs);
    [done| |done].
  intros a Ha Hn. rewrite forallb_forall in Hparents.
  apply list_elem_of_In in Ha. specialize (Hparents a Ha).
  apply orb_true_iff in Hparents as [E|E]; [by apply String.eqb_eq in E|].
  unfold is_dir in E. by destruct (fs !! a) as [[|?]|].
Qed.

Lemma CreateZipFromVersion_stays_in_staging_directory_witness :
  (CreateZipFromVersion world_alpinejs
     (Version.mk "alpinejs" "v3.3.3" [] (Dist.mk alpinejs_shasum alpinejs_tarball))
     fs_start).2 !! "/tmp/alpinejs" = fs_start !! "/tmp/alpinejs".
Proof.
  refine (CreateZipFromVersion_stays_in_staging_directory world_alpinejs
            (Version.mk "alpinejs" "v3.3.3" [] (Dist.mk alpinejs_shasum alpinejs_tarball))
            fs_start ["tmp"; "npmgop123"] _ _ _ _ _ _ _ "/tmp/alpinejs" _);
    try by vm_compute.
  intros resp stream Hget Hgz. vm_compute in Hget. injection Hget as <-.
  vm_compute in Hgz. by injection Hgz as <-.
Defined.

(** X21: a zip request that succeeds serves the file named after the
    package in the staging directory and removes the directory with all
    below it; outside it the file system is as [CreateZipFromVersion] left
    it. *)
Theorem Zip_success_removes_staging_directory
    (sort_Slice : forall A : Type, (A -> A -> bool) -> list A -> list A)
    (w : World) (mctx : moduleContext) (fs : FS) (npmv : Version.t)
    (te : list string) :
  FetchPackageVersion sort_Slice w (NpmPackage_ mctx) (Version_ mctx) = (npmv, None) ->
  te <> [] -> forallb normal_element te = true ->
  ioutil_TempDir_name w fs = inr (rooted te) ->
  normal_element (flat_name npmv) = true ->
  (CreateZipFromVersion w npmv fs).1.2 = None ->
  (exists content,
     (Zip sort_Slice w mctx fs).1
     = ServedContent (rooted (te ++ [flat_name npmv +:+ ".zip"])) content)
  /\ (forall p, under (rooted te) p = true -> (Zip sort_Slice w mctx fs).2 !! p = None)
  /\ (forall p, under (rooted te) p = false ->
        (Zip sort_Slice w mctx fs).2 !! p = (CreateZipFromVersion w npmv fs).2 !! p).
Proof.
  intros Hfetch Hne Hnormal Htemp Hflat Hok.
  destruct (CreateZipFromVersion_ok w te Hne Hnormal npmv Hflat fs Htemp Hok)
    as (written & Hf & Hfile).
  unfold Zip. rewrite Hfetch.
  destruct (CreateZipFromVersion w npmv fs) as [[f err] fs'].
  cbn [fst snd] in *. subst f err.
  unfold os_Open. rewrite Hfile. cbn [fst snd].
  rewrite Dir_rooted by (done || by apply zip_no_slash).
  unfold os_RemoveAll. change (String.eqb (rooted te) "") with false. cbv iota.
  split; [by exists written|]. split.
  - intros p Hp. apply map_lookup_filter_None_2. right. intros n _. cbn. congruence.
  - intros p Hp. destruct (fs' !! p) as [n|] eqn:Hn.
    + by apply map_lookup_filter_Some_2.
    + apply map_lookup_filter_None_2. by left.
Qed.

Lemma Zip_success_removes_staging_directory_witness :
  (exists content,
     (Zip insertionSort world_alpinejs alpinejs_request fs_start).1
     = ServedContent
         (rooted (["tmp"; "npmgop123"]
                  ++ [flat_name (FetchPackageVersion insertionSort world_alpinejs
                                   "alpinejs" "v3.3.3").1 +:+ ".zip"])) content)
  /\ (forall p, under (rooted ["tmp"; "npmgop123"]) p = true ->
        (Zip insertionSort world_alpinejs alpinejs_request fs_start).2 !! p = None)
  /\ (forall p, under (rooted ["tmp"; "npmgop123"]) p = false ->
        (Zip insertionSort world_alpinejs alpinejs_request fs_start).2 !! p
        = (CreateZipFromVersion world_alpinejs
             (FetchPackageVersion insertionSort world_alpinejs "alpinejs" "v3.3.3").1
             fs_start).2 !! p).
Proof.
  apply (Zip_success_removes_staging_directory insertionSort world_alpinejs
           alpinejs_request fs_start
           (FetchPackageVersion insertionSort world_alpinejs "alpinejs" "v3.3.3").1
           ["tmp"; "npmgop123"]); by vm_compute.
Defined.

(** X22: a zip request that succeeds for a tarball whose entries have
    names of normal path elements leaves the file system exactly as it
    found it, the staging directory being new and the directories above it
    there. *)
Theorem Zip_success_restores_file_system
    (sort_Slice : forall A : Type, (A -> A -> bool) -> list A -> list A)
    (w : World) (mctx : moduleContext) (fs : FS) (npmv : Version.t)
    (te : list string) (resp : Response) (stream : list tar_next) :
  FetchPackageVersion sort_Slice w (NpmPackage_ mctx) (Version_ mctx) = (npmv, None) ->
  te <> [] -> forallb normal_element te = true ->
  ioutil_TempDir_name w fs = inr (rooted te) ->
  map_Forall (fun p _ => under (rooted te) p = false) fs ->
  forallb (fun a => String.eqb a (rooted te) || is_dir fs a)
    (ancestors (rooted te)) = true ->
  normal_element (flat_name npmv) = true ->
  local_name (unpack_name npmv) = true ->
  http_Get w (Dist.Tarball (Version.Dist npmv)) = inr resp ->
  gzip_tar w (Body resp) = inr stream ->
  forallb local_entry stream = true ->
  (CreateZipFromVersion w npmv fs).1.2 = None ->
  exists content,
    Zip sort_Slice w mctx fs
    = (ServedContent (rooted (te ++ [flat_name npmv +:+ ".zip"])) content, fs).
Proof.
  intros Hfetch Hne Hnormal Htemp Hfresh Hparents Hflat Hunpack Hget Hgz Hlocal Hok.
  assert (Hbelow : forall p, under (rooted te) p = false ->
            (CreateZipFromVersion w npmv fs).2 !! p = fs !! p).
  { apply (CreateZipFromVersion_below w te Hne Hnormal npmv Hflat Hunpack fs);
      [done| |].
    - intros a Ha Hn. rewrite forallb_forall in Hparents.
      apply list_elem_of_In in Ha. specialize (Hparents a Ha).
      apply orb_true_iff in Hparents as [E|E]; [by apply String.eqb_eq in E|].
      unfold is_dir in E. by destruct (fs !! a) as [[|?]|].
    - intros resp' stream' Hget' Hgz'. rewrite Hget in Hget'. injection Hget' as <-.
      rewrite Hgz in Hgz'. by injection Hgz' as <-. }
  destruct (CreateZipFromVersion_ok w te Hne Hnormal npmv Hflat fs Htemp Hok)
    as (written & Hf & Hfile).
  exists written. unfold Zip. rewrite Hfetch.
  destruct (CreateZipFromVersion w npmv fs) as [[f err] fs'].
  cbn [fst snd] in *. subst f err.
  unfold os_Open. rewrite Hfile. f_equal.
  rewrite Dir_rooted by (done || by apply zip_no_slash).
  unfold os_RemoveAll. change (String.eqb (rooted te) "") with false. cbv iota.
  apply map_eq. intros p. destruct (under (rooted te) p) eqn:Hp.
  - rewrite map_lookup_filter_None_2.
    + destruct (fs !! p) as [n|] eqn:Hn; [|done].
      specialize (Hfresh p n Hn). cbn in Hfresh. congruence.
    + right. intros n _. cbn. congruence.
  - rewrite <- (Hbelow p Hp). destruct (fs' !! p) as [n|] eqn:Hn.
    + by apply map_lookup_filter_Some_2.
    + apply map_lookup_filter_None_2. by left.
Qed.

Lemma Zip_success_restores_file_system_witness :
  exists content,
    Zip insertionSort world_alpinejs alpinejs_request fs_start
    = (ServedContent
         (rooted (["tmp"; "npmgop123"]
                  ++ [flat_name (FetchPackageVersion insertionSort world_alpinejs
                                   "alpinejs" "v3.3.3").1 +:+ ".zip"]))
         content, fs_start).
Proof.
  apply (Zip_success_restores_file_system insertionSort world_alpinejs
           alpinejs_request fs_start
           (FetchPackageVersion insertionSort world_alpinejs "alpinejs" "v3.3.3").1
           ["tmp"; "npmgop123"] (ok_response "(the alpinejs-3.3.3 tarball)")
           [ tar_entry {| tar_Name := "package"; tar_Typeflag := tar_TypeDir |}
               "" None;
             tar_entry {| tar_Name := "package/package.json";
                          tar_Typeflag := tar_TypeReg |}
               "(package.json)" None;
             tar_entry {| tar_Name := "package/dist/module.esm.js";
                          tar_Typeflag := tar_TypeReg |}
               "(module.esm.js)" None ]); try by vm_compute.
  refine (bool_decide_unpack _ _). vm_compute. exact I.
Defined.

Example Zip_planted_file_survives :
  Zip insertionSort world_planted alpinejs_request fs_start
  = (ServedContent "/tmp/npmgop123/alpinejs.zip"
       "(zip of gohugo.io/npmjs/alpinejs/v3@v3.3.3)",
     <["/tmp/planted" := File "(bytes)"]> fs_start).
Proof. by vm_compute. Qed.

Section NoPanic.

Variable sort_Slice : forall A : Type, (A -> A -> bool) -> list A -> list A.
Variable w : World.

Lemma repackTarballAsZip_result (tarFilename : string) (version : Version.t) (fs : FS) :
  (repackTarballAsZip w tarFilename version fs).1.2 <> None
  \/ (repackTarballAsZip w tarFilename version fs).1.1 = Some (tarFilename +:+ ".zip").
Proof.
  unfold repackTarballAsZip. repeat case_match; cbn; try (by left); by right.
Qed.

Lemma CreateZipFromVersion_result (last : Version.t) (fs : FS) :
  (CreateZipFromVersion w last fs).1.2 <> None
  \/ exists f, (CreateZipFromVersion w last fs).1.1 = Some f.
Proof.
  unfold CreateZipFromVersion.
  destruct (ioutil_TempDir_name w fs) as [err|tempDir]; [by left|].
  destruct (downloadTarball w _ _ _) as [[err|] fs1]; [by left|].
  destruct (repackTarballAsZip_result
              (GoPath.Join [tempDir; GoStrings.ReplaceAll (Version.Name last) "/" "_"])
              last fs1) as [H|H]; [by left|right; by eexists].
Qed.

Lemma handlers_no_panic (mctx : moduleContext) (fs : FS) :
  (List sort_Slice w mctx fs).1 <> Panic
  /\ (Info sort_Slice w mctx fs).1 <> Panic
  /\ (Mod sort_Slice w mctx fs).1 <> Panic
  /\ (Zip sort_Slice w mctx fs).1 <> Panic.
Proof.
  unfold List, Info, Mod, Zip. repeat split.
  - by repeat case_match.
  - by repeat case_match.
  - by repeat case_match.
  - destruct (FetchPackageVersion _ _ _ _) as [npmv [err|]]; [done|].
    destruct (CreateZipFromVersion_result npmv fs) as [H|[f H]];
      destruct (CreateZipFromVersion w npmv fs) as [[f' err'] fs']; cbn in H.
    + by destruct f', err'.
    + subst f'. destruct err'; [done|]. by destruct (os_Open f fs').
Qed.

End NoPanic.

(** X23: [CreateZipFromVersion] returns a file whenever it returns no
    error, the zip file in the staging directory, which exists; the
    handlers never close or serve a nil file. *)
Theorem handlers_never_use_a_nil_file
    (sort_Slice : forall A : Type, (A -> A -> bool) -> list A -> list A)
    (w : World) :
  (forall version fs,
     (CreateZipFromVersion w version fs).1.2 = None ->
     exists tempDir,
       ioutil_TempDir_name w fs = inr tempDir
       /\ (CreateZipFromVersion w version fs).1.1
          = Some (GoPath.Join [tempDir; flat_name version] +:+ ".zip")
       /\ exists staged dir,
            (CreateZipFromVersion w version fs).2
              !! (GoPath.Join [tempDir; flat_name version] +:+ ".zip")
            = Some (File (zip_CreateFromDir w (module_identity version)
                            staged dir).1))
  /\ (forall method path fs, (ServeHTTP sort_Slice w method path fs).1 <> Panic).
Proof.
  split.
  - intros version fs. unfold CreateZipFromVersion.
    destruct (ioutil_TempDir_name w fs) as [err|tempDir]; [done|].
    fold (flat_name version).
    destruct (downloadTarball w _ _ _) as [[err|] fs1]; [done|].
    unfold repackTarballAsZip.
    destruct (os_MkdirAll _ fs1) as [err|fs2]; [done|].
    destruct (os_Open _ fs2) as [err|tf]; [done|].
    destruct (untar w _ tf fs2) as [[err|] fs3]; [done|].
    destruct (os_Create _ fs3) as [err|fs4]; [done|].
    match goal with
    | |- context [zip_CreateFromDir w ?m ?staged ?dir] =>
        destruct (zip_CreateFromDir w m staged dir) as [written err] eqn:Hzip;
        cbn [fst snd]; intros _; exists tempDir; split; [done|]; split; [done|];
        exists staged, dir; rewrite Hzip
    end.
    unfold write_file. by rewrite lookup_insert_eq.
  - intros method path fs. unfold ServeHTTP.
    destruct (String.eqb method "DELETE"); [done|].
    destruct (negb _); [done|].
    destruct (find_route _ path) as [[r m]|] eqn:Hroute; [|done].
    unfold serve_route.
    destruct (module_EscapePath w _) as [err|pathVersion]; [done|].
    destruct (String.eqb pathVersion ModPathBase); [done|].
    destruct (module_SplitPathVersion w pathVersion) as [[npmPackage major] ok].
    apply find_route_last_byte in Hroute as [_ [[-> _]|[[-> _]|[[-> _]|[-> _]]]]];
      cbn [route_handler]; apply handlers_no_panic.
Qed.


(** ** The module path of an archive *)

Section CleanSplit.

Lemma at_elem_end_app (p t : string) :
  GoPath.at_elem_end (p +:+ String "/" t) = GoPath.at_elem_end p.
Proof. by destruct p. Qed.

Lemma Clean_loop_cons (c : ascii) (p1 : string) (copying rooted_ : bool)
    (rout : string) (dotdot : nat) :
  Ascii.eqb c "/" = true
  \/ copying = true
  \/ Ascii.eqb c "." && GoPath.at_elem_end p1 = true ->
  GoPath.Clean_loop (String c p1) copying rooted_ rout dotdot
  = if Ascii.eqb c "/" then GoPath.Clean_loop p1 false rooted_ rout dotdot
    else if copying then GoPath.Clean_loop p1 true rooted_ (String c rout) dotdot
    else GoPath.Clean_loop p1 false rooted_ rout dotdot.
Proof.
  intros H. cbn [GoPath.Clean_loop].
  destruct (Ascii.eqb c "/"); [done|]. destruct copying; [done|].
  destruct H as [H|[H|H]]; [done..|]. by rewrite H.
Qed.

Lemma Clean_loop_cons2 (c d : ascii) (p2 : string) (rooted_ : bool)
    (rout : string) (dotdot : nat) :
  Ascii.eqb c "/" = false ->
  Ascii.eqb c "." && GoPath.at_elem_end (String d p2) = false ->
  GoPath.Clean_loop (String c (String d p2)) false rooted_ rout dotdot
  = if Ascii.eqb c "." && Ascii.eqb d "." && GoPath.at_elem_end p2 then
      if (dotdot <? String.length rout)%nat
      then GoPath.Clean_loop p2 false rooted_ (GoPath.backtrack rout dotdot) dotdot
      else if negb rooted_ then
        let rout :=
          if (0 <? String.length rout)%nat then String "/" rout else rout in
        let rout := String "." (String "." rout) in
        GoPath.Clean_loop p2 false rooted_ rout (String.length rout)
      else GoPath.Clean_loop p2 false rooted_ rout dotdot
    else GoPath.Clean_loop (String d p2) true rooted_
           (String c (GoPath.add_slash rooted_ rout)) dotdot.
Proof.
  intros Hc Hdot.
  change (GoPath.Clean_loop (String c (String d p2)) false rooted_ rout dotdot)
    with (if Ascii.eqb c "/" then GoPath.Clean_loop (String d p2) false rooted_ rout dotdot
          else if Ascii.eqb c "." && GoPath.at_elem_end (String d p2)
          then GoPath.Clean_loop (String d p2) false rooted_ rout dotdot
          else
            if Ascii.eqb c "." && Ascii.eqb d "." && GoPath.at_elem_end p2 then
              if (dotdot <? String.length rout)%nat
              then GoPath.Clean_loop p2 false rooted_ (GoPath.backtrack rout dotdot) dotdot
              else if negb rooted_ then
                let rout :=
                  if (0 <? String.length rout)%nat then String "/" rout else rout in
                let rout := String "." (String "." rout) in
                GoPath.Clean_loop p2 false rooted_ rout (String.length rout)
              else GoPath.Clean_loop p2 false rooted_ rout dotdot
            else GoPath.Clean_loop (String d p2) true rooted_
                   (String c (GoPath.add_slash rooted_ rout)) dotdot).
  by rewrite Hc, Hdot.
Qed.

Lemma Clean_loop_cons1 (c : ascii) (rooted_ : bool) (rout : string) (dotdot : nat) :
  Ascii.eqb c "/" = false -> Ascii.eqb c "." = false ->
  GoPath.Clean_loop (String c "") false rooted_ rout dotdot
  = String c (GoPath.add_slash rooted_ rout).
Proof. intros Hc Hd. cbn [GoPath.Clean_loop]. by rewrite Hc, Hd. Qed.

(** The loop of [Clean] over a path and what follows its next slash: the
    loop over the path, then the loop over the rest from the buffer it
    left. *)
Lemma Clean_loop_split (x : string) (copying rooted_ : bool) (rout : string)
    (dotdot : nat) :
  exists dotdot',
    forall t,
      GoPath.Clean_loop (x +:+ String "/" t) copying rooted_ rout dotdot
      = GoPath.Clean_loop t false rooted_
          (GoPath.Clean_loop x copying rooted_ rout dotdot) dotdot'.
Proof.
  remember (String.length x) as n eqn:Hn.
  revert x copying rout dotdot Hn.
  induction n as [n IH] using lt_wf_ind. intros x copying rout dotdot Hn.
  assert (Hrec : forall y copying' rout' dotdot',
            (String.length y < String.length x)%nat ->
            exists dd, forall t,
              GoPath.Clean_loop (y +:+ String "/" t) copying' rooted_ rout' dotdot'
              = GoPath.Clean_loop t false rooted_
                  (GoPath.Clean_loop y copying' rooted_ rout' dotdot') dd).
  { intros y c' r' d' Hy. apply (IH (String.length y)); [lia|done]. }
  clear IH Hn n.
  destruct x as [|c p1].
  { exists dotdot. intros t. rewrite append_empty. done. }
  cbn [String.length] in Hrec.
  destruct (Ascii.eqb c "/") eqn:Hc.
  { destruct (Hrec p1 false rout dotdot ltac:(lia)) as [dd Hdd].
    exists dd. intros t. rewrite append_cons.
    rewrite !Clean_loop_cons by by left. by rewrite Hc, Hdd. }
  destruct copying.
  { destruct (Hrec p1 true (String c rout) dotdot ltac:(lia)) as [dd Hdd].
    exists dd. intros t. rewrite append_cons.
    rewrite !Clean_loop_cons by (right; by left). by rewrite Hc, Hdd. }
  destruct (Ascii.eqb c "." && GoPath.at_elem_end p1) eqn:Hdot.
  { destruct (Hrec p1 false rout dotdot ltac:(lia)) as [dd Hdd].
    exists dd. intros t. rewrite append_cons.
    rewrite (Clean_loop_cons c p1) by (right; by right).
    rewrite (Clean_loop_cons c (p1 +:+ _))
      by (right; right; by rewrite at_elem_end_app).
    by rewrite Hc, Hdd. }
  destruct p1 as [|d p2].
  { exists dotdot. intros t. rewrite append_cons, append_empty.
    cbn [GoPath.at_elem_end] in Hdot. rewrite andb_true_r in Hdot.
    rewrite Clean_loop_cons1 by done.
    rewrite Clean_loop_cons2; [|done|by rewrite Hdot].
    rewrite Hdot. cbn [andb].
    by rewrite Clean_loop_cons by by left. }
  cbn [String.length] in Hrec.
  assert (Hdot' : forall t, Ascii.eqb c "."
                    && GoPath.at_elem_end (String d (p2 +:+ String "/" t)) = false)
    by done.
  destruct (Ascii.eqb c "." && Ascii.eqb d "." && GoPath.at_elem_end p2) eqn:Hdd.
  - destruct (dotdot <? String.length rout)%nat eqn:Hlt.
    + destruct (Hrec p2 false (GoPath.backtrack rout dotdot) dotdot ltac:(lia))
        as [dd H].
      exists dd. intros t. rewrite !append_cons.
      rewrite !Clean_loop_cons2 by done.
      by rewrite at_elem_end_app, Hdd, Hlt.
    + destruct rooted_.
      * destruct (Hrec p2 false rout dotdot ltac:(lia)) as [dd H].
        exists dd. intros t. rewrite !append_cons.
        rewrite !Clean_loop_cons2 by done.
        rewrite at_elem_end_app, Hdd, Hlt. cbn [negb]. apply H.
      * set (rout1 := String "." (String "."
                        (if (0 <? String.length rout)%nat then String "/" rout
                         else rout))).
        destruct (Hrec p2 false rout1 (String.length rout1) ltac:(lia))
          as [dd H].
        exists dd. intros t. rewrite !append_cons.
        rewrite !Clean_loop_cons2 by done.
        rewrite at_elem_end_app, Hdd, Hlt. cbn [negb]. cbv zeta. apply H.
  - destruct (Hrec (String d p2) true (String c (GoPath.add_slash rooted_ rout))
                dotdot ltac:(cbn [String.length]; lia)) as [dde Hdde].
    exists dde. intros t. rewrite !append_cons.
    rewrite !Clean_loop_cons2 by done.
    rewrite at_elem_end_app, Hdd. rewrite <- append_cons. apply Hdde.
Qed.
Lemma Clean_trailing_slash (c : ascii) (x : string) :
  Ascii.eqb c "/" = false ->
  GoPath.Clean (String c x +:+ "/") = GoPath.Clean (String c x).
Proof.
  intros Hc. unfold GoPath.Clean. rewrite append_cons, Hc, <- append_cons.
  destruct (Clean_loop_split (String c x) false false "" 0) as [dd H].
  by rewrite (H "").
Qed.

(** A normal element after a path is not cleaned away: the path with it is
    not the path without it. *)
Lemma Clean_more_element (c : ascii) (x e : string) :
  Ascii.eqb c "/" = false -> normal_element e = true ->
  GoPath.Clean (String c x +:+ "/" +:+ e) <> GoPath.Clean (String c x).
Proof.
  intros Hc He. unfold GoPath.Clean. rewrite append_cons, Hc, <- append_cons.
  destruct (Clean_loop_split (String c x) false false "" 0) as [dd H].
  change ("/" +:+ e) with (String "/" e). rewrite (H e).
  set (rout := GoPath.Clean_loop (String c x) false false "" 0).
  pose proof (Clean_loop_element_any e "" rout false dd He eq_refl) as Hloop.
  rewrite append_empty_r in Hloop. rewrite Hloop.
  destruct (Nat.eqb_spec (String.length
              (String.rev_app e (GoPath.add_slash false rout))) 0) as [Hz|_].
  { by apply normal_element_length in Hz. }
  destruct (Nat.eqb_spec (String.length rout) 0) as [Hr|Hr].
  - destruct rout; [|done]. cbn [GoPath.add_slash String.length Nat.eqb negb].
    rewrite rev_rev_app. intros ->. done.
  - intros E. apply (f_equal String.length) in E. unfold String.rev in E.
    rewrite !rev_app_length, add_slash_nonempty in E by done.
    cbn [String.length] in E. lia.
Qed.

(** [path.Join] of the base path, a name and a further element: an empty
    element adds nothing, a normal one is not cleaned away. *)
Lemma Join_base_name_element (name elem : string) :
  (elem = "" ->
   GoPath.Join [ModPathBase; name; elem] = GoPath.Join [ModPathBase; name])
  /\ (normal_element elem = true ->
      GoPath.Join [ModPathBase; name; elem] <> GoPath.Join [ModPathBase; name]).
Proof.
  cbn [GoPath.Join ModPathBase String.eqb Ascii.eqb Bool.eqb andb].
  rewrite !Join_cons_cons. cbn [GoStrings.Join]. unfold ModPathBase.
  assert (E : forall t, "gohugo.io/npmjs" +:+ "/" +:+ name +:+ "/" +:+ t
                        = String "g" ("ohugo.io/npmjs" +:+ "/" +:+ name)
                          +:+ "/" +:+ t).
  { intros t. rewrite <- append_cons. by rewrite !append_assoc. }
  assert (E0 : "gohugo.io/npmjs" +:+ "/" +:+ name
               = String "g" ("ohugo.io/npmjs" +:+ "/" +:+ name))
    by by rewrite <- append_cons.
  split.
  - intros ->. rewrite E, E0.
    change ("/" +:+ "") with "/". by apply Clean_trailing_slash.
  - intros He. rewrite E, E0. by apply Clean_more_element.
Qed.

End CleanSplit.

Lemma repackTarballAsZip_archive (w : World) (tarFilename : string)
    (version : Version.t) (fs fs' : FS) (f : string) (err : option error) :
  repackTarballAsZip w tarFilename version fs = ((Some f, err), fs') ->
  exists staged dir,
    fs' = write_file f
            (zip_CreateFromDir w (module_identity version) staged dir).1 staged
    /\ err = external_error
               <$> (zip_CreateFromDir w (module_identity version) staged dir).2.
Proof.
  unfold repackTarballAsZip.
  destruct (os_MkdirAll _ fs) as [e|fs2]; [done|].
  destruct (os_Open _ fs2) as [e|tf]; [done|].
  destruct (untar w _ tf fs2) as [[e|] fs3]; [done|].
  destruct (os_Create _ fs3) as [e|fs4]; [done|].
  match goal with
  | |- context [zip_CreateFromDir w ?m ?staged ?dir] =>
      destruct (zip_CreateFromDir w m staged dir) as [written e] eqn:Hzip;
      intros [= <- <- <-]; exists staged, dir; by rewrite Hzip
  end.
Qed.

Lemma CreateZipFromVersion_repacks (w : World) (version : Version.t)
    (fs fs' : FS) (f : string) (err : option error) :
  CreateZipFromVersion w version fs = ((Some f, err), fs') ->
  exists tarFilename fs1,
    repackTarballAsZip w tarFilename version fs1 = ((Some f, err), fs').
Proof.
  unfold CreateZipFromVersion.
  destruct (ioutil_TempDir_name w fs) as [e|tempDir]; [done|].
  destruct (downloadTarball w _ _ _) as [[e|] fs1]; [done|].
  intros H. by eexists _, _.
Qed.

(** C4, as stated, fails: a name with a ".." element is resolved against the
    base path, and the module path of the archive is not under it. *)
Lemma repacked_module_path_counterexample :
  (CreateZipFromVersion world_reactivity dotdot_version fs_start).1
  = (Some "/tmp/npmgop123/.._x.zip", None)
  /\ (CreateZipFromVersion world_reactivity dotdot_version fs_start).2
       !! "/tmp/npmgop123/.._x.zip"
     = Some (File "(zip of gohugo.io/x/v3@v3.2.47)")
  /\ GoStrings.HasPrefix "gohugo.io/x/v3" ModPathBase = false.
Proof. by vm_compute. Qed.

(** C4: an archive that [repackTarballAsZip] makes, called by itself or by
    [CreateZipFromVersion], is the one [zip.CreateFromDir] wrote for the
    version string of the version and for the module path that [path.Join]
    makes of the base path, the name with every "@" replaced by "___", and
    the major element: nothing when the major component of the version is
    "1", and "v" followed by the major component otherwise.  The module
    path is the join of the base path and the escaped name alone exactly
    when the major component is "1"; for an escaped name of normal path
    elements it is spelled base path, slash, escaped name, and then "/v"
    and the major component unless that is "1".  The zip library refusing
    what is no semantic version, a version of which an archive is made has
    a major component. *)
Theorem repacked_module_path_major_suffix (w : World) (tarFilename : string)
    (version : Version.t) (fs fs' : FS) (f : string) :
  zip_refuses_invalid_version w ->
  repackTarballAsZip w tarFilename version fs = ((Some f, None), fs')
  \/ CreateZipFromVersion w version fs = ((Some f, None), fs') ->
  let name := GoStrings.ReplaceAll (Version.Name version) "@" "___" in
  exists (major : string) (m : module_Version) (staged : FS) (dir : string),
    semver.Major (Version.Version version) = "v" +:+ major
    /\ fs' = write_file f (zip_CreateFromDir w m staged dir).1 staged
    /\ module_Version_ m = Version.Version version
    /\ module_Path m
       = GoPath.Join [ModPathBase; name;
                      if String.eqb major "1" then "" else "v" +:+ major]
    /\ (module_Path m = GoPath.Join [ModPathBase; name] <-> major = "1")
    /\ (well_formed_name name = true ->
        module_Path m
        = ModPathBase +:+ "/" +:+ name
          +:+ (if String.eqb major "1" then "" else "/v" +:+ major)).
Proof.
  intros Hzip Hrepack name.
  assert (exists staged dir,
            fs' = write_file f
                    (zip_CreateFromDir w (module_identity version) staged dir).1
                    staged
            /\ None = external_error
                        <$> (zip_CreateFromDir w (module_identity version)
                               staged dir).2) as (staged & dir & Hfs & Herr).
  { destruct Hrepack as [H|H].
    - by apply repackTarballAsZip_archive in H.
    - apply CreateZipFromVersion_repacks in H as (t & fs1 & H).
      by apply repackTarballAsZip_archive in H. }
  destruct (semver.parse (Version.Version version)) as [pv|] eqn:Hparse.
  2:{ exfalso. apply (Hzip (module_identity version) staged dir); [done|].
      by destruct (zip_CreateFromDir w _ staged dir).2. }
  pose proof (Major_parsed _ _ Hparse) as Hmajor.
  set (major := semver.major pv) in *.
  assert (Hpath : module_Path (module_identity version)
                  = GoPath.Join [ModPathBase; name;
                                 if String.eqb major "1" then ""
                                 else "v" +:+ major]).
  { unfold module_identity. cbn [module_Path].
    by rewrite (path_major_parsed version pv Hparse). }
  exists major, (module_identity version), staged, dir.
  split; [done|]. split; [done|]. split; [done|]. split; [done|].
  split.
  - rewrite Hpath.
    destruct (Join_base_name_element name
                (if String.eqb major "1" then "" else "v" +:+ major))
      as [Hempty Hnormal].
    destruct (String.eqb_spec major "1") as [->|Hne].
    + split; [done|]. intros _. by apply Hempty.
    + split; [|done]. intros E. exfalso. revert E. apply Hnormal.
      by apply (major_element_normal _ _ Hparse).
  - intros Hname. rewrite Hpath.
    apply (module_path_spelled name major Hname). by eexists _, _.
Qed.

Lemma repacked_module_path_major_suffix_witness :
  (CreateZipFromVersion world_reactivity reactivity_version fs_start).2
    !! "/tmp/npmgop123/@vue_reactivity.zip"
  = Some (File "(zip of gohugo.io/npmjs/___vue/reactivity/v3@v3.2.47)").
Proof.
  assert (Hzip : zip_refuses_invalid_version world_reactivity).
  { intros m staged dir H. cbn. by rewrite H. }
  destruct (CreateZipFromVersion world_reactivity reactivity_version fs_start)
    as [[f err] fs'] eqn:Hrun.
  assert (Hf : (f, err) = (Some "/tmp/npmgop123/@vue_reactivity.zip", None)).
  { apply (f_equal (fun r => r.1)) in Hrun. vm_compute in Hrun. congruence. }
  injection Hf as -> ->.
  destruct (repacked_module_path_major_suffix world_reactivity ""
              reactivity_version fs_start fs'
              "/tmp/npmgop123/@vue_reactivity.zip" Hzip (or_intror Hrun))
    as (major & m & staged & dir & Hmajor & -> & Hversion & _ & _ & Hsafe).
  assert (major = "3") as -> by (vm_compute in Hmajor; congruence).
  pose proof (Hsafe eq_refl) as Hpath.
  cbn [snd]. unfold write_file. rewrite lookup_insert_eq.
  destruct m as [path v]. cbn [module_Path module_Version_] in Hversion, Hpath.
  subst path v. reflexivity.
Defined.

Example repacked_major_one :
  (CreateZipFromVersion world_reactivity
     (Version.mk "@vue/reactivity" "v1.0.5" [] (Version.Dist reactivity_version))
     fs_start).2 !! "/tmp/npmgop123/@vue_reactivity.zip"
  = Some (File "(zip of gohugo.io/npmjs/___vue/reactivity@v1.0.5)").
Proof. by vm_compute. Qed.
